(** * dupler: the content-index engine

    A shallow embedding of [dupler/model.py], [dupler/filemanager.py] and the
    [gc] command of [dupler/main.py], with the properties of the index that
    the specification states.

    Conventions of the embedding.
    - Python [bytes] (file contents, SHA-256 digests) are Rocq strings.
    - A directory path (always produced by [os.path.relpath] against the base
      directory) is the list of its components: ["."] is [[]], ["a/b"] is
      [["a"; "b"]]; [path_str] renders it back.
    - A table is the list of its rows in insertion order.
    - SQL comparisons follow SQLite's three-valued logic: a [NOT IN] whose
      left operand or whose right-hand set holds [NULL] is unknown, and a
      [DELETE ... WHERE] removes only the rows whose predicate is true.
    - The session is the committed store, the store as seen inside the open
      transaction, and the [Object] rows added but not yet flushed. *)

From Stdlib Require Import List ZArith String Ascii Bool Arith Lia Sorted.
From Stdlib Require Import DecimalString DecimalZ.
Import ListNotations.

Local Open Scope Z_scope.

(** ** Data model ([model.py]) *)

Definition bytes := string.
Bind Scope string_scope with bytes.
Definition path := list string.

Record Directory := mkDirectory {
  dir_id : Z;
  dir_path : path;
  dir_parent_id : option Z
}.

Record Object := mkObject {
  obj_id : string;
  obj_size : Z;
  obj_modified : Z;
  obj_hash : option bytes
}.

Record File := mkFile {
  file_id : Z;
  file_path_id : Z;
  file_name : string;
  file_type : Z;
  file_object_id : option string
}.

Record Store := mkStore {
  directories : list Directory;
  files : list File;
  objects : list Object
}.

Definition empty_store : Store := mkStore [] [] [].

(** [os.stat_result], the fields the engine reads. *)
Record stat_result := mkStat {
  st_mode : Z;
  st_dev : Z;
  st_ino : Z;
  st_size : Z;
  st_mtime : Z
}.

(** [stat.S_ISREG]: [(mode & 0o170000) == 0o100000]. *)
Definition S_IFMT (mode : Z) : Z := Z.land mode 61440.
Definition S_ISREG (mode : Z) : bool := S_IFMT mode =? 32768.

Definition str_of_Z (z : Z) : string := NilZero.string_of_int (Z.to_int z).

(** [FileManager.oid_of]: [f"{st.st_dev}:{st.st_ino}"]. *)
Definition oid_of (st : stat_result) : string :=
  String.append (str_of_Z (st_dev st)) (String.append ":" (str_of_Z (st_ino st))).

(** ** Equality tests on column values *)

Definition opt_eqb {A} (eqb : A -> A -> bool) (x y : option A) : bool :=
  match x, y with
  | Some a, Some b => eqb a b
  | None, None => true
  | _, _ => false
  end.

Definition is_none {A} (x : option A) : bool :=
  match x with None => true | Some _ => false end.

Definition is_some {A} (x : option A) : bool := negb (is_none x).

Definition path_eqb (p q : path) : bool :=
  if list_eq_dec string_dec p q then true else false.

Definition mem_str (x : string) (l : list string) : bool :=
  existsb (String.eqb x) l.

(** ** SQL three-valued [NOT IN]

    [sql_not_in eqb x xs] is the value of [x NOT IN (xs)]: [Some true],
    [Some false] or [None] for unknown.  Over the empty set it is true
    whatever [x] is; otherwise a [NULL] left operand is unknown, a match is
    false, and without a match a [NULL] in the set makes it unknown. *)
Definition sql_not_in {A} (eqb : A -> A -> bool) (x : option A)
    (xs : list (option A)) : option bool :=
  match xs with
  | [] => Some true
  | _ :: _ =>
      match x with
      | None => None
      | Some a =>
          if existsb (fun y => match y with Some b => eqb a b | None => false end) xs
          then Some false
          else if existsb is_none xs then None else Some true
      end
  end.

Definition is_true (b : option bool) : bool :=
  match b with Some true => true | _ => false end.

(** [DELETE FROM t WHERE p]: the rows kept, the number deleted. *)
Definition sql_delete {A} (p : A -> option bool) (rows : list A) : list A * nat :=
  (filter (fun r => negb (is_true (p r))) rows,
   List.length (filter (fun r => is_true (p r)) rows)).

(** ** The session, the console and the world *)

Record Session := mkSession {
  committed : Store;
  current : Store;
  pending : list Object
}.

Inductive console_line :=
| Calculated (id : string) (hash : bytes)
| DeletedObjects (n : nat)
| DeletedFiles (n : nat)
| DeletedDirectories (n : nat)
| Importing (total : nat)
| FailedImport
| ScanFilesDone (dirname : path)
| ScanDone.

Inductive os_error := FileNotFoundError | IsADirectoryError | PermissionError.

Inductive exn :=
| IntegrityError
| NoResultFound
| MultipleResultsFound
| AssertionError
| AttributeError
| KeyError
| OSError (e : os_error).

(** What [os.remove] and [open] see under the base directory: a name maps to
    a regular file, to a regular file its directory does not let go of, or
    to a directory. *)
Inductive fs_entry :=
| FsRegular (content : bytes)
| FsProtected (content : bytes)
| FsDirectory.

Definition filesystem := list (string * fs_entry).

Record world := mkWorld {
  conn : Session;
  out : list console_line;
  fs : filesystem
}.

Inductive outcome (A : Type) :=
| Return (a : A)
| Raise (e : exn).
Arguments Return {A} a.
Arguments Raise {A} e.

(** Computations thread the world and may raise. *)
Definition M (A : Type) := world -> outcome A * world.

Definition ret {A} (a : A) : M A := fun w => (Return a, w).
Definition raise {A} (e : exn) : M A := fun w => (Raise e, w).
Definition bind {A B} (m : M A) (k : A -> M B) : M B :=
  fun w => match m w with
           | (Return a, w') => k a w'
           | (Raise e, w') => (Raise e, w')
           end.

Declare Scope m_scope.
Delimit Scope m_scope with m.
Notation "x <- c1 ;; c2" := (bind c1 (fun x => c2))
  (at level 61, c1 at next level, right associativity) : m_scope.
Notation "c1 ;; c2" := (bind c1 (fun _ => c2))
  (at level 61, right associativity) : m_scope.
Local Open Scope m_scope.

Definition get_conn : M Session := fun w => (Return (conn w), w).
Definition put_conn (s : Session) : M unit :=
  fun w => (Return tt, mkWorld s (out w) (fs w)).
Definition print (l : console_line) : M unit :=
  fun w => (Return tt, mkWorld (conn w) (out w ++ [l]) (fs w)).
Definition when (b : bool) (m : M unit) : M unit := if b then m else ret tt.

Fixpoint for_each {A} (xs : list A) (body : A -> M unit) : M unit :=
  match xs with
  | [] => ret tt
  | x :: r => body x ;; for_each r body
  end.

(** ** Session operations *)

Definition set_objects (db : Store) (os : list Object) : Store :=
  mkStore (directories db) (files db) os.
Definition set_files (db : Store) (fl : list File) : Store :=
  mkStore (directories db) fl (objects db).
Definition set_directories (db : Store) (ds : list Directory) : Store :=
  mkStore ds (files db) (objects db).

Definition has_object (oid : string) (tbl : list Object) : bool :=
  existsb (fun o => String.eqb (obj_id o) oid) tbl.

(** The INSERTs of a flush, in the order the rows were added; a primary key
    that is already there fails. *)
Fixpoint insert_objects (new : list Object) (tbl : list Object) : option (list Object) :=
  match new with
  | [] => Some tbl
  | o :: r =>
      if has_object (obj_id o) tbl then None
      else insert_objects r (tbl ++ [o])
  end.

Definition rollback_session (s : Session) : Session :=
  mkSession (committed s) (committed s) [].

(** [Session.flush]; a failing flush rolls the transaction back and raises. *)
Definition flush : M unit :=
  s <- get_conn ;;
  match insert_objects (pending s) (objects (current s)) with
  | Some tbl => put_conn (mkSession (committed s) (set_objects (current s) tbl) [])
  | None => put_conn (rollback_session s) ;; raise IntegrityError
  end.

Definition commit : M unit :=
  flush ;;
  s <- get_conn ;;
  put_conn (mkSession (current s) (current s) []).

Definition rollback : M unit :=
  s <- get_conn ;; put_conn (rollback_session s).

(** A query autoflushes, then reads the transaction's store. *)
Definition query {A} (f : Store -> A) : M A :=
  flush ;; s <- get_conn ;; ret (f (current s)).

(** A statement autoflushes, then rewrites the transaction's store. *)
Definition execute (f : Store -> Store) : M unit :=
  flush ;; s <- get_conn ;;
  put_conn (mkSession (committed s) (f (current s)) (pending s)).

(** [Result.one()]. *)
Definition one {A} (rows : list A) : M A :=
  match rows with
  | [] => raise NoResultFound
  | [r] => ret r
  | _ => raise MultipleResultsFound
  end.

Definition find_object (oid : string) (db : Store) : option Object :=
  find (fun o => String.eqb (obj_id o) oid) (objects db).

(** [self.conn.get(model.Object, oid)]. *)
Definition conn_get_object (oid : string) : M (option Object) :=
  query (find_object oid).

(** [self.conn.add(obj)] for an [Object]. *)
Definition conn_add_object (o : Object) : M unit :=
  s <- get_conn ;;
  put_conn (mkSession (committed s) (current s) (pending s ++ [o])).

(** [update(Object).where(Object.id == oid).values(...).returning(Object)]. *)
Definition update_object_rows (oid : string) (modified size : Z)
    (hash : option bytes) (tbl : list Object) : list Object :=
  map (fun o => if String.eqb (obj_id o) oid
                then mkObject (obj_id o) size modified hash else o) tbl.

Definition update_object (oid : string) (modified size : Z)
    (hash : option bytes) : M (list Object) :=
  execute (fun db => set_objects db (update_object_rows oid modified size hash (objects db))) ;;
  query (fun db => filter (fun o => String.eqb (obj_id o) oid) (objects db)).

(** ** [FileManager.ensure_object] *)

Definition ensure_object (st : stat_result) (get_hash : option (unit -> bytes))
    (obj : option Object) : M (option Object) :=
  if negb (S_ISREG (st_mode st)) then ret None
  else
    let oid := oid_of st in
    obj <- (match obj with
            | Some o => if String.eqb (obj_id o) oid then ret (Some o)
                        else conn_get_object oid
            | None => conn_get_object oid
            end) ;;
    match obj with
    | None =>
        let hash := option_map (fun g => g tt) get_hash in
        let o := mkObject oid (st_size st) (st_mtime st) hash in
        conn_add_object o ;;
        when (is_some hash) commit ;;
        ret (Some o)
    | Some o =>
        if negb (obj_modified o =? st_mtime st)
           || negb (obj_size o =? st_size st)
           || is_none (obj_hash o)
        then
          let hash := option_map (fun g => g tt) get_hash in
          match hash with
          | Some h => print (Calculated (obj_id o) h)
          | None => ret tt
          end ;;
          rows <- update_object (obj_id o) (st_mtime st) (st_size st) hash ;;
          o' <- one rows ;;
          when (is_some hash) commit ;;
          ret (Some o')
        else ret (Some o)
    end.

(** ** Garbage collection ([filemanager.py], [main.py]) *)

(** A [Query.delete()]: autoflush, delete the rows whose predicate (which may
    read the whole store, as a subquery does) is true, return their number. *)
Definition execute_delete {A} (get : Store -> list A)
    (set : Store -> list A -> Store) (p : Store -> A -> option bool) : M nat :=
  flush ;;
  s <- get_conn ;;
  let db := current s in
  let r := sql_delete (p db) (get db) in
  put_conn (mkSession (committed s) (set db (fst r)) (pending s)) ;;
  ret (snd r).

(** [Object.id.not_in(select(File.object_id))]. *)
Definition object_is_dangled (db : Store) (o : Object) : option bool :=
  sql_not_in String.eqb (Some (obj_id o)) (map file_object_id (files db)).

(** [File.object_id.not_in(select(Object.id))]. *)
Definition file_lacks_object (db : Store) (f : File) : option bool :=
  sql_not_in String.eqb (file_object_id f)
    (map (fun o => Some (obj_id o)) (objects db)).

(** [File.path_id.not_in(select(Directory.id))]. *)
Definition file_lacks_directory (db : Store) (f : File) : option bool :=
  sql_not_in Z.eqb (Some (file_path_id f))
    (map (fun d => Some (dir_id d)) (directories db)).

(** [Directory.parent_id.not_in(select(Directory.id))]. *)
Definition directory_is_dangled (db : Store) (d : Directory) : option bool :=
  sql_not_in Z.eqb (dir_parent_id d)
    (map (fun d' => Some (dir_id d')) (directories db)).

Definition delete_dangled_objects : M unit :=
  flush ;;
  n <- execute_delete objects set_objects object_is_dangled ;;
  when (0 <? n)%nat (print (DeletedObjects n)).

Definition delete_dangled_files : M unit :=
  flush ;;
  n1 <- execute_delete files set_files file_lacks_object ;;
  n2 <- execute_delete files set_files file_lacks_directory ;;
  when (0 <? n1 + n2)%nat (print (DeletedFiles (n1 + n2))).

(** The [while True] loop of [delete_dangled_directories]; [fuel] bounds the
    number of passes. *)
Fixpoint dangled_directories_loop (fuel : nat) : M unit :=
  match fuel with
  | O => ret tt
  | S k =>
      n <- execute_delete directories set_directories directory_is_dangled ;;
      if (n =? 0)%nat then ret tt
      else print (DeletedDirectories n) ;; dangled_directories_loop k
  end.

(** Every pass but the last deletes a row, so one pass more than there are
    rows is enough. *)
Definition delete_dangled_directories : M unit :=
  flush ;;
  s <- get_conn ;;
  dangled_directories_loop (S (List.length (directories (current s)))).

(** The [gc] command of [main.py]. *)
Definition collect_garbage : M unit :=
  delete_dangled_directories ;;
  delete_dangled_files ;;
  delete_dangled_objects ;;
  commit.

(** ** Deleting files *)

Definition path_str (p : path) : string :=
  match p with
  | [] => "."
  | x :: r => fold_left (fun acc y => String.append acc (String.append "/" y)) r x
  end.

Definition find_directory_by_id (id : Z) (db : Store) : option Directory :=
  find (fun d => dir_id d =? id) (directories db).

(** [File.get_path]; the [directory] relationship is loaded from the
    session, and reading [.path] of a missing one is an [AttributeError]. *)
Definition get_path (file : File) : M string :=
  d <- query (find_directory_by_id (file_path_id file)) ;;
  match d with
  | None => raise AttributeError
  | Some d =>
      match dir_path d with
      | [] => ret (file_name file)
      | _ => ret (String.append (path_str (dir_path d))
                    (String.append "/" (file_name file)))
      end
  end.

Definition fs_lookup (name : string) (t : filesystem) : option fs_entry :=
  option_map snd (find (fun e => String.eqb (fst e) name) t).

Definition fs_without (name : string) (t : filesystem) : filesystem :=
  filter (fun e => negb (String.eqb (fst e) name)) t.

(** [os.remove] of a name under the base directory. *)
Definition os_remove (name : string) : M unit :=
  fun w =>
    match fs_lookup name (fs w) with
    | None => (Raise (OSError FileNotFoundError), w)
    | Some (FsRegular _) =>
        (Return tt, mkWorld (conn w) (out w) (fs_without name (fs w)))
    | Some (FsProtected _) => (Raise (OSError PermissionError), w)
    | Some FsDirectory => (Raise (OSError IsADirectoryError), w)
    end.

Definition try_except {A} (body : M A) (handler : exn -> M A) : M A :=
  fun w => match body w with
           | (Return a, w') => (Return a, w')
           | (Raise e, w') => handler e w'
           end.

Definition delete_file_row (id : Z) (db : Store) : Store :=
  set_files db (filter (fun f => negb (file_id f =? id)) (files db)).

(** [FileManager.delete_file]. *)
Definition delete_file (file : File) : M unit :=
  commit ;;
  execute (delete_file_row (file_id file)) ;;
  try_except
    (full_path <- get_path file ;; os_remove full_path)
    (fun e => match e with
              | OSError FileNotFoundError => ret tt
              | _ => rollback ;; raise e
              end) ;;
  commit.

(** A Python [dict] in insertion order. *)
Definition dict (K V : Type) := list (K * V).

Definition dict_get {V} (k : bytes) (d : dict bytes V) : option V :=
  option_map snd (find (fun e => String.eqb (fst e) k) d).

(** [FileManager.remove_duplicates]. *)
Definition remove_duplicates (duplicates : dict bytes (list File))
    (selection : dict bytes Z) : M unit :=
  for_each selection (fun sel =>
    match dict_get (fst sel) duplicates with
    | None => raise KeyError
    | Some group =>
        for_each group (fun file =>
          when (negb (file_id file =? snd sel)) (delete_file file))
    end) ;;
  delete_dangled_objects ;;
  commit.

(** ** Importing a nested index *)

Definition ascii_lower (c : ascii) : ascii :=
  let n := nat_of_ascii c in
  if ((65 <=? n) && (n <=? 90))%nat then ascii_of_nat (n + 32) else c.

(** SQLite's [LIKE]: [%] matches any run of characters, [_] any one
    character, and ASCII letters match whatever their case. *)
Fixpoint sql_like (pat s : string) : bool :=
  match pat with
  | EmptyString => match s with EmptyString => true | String _ _ => false end
  | String c pat' =>
      if Ascii.eqb c "%" then
        (fix any (t : string) : bool :=
           sql_like pat' t ||
           match t with EmptyString => false | String _ t' => any t' end) s
      else
        match s with
        | EmptyString => false
        | String d s' =>
            (Ascii.eqb c "_" || Ascii.eqb (ascii_lower c) (ascii_lower d))
            && sql_like pat' s'
        end
  end.

(** [select(Directory.id).where(Directory.path.like(f"{dirname}%"))]. *)
Definition directories_like (dirname : path) (db : Store) : list Z :=
  map dir_id
    (filter (fun d => sql_like (String.append (path_str dirname) "%")
                               (path_str (dir_path d)))
            (directories db)).

(** The [object_ids] of [import_objects]: [File.object_id] of the files
    whose [path_id] is one of those directories, [NULL]s included. *)
Definition referenced_object_ids (dirname : path) (db : Store) : list (option string) :=
  map file_object_id
    (filter (fun f => existsb (Z.eqb (file_path_id f)) (directories_like dirname db))
            (files db)).

(** [select(Object).where(Object.id.not_in(object_ids))] on the nested store. *)
Definition objects_to_import (object_ids : list (option string))
    (nested : list Object) : list Object :=
  filter (fun o => is_true (sql_not_in String.eqb (Some (obj_id o)) object_ids)) nested.

(** [FileManager.import_objects]; [nested] is the [Object] table that the
    session on the nested database reads. *)
Definition import_objects (nested : list Object) (dirname : path) : M unit :=
  flush ;;
  object_ids <- query (referenced_object_ids dirname) ;;
  let total := List.length (objects_to_import object_ids nested) in
  if (total =? 0)%nat then ret tt
  else
    print (Importing total) ;;
    for_each (objects_to_import object_ids nested) (fun obj =>
      conn_add_object
        (mkObject (obj_id obj) (obj_size obj) (obj_modified obj) (obj_hash obj))).

(** ** Finding duplicates *)

(** [ORDER BY objects.size, objects.hash]: ascending, [NULL] first, blobs
    compared byte by byte. *)
Definition hash_leb (h1 h2 : option bytes) : bool :=
  match h1, h2 with
  | None, _ => true
  | Some _, None => false
  | Some a, Some b => String.leb a b
  end.

Definition order_leb (o1 o2 : Object) : bool :=
  (obj_size o1 <? obj_size o2)
  || ((obj_size o1 =? obj_size o2) && hash_leb (obj_hash o1) (obj_hash o2)).

Fixpoint insert_sorted {A} (leb : A -> A -> bool) (x : A) (l : list A) : list A :=
  match l with
  | [] => [x]
  | y :: r => if leb x y then x :: l else y :: insert_sorted leb x r
  end.

(** A stable sort: rows with equal keys keep their order. *)
Definition sort_by {A} (leb : A -> A -> bool) (l : list A) : list A :=
  fold_right (insert_sorted leb) [] l.

(** [select(Object.size).group_by(Object.size).having(count(Object.id) > 1)]. *)
Definition size_is_shared (db : Store) (size : Z) : bool :=
  Nat.ltb 1 (List.length (filter (fun o => obj_size o =? size) (objects db))).

(** The rows of [objects JOIN files ON objects.id = files.object_id],
    restricted to shared sizes.  SQL leaves the order of rows with equal
    [(size, hash)] open; here they keep the order of the join, object by
    object and, for one object, file by file. *)
Definition joined_rows (db : Store) : list (File * Object) :=
  flat_map (fun o =>
    if size_is_shared db (obj_size o) then
      map (fun f => (f, o))
          (filter (fun f => opt_eqb String.eqb (file_object_id f) (Some (obj_id o)))
                  (files db))
    else []) (objects db).

Definition duplicate_candidates (db : Store) : list (File * Object) :=
  sort_by (fun a b => order_leb (snd a) (snd b)) (joined_rows db).

(** [duplicates[hash].append(file)], creating the entry when missing. *)
Fixpoint dict_append {V} (k : bytes) (v : V) (d : dict bytes (list V)) : dict bytes (list V) :=
  match d with
  | [] => [(k, [v])]
  | (k', vs) :: r =>
      if String.eqb k' k then (k', vs ++ [v]) :: r
      else (k', vs) :: dict_append k v r
  end.

Definition set_object_hash (oid : string) (hash : bytes) (db : Store) : Store :=
  set_objects db
    (map (fun o => if String.eqb (obj_id o) oid
                   then mkObject (obj_id o) (obj_size o) (obj_modified o) (Some hash)
                   else o) (objects db)).

Fixpoint fold_m {A S} (xs : list A) (body : S -> A -> M S) (acc : S) : M S :=
  match xs with
  | [] => ret acc
  | x :: r => acc' <- body acc x ;; fold_m r body acc'
  end.

(** *** SHA-256 (FIPS 180-4), what [hashlib.sha256] computes *)

Module SHA256.

Definition mask32 : Z := 4294967295.
Definition add32 (a b : Z) : Z := Z.land (a + b) mask32.
Definition rotr (n x : Z) : Z :=
  Z.lor (Z.shiftr x n) (Z.land (Z.shiftl x (32 - n)) mask32).
Definition xor3 (a b c : Z) : Z := Z.lxor (Z.lxor a b) c.
Definition Ch (x y z : Z) : Z :=
  Z.lxor (Z.land x y) (Z.land (Z.lxor x mask32) z).
Definition Maj (x y z : Z) : Z :=
  xor3 (Z.land x y) (Z.land x z) (Z.land y z).
Definition Sigma0 (x : Z) : Z := xor3 (rotr 2 x) (rotr 13 x) (rotr 22 x).
Definition Sigma1 (x : Z) : Z := xor3 (rotr 6 x) (rotr 11 x) (rotr 25 x).
Definition sigma0 (x : Z) : Z := xor3 (rotr 7 x) (rotr 18 x) (Z.shiftr x 3).
Definition sigma1 (x : Z) : Z := xor3 (rotr 17 x) (rotr 19 x) (Z.shiftr x 10).

Definition K : list Z :=
  [1116352408; 1899447441; 3049323471; 3921009573; 961987163; 1508970993; 2453635748; 2870763221;
   3624381080; 310598401; 607225278; 1426881987; 1925078388; 2162078206; 2614888103; 3248222580;
   3835390401; 4022224774; 264347078; 604807628; 770255983; 1249150122; 1555081692; 1996064986;
   2554220882; 2821834349; 2952996808; 3210313671; 3336571891; 3584528711; 113926993; 338241895;
   666307205; 773529912; 1294757372; 1396182291; 1695183700; 1986661051; 2177026350; 2456956037;
   2730485921; 2820302411; 3259730800; 3345764771; 3516065817; 3600352804; 4094571909; 275423344;
   430227734; 506948616; 659060556; 883997877; 958139571; 1322822218; 1537002063; 1747873779;
   1955562222; 2024104815; 2227730452; 2361852424; 2428436474; 2756734187; 3204031479; 3329325298].

Definition H0 : list Z :=
  [1779033703; 3144134277; 1013904242; 2773480762; 1359893119; 2600822924; 528734635; 1541459225].

Definition octets (s : string) : list Z :=
  map (fun c => Z.of_nat (nat_of_ascii c)) (list_ascii_of_string s).

(** Big-endian octets of [x], [n] of them. *)
Fixpoint be_octets (n : nat) (x : Z) : list Z :=
  match n with
  | O => []
  | S k => Z.land (Z.shiftr x (8 * Z.of_nat k)) 255 :: be_octets k x
  end.

Definition pad (msg : list Z) : list Z :=
  let len := Z.of_nat (List.length msg) in
  let zeros := Z.to_nat ((55 - len) mod 64) in
  msg ++ [128] ++ repeat 0 zeros ++ be_octets 8 (8 * len).

Fixpoint words (n : nat) (l : list Z) : list Z :=
  match n with
  | O => []
  | S k =>
      match l with
      | a :: b :: c :: d :: r =>
          (Z.shiftl a 24 + Z.shiftl b 16 + Z.shiftl c 8 + d) :: words k r
      | _ => []
      end
  end.

(** The message schedule, newest word first. *)
Fixpoint schedule (n : nat) (w : list Z) : list Z :=
  match n with
  | O => w
  | S k =>
      schedule k
        (add32 (add32 (sigma1 (nth 1 w 0)) (nth 6 w 0))
               (add32 (sigma0 (nth 14 w 0)) (nth 15 w 0)) :: w)
  end.

Definition round (s : list Z) (kw : Z * Z) : list Z :=
  match s with
  | [a; b; c; d; e; f; g; h] =>
      let t1 := add32 (add32 (add32 h (Sigma1 e)) (add32 (Ch e f g) (fst kw))) (snd kw) in
      let t2 := add32 (Sigma0 a) (Maj a b c) in
      [add32 t1 t2; a; b; c; add32 d t1; e; f; g]
  | _ => s
  end.

Definition compress (h : list Z) (block : list Z) : list Z :=
  let w := rev (schedule 48 (rev (words 16 block))) in
  map (fun p => add32 (fst p) (snd p))
      (combine h (fold_left round (combine K w) h)).

Fixpoint blocks (fuel : nat) (h : list Z) (l : list Z) : list Z :=
  match fuel with
  | O => h
  | S k =>
      match l with
      | [] => h
      | _ => blocks k (compress h (firstn 64 l)) (skipn 64 l)
      end
  end.

Definition sha256 (s : string) : string :=
  let m := pad (octets s) in
  string_of_list_ascii
    (map (fun z => ascii_of_nat (Z.to_nat z))
         (flat_map (be_octets 4) (blocks (List.length m) H0 m))).

Definition hex_digit (z : Z) : ascii :=
  if z <? 10 then ascii_of_nat (Z.to_nat (48 + z)) else ascii_of_nat (Z.to_nat (87 + z)).

(** [bytes.hex]. *)
Definition hex (s : string) : string :=
  string_of_list_ascii
    (flat_map (fun z => [hex_digit (z / 16); hex_digit (z mod 16)]) (octets s)).

End SHA256.

(** [hashlib.sha256(...).digest()] of the whole content; reading it in
    blocks of [BLOCK_SIZE] feeds the same bytes. *)
Definition sha256 (content : bytes) : bytes := SHA256.sha256 content.

(** [FileManager.calculate_hash], on a name under the base directory. *)
Definition calculate_hash (name : string) : M bytes :=
  fun w =>
    match fs_lookup name (fs w) with
    | None => (Raise (OSError FileNotFoundError), w)
    | Some (FsRegular c) => (Return (sha256 c), w)
    | Some (FsProtected c) => (Return (sha256 c), w)
    | Some FsDirectory => (Raise (OSError IsADirectoryError), w)
    end.

(** The body of the loop of [find_duplicates].  [obj] is the session's one
    instance for its row, so [obj.hash] reads what an earlier iteration
    stored for the same object. *)
Definition find_duplicates_step (duplicates : dict bytes (list File))
    (item : File * Object) : M (dict bytes (list File)) :=
  let file := fst item in
  row <- query (find_object (obj_id (snd item))) ;;
  match row with
  | None => raise NoResultFound
  | Some obj =>
      hash <- match obj_hash obj with
              | Some h => ret h
              | None =>
                  name <- get_path file ;;
                  h <- calculate_hash name ;;
                  execute (set_object_hash (obj_id obj) h) ;;
                  commit ;;
                  ret h
              end ;;
      ret (dict_append hash file duplicates)
  end.

(** [FileManager.find_duplicates]. *)
Definition find_duplicates : M (dict bytes (list File)) :=
  items <- query duplicate_candidates ;;
  duplicates <- fold_m items find_duplicates_step [] ;;
  ret (filter (fun kv => (1 <? List.length (snd kv))%nat) duplicates).


(** ** The scanner *)

Set Warnings "-register-all".

(** The live tree under the base directory.  An [Entry] is whatever
    [os.walk] lists among the files of its directory, with its [os.lstat];
    a [DirLink] is listed among the directories and not walked (a symbolic
    link to a directory); a [Dir] carries the [Object] table of the database
    under its own [.dupler], or [None] when opening it raises. *)
Inductive tree :=
| Entry (name : string) (st : stat_result)
| DirLink (name : string)
| Dir (name : string) (store : option (list Object)) (children : list tree).

(** What one step of [os.walk] hands to [scan_directory]. *)
Record visit := mkVisit {
  v_dirname : path;
  v_store : option (list Object);
  v_dirs : list string;
  v_files : list string;
  v_lstat : list (string * stat_result)
}.

Definition dir_names (children : list tree) : list string :=
  flat_map (fun c => match c with
                     | Entry _ _ => []
                     | DirLink n => [n]
                     | Dir n _ _ => [n]
                     end) children.

Definition file_stats (children : list tree) : list (string * stat_result) :=
  flat_map (fun c => match c with
                     | Entry n st => [(n, st)]
                     | _ => []
                     end) children.

(** [os.walk(base_dir)], top-down; [valid] is what [scan_directory] leaves
    in [dirs], which prunes the walk. *)
Fixpoint walk (valid : string -> bool) (dirname : path) (t : tree) : list visit :=
  match t with
  | Dir _ store children =>
      mkVisit dirname store (dir_names children)
              (map fst (file_stats children)) (file_stats children)
      :: flat_map (fun c => match c with
                            | Dir n _ _ =>
                                if valid n then walk valid (dirname ++ [n]) c else []
                            | _ => []
                            end) children
  | _ => []
  end.

Definition next_id (ids : list Z) : Z := 1 + fold_right Z.max 0 ids.

Definition find_directory (p : path) (db : Store) : option Directory :=
  find (fun d => path_eqb (dir_path d) p) (directories db).

(** [FileManager.get_directory]. *)
Definition get_directory (p : path) : M (option Directory) :=
  query (find_directory p).

(** [FileManager.ensure_directory]; the boolean tells a row just added.  The
    new row gets the next rowid; its path was just looked up and not found,
    so the unique constraint on [path] holds. *)
Definition ensure_directory (p : path) (parent : option Directory)
    : M (Directory * bool) :=
  dir <- get_directory p ;;
  match dir with
  | Some d => ret (d, false)
  | None =>
      s <- get_conn ;;
      let d := mkDirectory (next_id (map dir_id (directories (current s)))) p
                           (option_map dir_id parent) in
      put_conn (mkSession (committed s)
                  (set_directories (current s) (directories (current s) ++ [d]))
                  (pending s)) ;;
      ret (d, true)
  end.

Definition mem_Z (x : Z) (l : list Z) : bool := existsb (Z.eqb x) l.

(** The ids of the directories that the delete cascade reaches from [ids]
    through [Directory.children]. *)
Fixpoint subtree_ids (fuel : nat) (ids : list Z) (ds : list Directory) : list Z :=
  match fuel with
  | O => ids
  | S k =>
      let next := filter (fun d => match dir_parent_id d with
                                   | Some p => mem_Z p ids && negb (mem_Z (dir_id d) ids)
                                   | None => false
                                   end) ds in
      match next with
      | [] => ids
      | _ => subtree_ids k (ids ++ map dir_id next) ds
      end
  end.

(** [self.conn.delete(cdir)]: the row, its descendants and their files
    ([cascade="all, delete"] on [children] and [files]). *)
Definition delete_directory_cascade (id : Z) (db : Store) : Store :=
  let ids := subtree_ids (List.length (directories db)) [id] (directories db) in
  mkStore (filter (fun d => negb (mem_Z (dir_id d) ids)) (directories db))
          (filter (fun f => negb (mem_Z (file_path_id f) ids)) (files db))
          (objects db).

Fixpoint strip_prefix (p q : path) : option path :=
  match p, q with
  | [], _ => Some q
  | x :: p', y :: q' => if String.eqb x y then strip_prefix p' q' else None
  | _ :: _, [] => None
  end.

(** [os.path.relpath(cdir.path, dirname)]; [None] stands for a result that
    climbs with [..], which names no entry of a directory. *)
Definition relpath (p dirname : path) : option string :=
  option_map path_str (strip_prefix dirname p).

Definition children_of (id : Z) (db : Store) : list Directory :=
  filter (fun d => opt_eqb Z.eqb (dir_parent_id d) (Some id)) (directories db).

(** [FileManager.update_file]. *)
Definition update_file (file : File) (object_id : option string) : M File :=
  if opt_eqb String.eqb (file_object_id file) object_id then ret file
  else
    execute (fun db => set_files db
      (map (fun f => if file_id f =? file_id file
                     then mkFile (file_id f) (file_path_id f) (file_name f)
                                 (file_type f) object_id
                     else f) (files db))) ;;
    rows <- query (fun db => filter (fun f => file_id f =? file_id file) (files db)) ;;
    one rows.

Fixpoint remove_first (x : string) (l : list string) : list string :=
  match l with
  | [] => []
  | y :: r => if String.eqb y x then r else y :: remove_first x r
  end.

(** [os.lstat(os.path.join(root, name))]. *)
Definition os_lstat (entries : list (string * stat_result)) (name : string) : M stat_result :=
  match find (fun e => String.eqb (fst e) name) entries with
  | Some e => ret (snd e)
  | None => raise (OSError FileNotFoundError)
  end.

(** [select(File).where(File.path_id == dir.id).order_by(File.name)]. *)
Definition files_of_directory (id : Z) (db : Store) : list File :=
  sort_by (fun a b => String.leb (file_name a) (file_name b))
          (filter (fun f => file_path_id f =? id) (files db)).

(** [self.conn.add(file)] for a [File]: the next rowid, and the unique
    constraint on [(path_id, name)]. *)
Definition conn_add_file (path_id : Z) (name : string) (type : Z)
    (object_id : option string) : M unit :=
  flush ;;
  s <- get_conn ;;
  if existsb (fun f => (file_path_id f =? path_id) && String.eqb (file_name f) name)
             (files (current s))
  then put_conn (rollback_session s) ;; raise IntegrityError
  else
    put_conn (mkSession (committed s)
      (set_files (current s)
         (files (current s) ++
          [mkFile (next_id (map file_id (files (current s)))) path_id name type object_id]))
      (pending s)).

(** [FileManager.scan_files]. *)
Definition scan_files (entries : list (string * stat_result)) (dir : Directory)
    (files : list string) : M unit :=
  db_files <- query (files_of_directory (dir_id dir)) ;;
  files <- fold_m db_files (fun files db_file =>
    if negb (mem_str (file_name db_file) files) then
      execute (delete_file_row (file_id db_file)) ;; ret files
    else
      st <- os_lstat entries (file_name db_file) ;;
      o <- query (fun db => match file_object_id db_file with
                            | Some oid => find_object oid db
                            | None => None
                            end) ;;
      obj <- ensure_object st None o ;;
      update_file db_file (option_map obj_id obj) ;;
      ret (remove_first (file_name db_file) files)) files ;;
  for_each files (fun filename =>
    st <- os_lstat entries filename ;;
    obj <- ensure_object st None None ;;
    conn_add_file (dir_id dir) filename (st_mode st) (option_map obj_id obj)).

Section Scanner.

(** Whether a name matches one of the exclusion patterns of the settings. *)
Variable regex_ex_files : string -> bool.
Variable regex_ex_dirs : string -> bool.

Definition CONFIG_DIR : string := ".dupler".

Definition startswith_dot (name : string) : bool :=
  match name with
  | String c _ => Ascii.eqb c "."
  | EmptyString => false
  end.

(** [Config.is_valid_file], [Config.is_valid_directory]. *)
Definition is_valid_file (name : string) : bool :=
  if startswith_dot name then false
  else if regex_ex_files name then false
  else true.

Definition is_valid_directory (name : string) : bool :=
  if String.eqb name CONFIG_DIR then false
  else if startswith_dot name then false
  else if regex_ex_dirs name then false
  else true.

(** [FileManager.scan_directory]. *)
Definition scan_directory (v : visit) : M unit :=
  let dirname := v_dirname v in
  match dirname with
  | [] => ret tt
  | _ =>
      when (mem_str CONFIG_DIR (v_dirs v))
        (try_except
           match v_store v with
           | Some nested => import_objects nested dirname
           | None => raise (OSError FileNotFoundError)
           end
           (fun _ => print FailedImport))
  end ;;
  let dirs := filter is_valid_directory (v_dirs v) in
  let files := filter is_valid_file (v_files v) in
  pdir <- match dirname with
          | [] => ret None
          | _ =>
              pdir <- get_directory (removelast dirname) ;;
              match pdir with
              | None => raise AssertionError
              | Some d => ret (Some d)
              end
          end ;;
  dn <- ensure_directory dirname pdir ;;
  let dir := fst dn in
  children <- (if snd dn then ret [] else query (children_of (dir_id dir))) ;;
  for_each children (fun cdir =>
    match relpath (dir_path cdir) dirname with
    | Some pname =>
        when (negb (mem_str pname dirs))
             (execute (delete_directory_cascade (dir_id cdir)))
    | None => execute (delete_directory_cascade (dir_id cdir))
    end) ;;
  commit ;;
  match files with
  | [] => ret tt
  | _ =>
      scan_files (v_lstat v) dir (sort_by String.leb files) ;;
      commit ;;
      print (ScanFilesDone dirname)
  end.

(** [FileManager.scan]. *)
Definition scan (t : tree) : M unit :=
  for_each (walk is_valid_directory [] t) scan_directory ;;
  delete_dangled_objects ;;
  commit ;;
  print ScanDone.

End Scanner.

(** A command opens a session on the committed store and closes it when it
    returns or raises; closing drops whatever was not committed. *)
Definition open_session (db : Store) (t : filesystem) : world :=
  mkWorld (mkSession db db []) [] t.

Definition run {A} (m : M A) (db : Store) (t : filesystem) : outcome A * Store :=
  let r := m (open_session db t) in
  (fst r, committed (conn (snd r))).

(** ** The removal loop of [DeDeplicate.do_apply] ([app/dedup.py])

    The interactive screen's own way of applying a selection: each
    [delete_file] sits in a [try], and what it raises is appended to
    [errors].  The bookkeeping of the widgets after the loop is left out. *)
Definition do_apply_removals (duplicates : dict bytes (list File))
    (selection : dict bytes Z) : M (list exn) :=
  fold_m selection (fun errors sel =>
    match dict_get (fst sel) duplicates with
    | None => raise KeyError
    | Some group =>
        fold_m group (fun errors file =>
          if negb (file_id file =? snd sel) then
            try_except (delete_file file ;; ret errors)
                       (fun e => ret (errors ++ [e]))
          else ret errors) errors
    end) [].

(** ** What each stage of the garbage collection leaves *)

Definition directories_pass (db : Store) : Store :=
  set_directories db (fst (sql_delete (directory_is_dangled db) (directories db))).

Definition dangled_directories (db : Store) : nat :=
  snd (sql_delete (directory_is_dangled db) (directories db)).

Fixpoint directories_passes (fuel : nat) (db : Store) : Store :=
  match fuel with
  | O => db
  | S k =>
      if (dangled_directories db =? 0)%nat then directories_pass db
      else directories_passes k (directories_pass db)
  end.

Definition without_dangled_directories (db : Store) : Store :=
  directories_passes (S (List.length (directories db))) db.

Definition without_dangled_files (db : Store) : Store :=
  let db1 := set_files db (fst (sql_delete (file_lacks_object db) (files db))) in
  set_files db1 (fst (sql_delete (file_lacks_directory db1) (files db1))).

Definition without_dangled_objects (db : Store) : Store :=
  set_objects db (fst (sql_delete (object_is_dangled db) (objects db))).

(** The order of the three stages as the specification words it: objects,
    then files, then directories. *)
Definition collect_garbage_as_specified : M unit :=
  delete_dangled_objects ;;
  delete_dangled_files ;;
  delete_dangled_directories ;;
  commit.

(** ** Sample data *)

Definition S_IFREG_644 : Z := 33188.
Definition S_IFLNK_777 : Z := 41471.

(** A root directory, and one file row whose directory is gone and whose
    object nothing else refers to. *)
Definition orphan_store : Store :=
  mkStore [mkDirectory 1 [] None]
          [mkFile 1 9 "a" S_IFREG_644 (Some "1:7"%string)]
          [mkObject "1:7" 4 10 None].

(** What [File.get_path] returns for a row, read off a store. *)
Definition file_path_in (db : Store) (file : File) : option string :=
  match find_directory_by_id (file_path_id file) db with
  | None => None
  | Some d =>
      match dir_path d with
      | [] => Some (file_name file)
      | _ => Some (String.append (path_str (dir_path d))
                     (String.append "/" (file_name file)))
      end
  end.

(** Three files of one content in the root directory; the second is in a
    directory that does not let go of it. *)
Definition triple_store : Store :=
  mkStore [mkDirectory 1 [] None]
          [mkFile 1 1 "a" S_IFREG_644 (Some "1:7"%string);
           mkFile 2 1 "b" S_IFREG_644 (Some "1:8"%string);
           mkFile 3 1 "c" S_IFREG_644 (Some "1:9"%string)]
          [mkObject "1:7" 1 10 (Some (sha256 "x"%string));
           mkObject "1:8" 1 10 (Some (sha256 "x"%string));
           mkObject "1:9" 1 10 (Some (sha256 "x"%string))].

Definition triple_files : filesystem :=
  [("a", FsRegular "x"); ("b", FsProtected "x"); ("c", FsRegular "x")]%string.

Definition triple_duplicates : dict bytes (list File) :=
  [(sha256 "x"%string, files triple_store)].

(** Keep the first of the three. *)
Definition triple_selection : dict bytes Z := [(sha256 "x"%string, 1)].

(** An index whose directory [vol] holds one symbolic link, and a nested
    index under [vol] that knows one object. *)
Definition link_store : Store :=
  mkStore [mkDirectory 1 [] None; mkDirectory 2 ["vol"%string] (Some 1)]
          [mkFile 1 2 "s" S_IFLNK_777 None]
          [].

Definition nested_objects : list Object :=
  [mkObject "1:100" 5 9 (Some (sha256 "hello"%string))].

(** The test of [ensure_object] on a stored object: a changed stat, or no
    hash yet. *)
Definition stat_changed (o : Object) (st : stat_result) : bool :=
  negb (obj_modified o =? st_mtime st) || negb (obj_size o =? st_size st).

(** One regular file in the root directory, scanned and not yet hashed. *)
Definition fresh_store : Store :=
  mkStore [mkDirectory 1 [] None]
          [mkFile 1 1 "a" S_IFREG_644 (Some "1:7"%string)]
          [mkObject "1:7" 1 10 None].

Definition fresh_stat : stat_result := mkStat S_IFREG_644 1 7 1 10.

(** The four files of the grouping example: [A] and [B] hold ["x"], [C]
    holds ["y"], [D] holds ["xx"]; each has its own object, whose hash is
    stored already or not. *)
Definition stored_hash (stored : bool) (content : bytes) : option bytes :=
  if stored then Some (sha256 content) else None.

Definition file_A : File := mkFile 1 1 "A" S_IFREG_644 (Some "1:11"%string).
Definition file_B : File := mkFile 2 1 "B" S_IFREG_644 (Some "1:12"%string).
Definition file_C : File := mkFile 3 1 "C" S_IFREG_644 (Some "1:13"%string).
Definition file_D : File := mkFile 4 1 "D" S_IFREG_644 (Some "1:14"%string).

Definition quad_store (hA hB hC hD : bool) : Store :=
  mkStore [mkDirectory 1 [] None]
          [file_A; file_B; file_C; file_D]
          [mkObject "1:11" 1 10 (stored_hash hA "x");
           mkObject "1:12" 1 10 (stored_hash hB "x");
           mkObject "1:13" 1 10 (stored_hash hC "y");
           mkObject "1:14" 2 10 (stored_hash hD "xx")].

Definition quad_files : filesystem :=
  [("A", FsRegular "x"); ("B", FsRegular "x");
   ("C", FsRegular "y"); ("D", FsRegular "xx")]%string.

(** ** The order that the specification gives to duplicates *)

Fixpoint is_sorted {A} (leb : A -> A -> bool) (l : list A) : bool :=
  match l with
  | x :: r =>
      match r with
      | y :: _ => leb x y && is_sorted leb r
      | [] => true
      end
  | [] => true
  end.

(** The size of a group's content, read from the object of its first
    member. *)
Definition group_size (db : Store) (g : bytes * list File) : Z :=
  match snd g with
  | f :: _ =>
      match file_object_id f with
      | Some oid =>
          match find_object oid db with
          | Some o => obj_size o
          | None => 0
          end
      | None => 0
      end
  | [] => 0
  end.

(** Groups by [(size, hash)]. *)
Definition group_leb (db : Store) (g1 g2 : bytes * list File) : bool :=
  (group_size db g1 <? group_size db g2)
  || ((group_size db g1 =? group_size db g2) && String.leb (fst g1) (fst g2)).

Definition directory_path_str (db : Store) (f : File) : string :=
  match find_directory_by_id (file_path_id f) db with
  | Some d => path_str (dir_path d)
  | None => EmptyString
  end.

(** Members by directory path, then name. *)
Definition member_leb (db : Store) (f1 f2 : File) : bool :=
  String.ltb (directory_path_str db f1) (directory_path_str db f2)
  || (String.eqb (directory_path_str db f1) (directory_path_str db f2)
      && String.leb (file_name f1) (file_name f2)).

(** Two pairs of duplicates in the directories [b] and [a]: the pair holding
    ["y"] is not hashed yet, the pair holding ["x"] is. *)
Definition mixed_store : Store :=
  mkStore [mkDirectory 1 [] None;
           mkDirectory 2 ["a"%string] (Some 1);
           mkDirectory 3 ["b"%string] (Some 1)]
          [mkFile 1 3 "f" S_IFREG_644 (Some "1:1"%string);
           mkFile 2 2 "f" S_IFREG_644 (Some "1:2"%string);
           mkFile 3 3 "g" S_IFREG_644 (Some "1:3"%string);
           mkFile 4 2 "g" S_IFREG_644 (Some "1:4"%string)]
          [mkObject "1:1" 1 10 None;
           mkObject "1:2" 1 10 None;
           mkObject "1:3" 1 10 (Some (sha256 "x"));
           mkObject "1:4" 1 10 (Some (sha256 "x"))].

Definition mixed_files : filesystem :=
  [("b/f", FsRegular "y"); ("a/f", FsRegular "y");
   ("b/g", FsRegular "x"); ("a/g", FsRegular "x")]%string.

(** ** The grouping of [find_duplicates], on the rows of the query *)

(** The hash that the row of an object holds in a store. *)
Definition hash_in (db : Store) (ob : Object) : bytes :=
  match find_object (obj_id ob) db with
  | Some row =>
      match obj_hash row with
      | Some h => h
      | None => EmptyString
      end
  | None => EmptyString
  end.

(** Grouping rows by a key, as the loop of [find_duplicates] does, keeping
    each file together with its object. *)
Definition group_rows_by (key : File * Object -> bytes) (items : list (File * Object))
    : dict bytes (list (File * Object)) :=
  fold_left (fun d it => dict_append (key it) it d) items [].

Definition group_files (g : bytes * list (File * Object)) : bytes * list File :=
  (fst g, map fst (snd g)).

Definition group_first (g : bytes * list (File * Object)) : File * Object :=
  hd (mkFile 0 0 EmptyString 0 None, mkObject EmptyString 0 0 None) (snd g).

(** Rows compared as the query's [ORDER BY] compares them. *)
Definition row_leb (a b : File * Object) : bool := order_leb (snd a) (snd b).

(** The order [(size, hash)] in words: a smaller size first; among equal
    sizes a null hash first, then the hashes byte by byte. *)
Definition hash_le (h1 h2 : option bytes) : Prop :=
  match h1, h2 with
  | None, _ => True
  | Some _, None => False
  | Some a, Some b => String.compare a b <> Gt
  end.

Definition size_hash_le (a b : File * Object) : Prop :=
  obj_size (snd a) < obj_size (snd b)
  \/ (obj_size (snd a) = obj_size (snd b)
      /\ hash_le (obj_hash (snd a)) (obj_hash (snd b))).

(** The rows of a key, in the order of the query. *)
Definition rows_with (key : File * Object -> bytes) (k : bytes)
    (rows : list (File * Object)) : list (File * Object) :=
  filter (fun it => String.eqb (key it) k) rows.

(** What the grouping loop has built once it has gone through [done]. *)
Definition grouped (key : File * Object -> bytes)
    (d : dict bytes (list (File * Object))) (done : list (File * Object)) : Prop :=
  NoDup (map fst d)
  /\ (forall g, In g d -> snd g = rows_with key (fst g) done)
  /\ (forall it, In it done -> In (key it) (map fst d)).

(** ** Where the hashes of a store come from *)

(** The objects of the nested stores that a scan imports. *)
Definition imported_objects (visits : list visit) : list Object :=
  flat_map (fun v =>
    match v_dirname v, v_store v with
    | _ :: _, Some nested => if mem_str CONFIG_DIR (v_dirs v) then nested else []
    | _, _ => []
    end) visits.

(** An object has no hash, or the hash that [known] records for its
    identity. *)
Definition hash_known (known : list Object) (o : Object) : Prop :=
  obj_hash o = None
  \/ exists k, In k known /\ obj_id k = obj_id o /\ obj_hash k = obj_hash o.

Definition session_known (known : list Object) (w : world) : Prop :=
  Forall (hash_known known) (objects (committed (conn w)))
  /\ Forall (hash_known known) (objects (current (conn w)))
  /\ Forall (hash_known known) (pending (conn w)).

(** A computation keeps the hashes of the session within [known]. *)
Definition keeps_known (known : list Object) {A} (m : M A) : Prop :=
  forall w, session_known known w -> session_known known (snd (m w)).

(** What the claim of hash laziness says of the stores before and after. *)
Definition hashes_kept (before after : Store) : Prop :=
  forall o, In o (objects after) ->
    obj_hash o = None
    \/ exists o0, In o0 (objects before)
                  /\ obj_id o0 = obj_id o /\ obj_hash o0 = obj_hash o.

Definition no_exclusions (name : string) : bool := false.

Definition regular (ino size mtime : Z) : stat_result :=
  mkStat S_IFREG_644 1 ino size mtime.

Definition symlink (ino : Z) : stat_result := mkStat S_IFLNK_777 1 ino 3 0.

(** A volume that was indexed on its own, now under the base directory: its
    index already holds the hash of [f]. *)
Definition volume_tree : tree :=
  Dir "" None
    [Dir "vol" (Some [mkObject "1:7" 4 10 (Some (sha256 "data"))])
       [Dir ".dupler" None []; Entry "f" (regular 7 4 10)]].

(** The base directory as an earlier scan saw it: a symbolic link, and a
    directory [vol] with a regular file and a symbolic link. *)
Definition old_tree : tree :=
  Dir "" None
    [Entry "lnk" (symlink 2);
     Dir "vol" None [Entry "f" (regular 7 4 10); Entry "s" (symlink 3)]].

(** The base directory now: the link under [vol] is gone, and [vol] has an
    index of its own, which knows an object that no file of the tree has. *)
Definition new_tree : tree :=
  Dir "" None
    [Entry "lnk" (symlink 2);
     Dir "vol" (Some nested_objects)
       [Dir ".dupler" None []; Entry "f" (regular 7 4 10)]].

(** A world whose session has nothing left to flush: [db0] is committed,
    [db] is what the transaction sees. *)
Definition clean (db0 db : Store) (o : list console_line) (t : filesystem) : world :=
  mkWorld (mkSession db0 db []) o t.

Definition is_nil {A} (l : list A) : bool :=
  match l with [] => true | _ :: _ => false end.

(** Whether some file row refers to an object. *)
Definition is_referenced (db : Store) (o : Object) : bool :=
  existsb (fun f => opt_eqb String.eqb (file_object_id f) (Some (obj_id o))) (files db).

(** Whether some file row has no object. *)
Definition has_null_reference (db : Store) : bool :=
  existsb (fun f => is_none (file_object_id f)) (files db).

(** A store with a symbolic link and two objects, one of them unreferenced. *)
Definition poisoned_store : Store :=
  mkStore [mkDirectory 1 [] None]
          [mkFile 1 1 "lnk" S_IFLNK_777 None;
           mkFile 2 1 "a" S_IFREG_644 (Some "1:7"%string)]
          [mkObject "1:7" 1 10 None; mkObject "1:8" 1 10 None].

(** The same without the link. *)
Definition unpoisoned_store : Store :=
  mkStore [mkDirectory 1 [] None]
          [mkFile 2 1 "a" S_IFREG_644 (Some "1:7"%string)]
          [mkObject "1:7" 1 10 None; mkObject "1:8" 1 10 None].

Definition dir_ids (db : Store) : list Z := map dir_id (directories db).
Definition object_ids (db : Store) : list string := map obj_id (objects db).

(** What [delete_dangled_files] keeps: the rows whose directory is there and
    whose object is there; a null [object_id] passes unless the [Object]
    table is empty. *)
Definition file_is_kept (db : Store) (f : File) : bool :=
  match file_object_id f with
  | Some oid => has_object oid (objects db)
  | None => negb (is_nil (objects db))
  end
  && mem_Z (file_path_id f) (dir_ids db).

(** No row of the store refers to a row that is not there; objects without
    files are gone too, unless a null [object_id] shields them; and a null
    [object_id] is only there beside some object. *)
Definition no_dangling (db : Store) : Prop :=
  (forall d p, In d (directories db) -> dir_parent_id d = Some p -> In p (dir_ids db))
  /\ (forall f, In f (files db) -> In (file_path_id f) (dir_ids db))
  /\ (forall f oid, In f (files db) -> file_object_id f = Some oid ->
                    In oid (object_ids db))
  /\ (has_null_reference db = false ->
      forall o, In o (objects db) -> is_referenced db o = true)
  /\ (has_null_reference db = true -> objects db <> []).

(** The same, as a check that computes. *)
Definition no_dangling_check_b (db : Store) : bool :=
  forallb (fun d => match dir_parent_id d with
                    | Some p => mem_Z p (dir_ids db)
                    | None => true
                    end) (directories db)
  && forallb (fun f => mem_Z (file_path_id f) (dir_ids db)) (files db)
  && forallb (fun f => match file_object_id f with
                       | Some oid => has_object oid (objects db)
                       | None => true
                       end) (files db)
  && (has_null_reference db || forallb (is_referenced db) (objects db))
  && (negb (has_null_reference db) || negb (is_nil (objects db))).

(** A session in the middle of a scan: one object waits for the flush. *)
Definition busy_world : world :=
  mkWorld (mkSession link_store link_store [mkObject "9:9" 4 2 None]) [] [].

(** [FileManager.delete_directory]: a bulk [DELETE] by path; it does not go
    through the session's delete cascade. *)
Definition delete_directory (dirname : path) : M unit :=
  execute_delete directories set_directories
    (fun _ d => Some (path_eqb (dir_path d) dirname)) ;;
  ret tt.

(** Whether a character occurs in a string. *)
Fixpoint has_char (c : ascii) (s : string) : bool :=
  match s with
  | EmptyString => false
  | String a r => Ascii.eqb a c || has_char c r
  end.

(** ** [FileManager.find_files] *)

(** [skey = key if "%" in key else f"%{key}%"]. *)
Definition like_key (key : string) : string :=
  if has_char "%" key then key
  else String.append "%" (String.append key "%").

(** The rows of [files JOIN objects JOIN directories], on the foreign keys
    [File.object_id] and [File.path_id], whose file name is [LIKE] the key. *)
Definition found_rows (skey : string) (db : Store) : list (File * Object * Directory) :=
  flat_map (fun f =>
    flat_map (fun o =>
      map (fun d => (f, o, d))
          (filter (fun d => dir_id d =? file_path_id f) (directories db)))
      (filter (fun o => opt_eqb String.eqb (file_object_id f) (Some (obj_id o)))
              (objects db)))
    (filter (fun f => sql_like skey (file_name f)) (files db)).

(** [order_by(Directory.path, File.name)]. *)
Definition found_leb (r1 r2 : File * Object * Directory) : bool :=
  let '(f1, _, d1) := r1 in
  let '(f2, _, d2) := r2 in
  String.ltb (path_str (dir_path d1)) (path_str (dir_path d2))
  || (String.eqb (path_str (dir_path d1)) (path_str (dir_path d2))
      && String.leb (file_name f1) (file_name f2)).

(** What the generator yields for a row: name, directory path, object size. *)
Definition found_item (r : File * Object * Directory) : string * string * Z :=
  let '(f, o, d) := r in (file_name f, path_str (dir_path d), obj_size o).

Definition find_files (key : string) : M (list (string * string * Z)) :=
  rows <- query (fun db => sort_by found_leb (found_rows (like_key key) db)) ;;
  ret (map found_item rows).

(** The order of the listing, on what is yielded. *)
Definition item_le (a b : string * string * Z) : Prop :=
  let '(n1, p1, _) := a in
  let '(n2, p2, _) := b in
  String.ltb p1 p2 = true \/ (p1 = p2 /\ String.leb n1 n2 = true).

(** ** What a selection asks to remove *)

(** The files [remove_duplicates] passes to [delete_file]: in every selected
    group, the files whose id is not the selected one. *)
Definition removal_targets (duplicates : dict bytes (list File))
    (selection : dict bytes Z) : list File :=
  flat_map (fun sel =>
    match dict_get (fst sel) duplicates with
    | Some group => filter (fun file => negb (file_id file =? snd sel)) group
    | None => []
    end) selection.

(** The later store has the directories of the earlier one, no file row the
    earlier one lacks, and every file row of it whose id is not in [ids]. *)
Definition shrinks (ids : list Z) (db db' : Store) : Prop :=
  directories db' = directories db
  /\ (forall f, In f (files db') -> In f (files db))
  /\ (forall f, In f (files db) -> ~ In (file_id f) ids -> In f (files db')).

(** No file row has an id in [ids]. *)
Definition gone (ids : list Z) (db : Store) : Prop :=
  forall f, In f (files db) -> ~ In (file_id f) ids.

(** The later file system differs from the earlier one at most at [names]. *)
Definition unlinks (names : list (option string)) (t t' : filesystem) : Prop :=
  forall name, ~ In (Some name) names -> fs_lookup name t' = fs_lookup name t.

(** ** What [find_duplicates] may change *)

(** The same row, but for a hash that was null and is now filled in. *)
Definition same_but_hash (o o' : Object) : Prop :=
  obj_id o' = obj_id o /\ obj_size o' = obj_size o
  /\ obj_modified o' = obj_modified o
  /\ (obj_hash o <> None -> obj_hash o' = obj_hash o).

(** The later store has the directories and files of the earlier one, and
    its objects row by row, some null hashes filled in. *)
Definition fills_hashes (db db' : Store) : Prop :=
  directories db' = directories db
  /\ files db' = files db
  /\ Forall2 same_but_hash (objects db) (objects db').

(** An index that already holds the object of a nested index, with no file
    for it. *)
Definition stale_store : Store :=
  mkStore [mkDirectory 1 [] None] [] nested_objects.

(** A tree with a hidden directory, the index directory and an excluded one. *)
Definition pruned_tree : tree :=
  Dir "" None
    [Dir ".git" None [Entry "x" (regular 1 1 1)];
     Dir ".dupler" None [];
     Dir "tmp" None [Dir "deep" None []];
     Dir "src" None [Dir "lib" None []; Entry "y" (regular 2 1 1)]].

Definition excludes_tmp (name : string) : bool := String.eqb name "tmp".

(** ** The exclusion patterns ([config.py]) *)

Module Config.
Section Patterns.

(** [fnmatch pat name]: the regular expression [fnmatch.translate(pat)]
    matches [name], all of it. *)
Variable fnmatch : string -> string -> bool.

(** A compiled pattern, known by the patterns it was compiled from. *)
Definition Pattern := list string.

(** [Config.regex_for_patterns]. *)
Definition regex_for_patterns (patterns : list string) : Pattern := patterns.

(** [Pattern.match] for ["^(" + "|".join(regexs) + ")$"].  Without patterns
    the expression is ["^()$"], which matches the empty name and, [$] being
    what it is, a lone newline. *)
Definition re_match (re : Pattern) (name : string) : bool :=
  match re with
  | [] => String.eqb name "" || String.eqb name (String "010" "")
  | _ => existsb (fun pat => fnmatch pat name) re
  end.

(** [Settings] and the two caches of [Config]. *)
Record Config := mkConfig {
  exclude_files : list string;
  exclude_directories : list string;
  ex_files : option Pattern;
  ex_dirs : option Pattern
}.

(** [Config.__init__], from the settings read. *)
Definition init (files dirs : list string) : Config := mkConfig files dirs None None.

Definition regex_ex_files (c : Config) : Pattern * Config :=
  match ex_files c with
  | Some re => (re, c)
  | None =>
      let re := regex_for_patterns (exclude_files c) in
      (re, mkConfig (exclude_files c) (exclude_directories c) (Some re) (ex_dirs c))
  end.

Definition regex_ex_dirs (c : Config) : Pattern * Config :=
  match ex_dirs c with
  | Some re => (re, c)
  | None =>
      let re := regex_for_patterns (exclude_directories c) in
      (re, mkConfig (exclude_files c) (exclude_directories c) (ex_files c) (Some re))
  end.

Definition add_exclude_file (pattern : string) (c : Config) : Config :=
  mkConfig (exclude_files c ++ [pattern]) (exclude_directories c) None (ex_dirs c).

(** [list.remove] takes out the first occurrence; [None] is its
    [ValueError], which leaves the configuration as it was. *)
Definition remove_exclude_file (pattern : string) (c : Config) : option Config :=
  if mem_str pattern (exclude_files c)
  then Some (mkConfig (remove_first pattern (exclude_files c))
                      (exclude_directories c) None (ex_dirs c))
  else None.

Definition add_exclude_dir (pattern : string) (c : Config) : Config :=
  mkConfig (exclude_files c) (exclude_directories c ++ [pattern]) (ex_files c) None.

Definition remove_exclude_dir (pattern : string) (c : Config) : option Config :=
  if mem_str pattern (exclude_directories c)
  then Some (mkConfig (exclude_files c)
                      (remove_first pattern (exclude_directories c))
                      (ex_files c) None)
  else None.

Definition is_valid_file (name : string) (c : Config) : bool * Config :=
  if startswith_dot name then (false, c)
  else
    let (re, c') := regex_ex_files c in
    if re_match re name then (false, c') else (true, c').

Definition is_valid_directory (name : string) (c : Config) : bool * Config :=
  if String.eqb name CONFIG_DIR then (false, c)
  else if startswith_dot name then (false, c)
  else
    let (re, c') := regex_ex_dirs c in
    if re_match re name then (false, c') else (true, c').

(** What a caller may do with a configuration. *)
Inductive call :=
| AddFile (pattern : string)
| RemoveFile (pattern : string)
| AddDir (pattern : string)
| RemoveDir (pattern : string)
| TestFile (name : string)
| TestDir (name : string).

(** The configuration after a call; a call that raises changes nothing. *)
Definition after (c : Config) (x : call) : Config :=
  match x with
  | AddFile p => add_exclude_file p c
  | RemoveFile p => match remove_exclude_file p c with Some c' => c' | None => c end
  | AddDir p => add_exclude_dir p c
  | RemoveDir p => match remove_exclude_dir p c with Some c' => c' | None => c end
  | TestFile n => snd (is_valid_file n c)
  | TestDir n => snd (is_valid_directory n c)
  end.

(** A cache is empty or holds the expression of the current patterns. *)
Definition coherent (c : Config) : Prop :=
  (ex_files c = None \/ ex_files c = Some (regex_for_patterns (exclude_files c)))
  /\ (ex_dirs c = None
      \/ ex_dirs c = Some (regex_for_patterns (exclude_directories c))).

End Patterns.

Section Instance.

(** Absolute directories are lists of components from the root, [[]] being
    ["/"].  [has_config dir]: [dir/.dupler] is a directory;  [loads dir]:
    [Config(dir)] returns instead of raising. *)
Variable has_config : path -> bool.
Variable loads : path -> bool.

(** The loop of [create_config] in [get_instance]; [None] is its
    [NoConfigError]. *)
Fixpoint create_config_loop (fuel : nat) (base_dir : path) : option path :=
  match fuel with
  | O => None
  | S k =>
      if has_config base_dir && loads base_dir then Some base_dir
      else if is_nil base_dir then None
      else create_config_loop k (removelast base_dir)
  end.

(** Every turn but the last drops a component. *)
Definition create_config (curdir : path) : option path :=
  create_config_loop (S (List.length curdir)) curdir.

End Instance.
End Config.

(** A stand-in for [fnmatch]: a pattern matches the names it is a prefix of. *)
Definition prefix_match (pat name : string) : bool := String.prefix pat name.

(** ** What [scan_files] does to the [File] table *)

(** The [File] table that the transaction of a world sees. *)
Definition file_table (w : world) : list File := files (current (conn w)).

(** Id, directory and name of a row. *)
Definition file_key (f : File) : Z * Z * string :=
  (file_id f, file_path_id f, file_name f).


(** A computation that, when it returns, has left the [File] table alone. *)
Definition keeps_files {A} (m : M A) : Prop :=
  forall w a w', m w = (Return a, w') -> file_table w' = file_table w.

(** What the first loop of [scan_files] keeps true.  [rest] are the rows of
    the directory it has not come to yet, [tbl] is the table, [todo] the
    names it still carries, [wanted] the names it was given. *)
Definition scanning (id : Z) (wanted : list string)
    (rest : list File) (tbl : list File) (todo : list string) : Prop :=
  NoDup (map file_id tbl)
  /\ NoDup (map file_id rest)
  /\ (forall s, In s rest -> In (file_id s, id, file_name s) (map file_key tbl))
  /\ (forall i n, In (i, id, n) (map file_key tbl) ->
        (exists s, In s rest /\ file_id s = i) \/ In n wanted)
  /\ (forall n, In n wanted ->
        In n todo
        \/ exists i, In (i, id, n) (map file_key tbl)
                     /\ ~ exists s, In s rest /\ file_id s = i)
  /\ (forall n, In n todo -> In n wanted).


(** The rows that a table has for the other directories. *)
Definition rows_elsewhere (id : Z) (tbl : list File) : list File :=
  filter (fun f => negb (file_path_id f =? id)) tbl.

(** Two pairs of duplicates of different sizes; of the larger pair one hash
    is stored, of the smaller pair none is. *)
Definition sized_store : Store :=
  mkStore [mkDirectory 1 [] None]
          [mkFile 1 1 "p" S_IFREG_644 (Some "1:1"%string);
           mkFile 2 1 "q" S_IFREG_644 (Some "1:2"%string);
           mkFile 3 1 "r" S_IFREG_644 (Some "1:3"%string);
           mkFile 4 1 "s" S_IFREG_644 (Some "1:4"%string)]
          [mkObject "1:1" 2 10 None;
           mkObject "1:2" 2 10 (Some (sha256 "xx"));
           mkObject "1:3" 1 10 None;
           mkObject "1:4" 1 10 None].

Definition sized_files : filesystem :=
  [("p", FsRegular "xx"); ("q", FsRegular "xx");
   ("r", FsRegular "y"); ("s", FsRegular "y")]%string.

(** ** The stages of the garbage collection, in the specification's words *)

(** A node whose [parent_id] references a node that is not there. *)
Definition references_missing_parent (db : Store) (d : Directory) : bool :=
  match dir_parent_id d with
  | Some p => negb (mem_Z p (dir_ids db))
  | None => false
  end.

(** Repeatedly delete such nodes, until a pass deletes zero rows. *)
Fixpoint delete_orphan_directories (fuel : nat) (db : Store) : Store :=
  match fuel with
  | O => db
  | S k =>
      match filter (references_missing_parent db) (directories db) with
      | [] => db
      | _ :: _ =>
          delete_orphan_directories k
            (set_directories db
               (filter (fun d => negb (references_missing_parent db d))
                       (directories db)))
      end
  end.

(** A file row that references an object that is not there. *)
Definition references_missing_object (db : Store) (f : File) : bool :=
  match file_object_id f with
  | Some oid => negb (mem_str oid (object_ids db))
  | None => false
  end.

(** A file row whose directory no longer exists. *)
Definition directory_is_missing (db : Store) (f : File) : bool :=
  negb (mem_Z (file_path_id f) (dir_ids db)).

Definition delete_dangling_files (db : Store) : Store :=
  set_files db
    (filter (fun f => negb (references_missing_object db f)
                      && negb (directory_is_missing db f)) (files db)).

(** Delete the objects with no referencing file. *)
Definition delete_unreferenced_objects (db : Store) : Store :=
  set_objects db (filter (is_referenced db) (objects db)).

(** An index after partial deletions: directory 3 has lost its parent,
    directory 4 hangs below it with a file, and one object has no file. *)
Definition chain_store : Store :=
  mkStore [mkDirectory 1 [] None;
           mkDirectory 3 ["a"; "b"]%string (Some 2);
           mkDirectory 4 ["a"; "b"; "c"]%string (Some 3)]
          [mkFile 1 4 "f" S_IFREG_644 (Some "1:7"%string);
           mkFile 2 1 "g" S_IFREG_644 (Some "1:8"%string)]
          [mkObject "1:7" 4 10 None; mkObject "1:8" 5 10 None;
           mkObject "1:9" 6 10 None].

(** * Properties *)

(** ** The monad and the session *)

Lemma bind_return {A B} (m : M A) (k : A -> M B) w a w' :
  m w = (Return a, w') -> bind m k w = k a w'.
Proof. intros H. unfold bind. rewrite H. reflexivity. Qed.

Lemma bind_raise {A B} (m : M A) (k : A -> M B) w e w' :
  m w = (Raise e, w') -> bind m k w = (Raise e, w').
Proof. intros H. unfold bind. rewrite H. reflexivity. Qed.

Lemma store_eta db : mkStore (directories db) (files db) (objects db) = db.
Proof. destruct db; reflexivity. Qed.

Lemma flush_clean db0 db o t :
  flush (clean db0 db o t) = (Return tt, clean db0 db o t).
Proof.
  unfold flush, clean, bind, get_conn, put_conn, set_objects; simpl.
  rewrite store_eta. reflexivity.
Qed.

Lemma commit_clean db0 db o t :
  commit (clean db0 db o t) = (Return tt, clean db db o t).
Proof.
  unfold commit. rewrite (bind_return _ _ _ _ _ (flush_clean db0 db o t)).
  reflexivity.
Qed.

Lemma query_clean {A} (f : Store -> A) db0 db o t :
  query f (clean db0 db o t) = (Return (f db), clean db0 db o t).
Proof.
  unfold query. rewrite (bind_return _ _ _ _ _ (flush_clean db0 db o t)).
  reflexivity.
Qed.

Lemma execute_clean (f : Store -> Store) db0 db o t :
  execute f (clean db0 db o t) = (Return tt, clean db0 (f db) o t).
Proof.
  unfold execute. rewrite (bind_return _ _ _ _ _ (flush_clean db0 db o t)).
  reflexivity.
Qed.

Lemma execute_delete_clean {A} get set (p : Store -> A -> option bool) db0 db o t :
  execute_delete get set p (clean db0 db o t)
  = (Return (snd (sql_delete (p db) (get db))),
     clean db0 (set db (fst (sql_delete (p db) (get db)))) o t).
Proof.
  unfold execute_delete. rewrite (bind_return _ _ _ _ _ (flush_clean db0 db o t)).
  reflexivity.
Qed.

(** ** Garbage collection *)

Lemma delete_dangled_objects_clean db0 db o t :
  exists o', delete_dangled_objects (clean db0 db o t)
             = (Return tt, clean db0 (without_dangled_objects db) o' t).
Proof.
  unfold delete_dangled_objects.
  rewrite (bind_return _ _ _ _ _ (flush_clean _ _ _ _)).
  rewrite (bind_return _ _ _ _ _ (execute_delete_clean _ _ _ _ _ _ _)).
  unfold when, without_dangled_objects.
  destruct (0 <? _)%nat; eexists; reflexivity.
Qed.

Lemma delete_dangled_files_clean db0 db o t :
  exists o', delete_dangled_files (clean db0 db o t)
             = (Return tt, clean db0 (without_dangled_files db) o' t).
Proof.
  unfold delete_dangled_files.
  rewrite (bind_return _ _ _ _ _ (flush_clean _ _ _ _)).
  rewrite (bind_return _ _ _ _ _ (execute_delete_clean _ _ _ _ _ _ _)).
  rewrite (bind_return _ _ _ _ _ (execute_delete_clean _ _ _ _ _ _ _)).
  unfold when, without_dangled_files.
  destruct (0 <? _)%nat; eexists; reflexivity.
Qed.

Lemma dangled_directories_loop_clean fuel : forall db0 db o t,
  exists o', dangled_directories_loop fuel (clean db0 db o t)
             = (Return tt, clean db0 (directories_passes fuel db) o' t).
Proof.
  induction fuel as [|k IH]; intros db0 db o t.
  - exists o. reflexivity.
  - cbn [dangled_directories_loop directories_passes].
    rewrite (bind_return _ _ _ _ _ (execute_delete_clean _ _ _ _ _ _ _)).
    fold (dangled_directories db). fold (directories_pass db).
    destruct (dangled_directories db =? 0)%nat.
    + exists o. reflexivity.
    + destruct (IH db0 (directories_pass db)
                  (o ++ [DeletedDirectories (dangled_directories db)]) t) as [o' E].
      exists o'. unfold bind at 1. unfold print at 1. cbn [conn out fs].
      exact E.
Qed.

Lemma delete_dangled_directories_clean db0 db o t :
  exists o', delete_dangled_directories (clean db0 db o t)
             = (Return tt, clean db0 (without_dangled_directories db) o' t).
Proof.
  unfold delete_dangled_directories.
  rewrite (bind_return _ _ _ _ _ (flush_clean _ _ _ _)).
  unfold bind at 1, get_conn at 1. cbn [conn clean current].
  apply dangled_directories_loop_clean.
Qed.

Lemma collect_garbage_clean db0 db o t :
  exists o', collect_garbage (clean db0 db o t)
    = (Return tt,
       let db' := without_dangled_objects
                    (without_dangled_files (without_dangled_directories db)) in
       clean db' db' o' t).
Proof.
  unfold collect_garbage.
  destruct (delete_dangled_directories_clean db0 db o t) as [o1 E1].
  rewrite (bind_return _ _ _ _ _ E1).
  destruct (delete_dangled_files_clean db0 (without_dangled_directories db) o1 t)
    as [o2 E2].
  rewrite (bind_return _ _ _ _ _ E2).
  destruct (delete_dangled_objects_clean db0
              (without_dangled_files (without_dangled_directories db)) o2 t)
    as [o3 E3].
  rewrite (bind_return _ _ _ _ _ E3).
  exists o3. apply commit_clean.
Qed.

Lemma filter_none {A} (p : A -> bool) (l : list A) :
  List.length (filter p l) = O -> filter (fun x => negb (p x)) l = l.
Proof.
  induction l as [|x l IH]; simpl; intros H; [reflexivity|].
  destruct (p x); simpl in *; [discriminate|]. now rewrite IH.
Qed.

Lemma filter_split_length {A} (p : A -> bool) (l : list A) :
  (List.length (filter (fun x => negb (p x)) l) + List.length (filter p l)
   = List.length l)%nat.
Proof.
  induction l as [|x l IH]; simpl; [reflexivity|].
  destruct (p x); simpl; lia.
Qed.

Lemma directories_pass_stable db :
  dangled_directories db = O -> directories_pass db = db.
Proof.
  unfold dangled_directories, directories_pass, sql_delete; simpl; intros H.
  rewrite (filter_none _ _ H). unfold set_directories. apply store_eta.
Qed.

Lemma directories_passes_fixed fuel : forall db,
  (List.length (directories db) < fuel)%nat ->
  dangled_directories (directories_passes fuel db) = O.
Proof.
  induction fuel as [|k IH]; intros db H; [lia|].
  cbn [directories_passes].
  destruct (dangled_directories db =? 0)%nat eqn:E.
  - apply Nat.eqb_eq in E. now rewrite directories_pass_stable.
  - apply Nat.eqb_neq in E. apply IH.
    pose proof (filter_split_length
                  (fun r => is_true (directory_is_dangled db r)) (directories db)) as L.
    unfold dangled_directories, sql_delete in E. simpl in E.
    unfold directories_pass, sql_delete. simpl. lia.
Qed.

Lemma null_parent_not_dangled db d :
  In d (directories db) -> dir_parent_id d = None ->
  is_true (directory_is_dangled db d) = false.
Proof.
  intros Hin Hnull. unfold directory_is_dangled. rewrite Hnull.
  destruct (directories db) as [|d0 ds]; [contradiction|reflexivity].
Qed.

Lemma directories_passes_keep_root fuel : forall db d,
  In d (directories db) -> dir_parent_id d = None ->
  In d (directories (directories_passes fuel db)).
Proof.
  assert (P : forall db d, In d (directories db) -> dir_parent_id d = None ->
                           In d (directories (directories_pass db))).
  { intros db d Hin Hnull. unfold directories_pass, sql_delete. simpl.
    apply filter_In. split; [exact Hin|].
    now rewrite null_parent_not_dangled. }
  induction fuel as [|k IH]; intros db d Hin Hnull; [exact Hin|].
  cbn [directories_passes].
  destruct (dangled_directories db =? 0)%nat; auto.
Qed.

(** C10. Garbage collection never deletes the root directory node: a
    [Directory] row of the store whose [parent_id] is null does not satisfy
    the [NOT IN] predicate of the dangling-directory pass, and it is still in
    the store that the [gc] command commits. *)
Theorem root_survives_collect_garbage db t d :
  In d (directories db) -> dir_parent_id d = None ->
  is_true (directory_is_dangled db d) = false
  /\ fst (run collect_garbage db t) = Return tt
  /\ In d (directories (snd (run collect_garbage db t))).
Proof.
  intros Hin Hnull. split; [now apply null_parent_not_dangled|].
  unfold run, open_session.
  destruct (collect_garbage_clean db db [] t) as [o' E].
  fold (clean db db [] t). rewrite E. split; [reflexivity|].
  change (In d (directories (without_dangled_directories db))).
  unfold without_dangled_directories.
  now apply directories_passes_keep_root.
Qed.

Lemma root_survives_collect_garbage_witness :
  is_true (directory_is_dangled orphan_store (mkDirectory 1 [] None)) = false
  /\ fst (run collect_garbage orphan_store []) = Return tt
  /\ In (mkDirectory 1 [] None)
        (directories (snd (run collect_garbage orphan_store []))).
Proof.
  apply (root_survives_collect_garbage orphan_store [] (mkDirectory 1 [] None)).
  - simpl. left. reflexivity.
  - reflexivity.
Defined.

(** C5, as stated, fails: on [orphan_store] the order objects, files,
    directories keeps the object that the command deletes. *)
Lemma collect_garbage_order_counterexample :
  snd (run collect_garbage orphan_store [])
  <> snd (run collect_garbage_as_specified orphan_store [])
  /\ snd (run collect_garbage orphan_store [])
     <> delete_orphan_directories 2
          (delete_dangling_files (delete_unreferenced_objects orphan_store)).
Proof. split; vm_compute; discriminate. Qed.

(** ** Deleting a file *)

Lemma get_path_clean file db0 db o t :
  get_path file (clean db0 db o t)
  = (match file_path_in db file with
     | Some name => Return name
     | None => Raise AttributeError
     end, clean db0 db o t).
Proof.
  unfold get_path. rewrite (bind_return _ _ _ _ _ (query_clean _ _ _ _ _)).
  unfold file_path_in.
  destruct (find_directory_by_id (file_path_id file) db) as [d|]; [|reflexivity].
  destruct (dir_path d); reflexivity.
Qed.

Lemma file_path_in_delete_file_row db id file :
  file_path_in (delete_file_row id db) file = file_path_in db file.
Proof. reflexivity. Qed.

Lemma fs_lookup_without name t : fs_lookup name (fs_without name t) = None.
Proof.
  unfold fs_lookup, fs_without.
  induction t as [|[n e] t IH]; simpl; [reflexivity|].
  destruct (String.eqb n name) eqn:E; simpl; [exact IH|].
  rewrite E. exact IH.
Qed.

Lemma delete_file_row_removes id db f :
  In f (files (delete_file_row id db)) <-> In f (files db) /\ file_id f <> id.
Proof.
  unfold delete_file_row, set_files; simpl. rewrite filter_In.
  rewrite negb_true_iff, Z.eqb_neq. reflexivity.
Qed.

(** C6. Deleting one duplicate file removes its [File] row and unlinks its
    path, and commits; when the path is already missing the row removal still
    commits; on any other error of [os.remove] the transaction is rolled back
    (the row is back, the store and the files are as they were) and the error
    propagates. *)
Theorem delete_file_atomic db0 db o t file name :
  file_path_in db file = Some name ->
  let db' := delete_file_row (file_id file) db in
  delete_file file (clean db0 db o t)
  = match fs_lookup name t with
    | Some (FsRegular _) => (Return tt, clean db' db' o (fs_without name t))
    | None => (Return tt, clean db' db' o t)
    | Some (FsProtected _) => (Raise (OSError PermissionError), clean db db o t)
    | Some FsDirectory => (Raise (OSError IsADirectoryError), clean db db o t)
    end
  /\ (forall f, In f (files db') <-> In f (files db) /\ file_id f <> file_id file)
  /\ fs_lookup name (fs_without name t) = None.
Proof.
  intros Hpath db'. split; [|split].
  - unfold delete_file.
    rewrite (bind_return _ _ _ _ _ (commit_clean _ _ _ _)).
    rewrite (bind_return _ _ _ _ _ (execute_clean _ _ _ _ _)).
    fold db'. unfold bind at 1, try_except at 1.
    unfold bind at 1. rewrite get_path_clean.
    unfold db' at 1. rewrite file_path_in_delete_file_row, Hpath.
    unfold os_remove. cbn [fs clean conn out].
    destruct (fs_lookup name t) as [[c|c|]|].
    + exact (commit_clean db db' o (fs_without name t)).
    + reflexivity.
    + reflexivity.
    + exact (commit_clean db db' o t).
  - intros f. apply delete_file_row_removes.
  - apply fs_lookup_without.
Qed.

Lemma delete_file_atomic_witness :
  let file := mkFile 2 1 "b" S_IFREG_644 (Some "1:8"%string) in
  delete_file file (clean triple_store triple_store [] triple_files)
  = (Raise (OSError PermissionError), clean triple_store triple_store [] triple_files).
Proof.
  intros file.
  exact (proj1 (delete_file_atomic triple_store triple_store [] triple_files
                  file "b"%string eq_refl)).
Defined.

(** ** Applying a selection *)

(** C7, at a failing input: of three duplicates the first is kept and the
    second cannot be removed.  [remove_duplicates] raises at the second file
    and never reaches the third, which stays on disk and in the index; the
    objects are not collected either. *)
Theorem remove_duplicates_aborts_batch :
  let r := remove_duplicates triple_duplicates triple_selection
             (open_session triple_store triple_files) in
  fst r = Raise (OSError PermissionError)
  /\ fs_lookup "c" (fs (snd r)) = Some (FsRegular "x")
  /\ committed (conn (snd r)) = triple_store
  /\ out (snd r) = [].
Proof. vm_compute. repeat split. Qed.

(** The removal loop of the interactive screen, on the same input, records
    the error and goes on to remove the third file. *)
Lemma do_apply_removals_continues :
  let r := do_apply_removals triple_duplicates triple_selection
             (open_session triple_store triple_files) in
  fst r = Return [OSError PermissionError]
  /\ fs_lookup "c" (fs (snd r)) = None
  /\ map file_id (files (committed (conn (snd r)))) = [1; 2].
Proof. vm_compute. repeat split. Qed.

(** ** Importing a nested index *)

Lemma object_eta o :
  mkObject (obj_id o) (obj_size o) (obj_modified o) (obj_hash o) = o.
Proof. destruct o; reflexivity. Qed.

Lemma for_each_add_objects (l : list Object) : forall c d p o t,
  for_each l (fun obj =>
    conn_add_object
      (mkObject (obj_id obj) (obj_size obj) (obj_modified obj) (obj_hash obj)))
    (mkWorld (mkSession c d p) o t)
  = (Return tt, mkWorld (mkSession c d (p ++ l)) o t).
Proof.
  induction l as [|x l IH]; intros c d p o t.
  - simpl. now rewrite app_nil_r.
  - cbn [for_each]. unfold bind at 1. unfold conn_add_object at 1.
    unfold bind at 1, get_conn, put_conn. cbn [conn out fs committed current pending].
    rewrite object_eta, IH, <- app_assoc. reflexivity.
Qed.

(** What an import leaves to be flushed: the objects of the nested store
    that pass the [NOT IN] filter, field for field. *)
Lemma import_objects_copies nested dirname db0 db o t :
  exists o',
    import_objects nested dirname (clean db0 db o t)
    = (Return tt,
       mkWorld (mkSession db0 db
                  (objects_to_import (referenced_object_ids dirname db) nested))
               o' t).
Proof.
  unfold import_objects.
  rewrite (bind_return _ _ _ _ _ (flush_clean _ _ _ _)).
  rewrite (bind_return _ _ _ _ _ (query_clean _ _ _ _ _)).
  destruct (objects_to_import (referenced_object_ids dirname db) nested)
    as [|x l] eqn:E.
  - exists o. reflexivity.
  - cbn [List.length Nat.eqb]. eexists.
    unfold bind at 1, print at 1. cbn [conn out fs clean].
    apply (for_each_add_objects (x :: l) db0 db []).
Qed.

(** A flush appends; the rows that were there stay as they are. *)
Lemma insert_objects_appends new : forall tbl tbl',
  insert_objects new tbl = Some tbl' -> tbl' = tbl ++ new.
Proof.
  induction new as [|x new IH]; simpl; intros tbl tbl' H.
  - injection H as <-. now rewrite app_nil_r.
  - destruct (has_object (obj_id x) tbl); [discriminate|].
    apply IH in H. now rewrite <- app_assoc in H.
Qed.

(** An identity that is already in the store makes the flush fail. *)
Lemma insert_objects_conflict new : forall tbl x,
  In x new -> has_object (obj_id x) tbl = true -> insert_objects new tbl = None.
Proof.
  induction new as [|y new IH]; simpl; intros tbl x Hin Hhas; [contradiction|].
  destruct (has_object (obj_id y) tbl) eqn:E; [reflexivity|].
  destruct Hin as [->|Hin]; [congruence|].
  apply (IH _ x Hin). unfold has_object in *.
  rewrite existsb_app, Hhas. reflexivity.
Qed.

(** C8, at a failing input: the only file under [vol] is a symbolic link,
    whose [object_id] is null.  No file under [vol] refers to the object of
    the nested store, yet [import_objects] copies nothing: with the null in
    the list, [Object.id NOT IN (...)] is true of no object. *)
Theorem import_objects_skips_unreferenced :
  let r := import_objects nested_objects ["vol"%string] (open_session link_store []) in
  referenced_object_ids ["vol"%string] link_store = [None]
  /\ objects_to_import [None] nested_objects = []
  /\ r = (Return tt, open_session link_store []).
Proof. vm_compute. repeat split. Qed.

(** ** [ensure_object] on a stored object *)

Lemma find_object_id oid db ob : find_object oid db = Some ob -> obj_id ob = oid.
Proof.
  unfold find_object. intros H. apply find_some in H.
  now apply String.eqb_eq.
Qed.

Lemma update_rows_absent oid m s h tbl :
  ~ In oid (map obj_id tbl) ->
  filter (fun o => String.eqb (obj_id o) oid) (update_object_rows oid m s h tbl) = [].
Proof.
  induction tbl as [|x tbl IH]; simpl; intros H; [reflexivity|].
  destruct (String.eqb (obj_id x) oid) eqn:E.
  - apply String.eqb_eq in E. tauto.
  - simpl. rewrite E. apply IH. tauto.
Qed.

Lemma update_rows_filter oid m s h tbl ob :
  NoDup (map obj_id tbl) ->
  find (fun o => String.eqb (obj_id o) oid) tbl = Some ob ->
  filter (fun o => String.eqb (obj_id o) oid) (update_object_rows oid m s h tbl)
  = [mkObject (obj_id ob) s m h].
Proof.
  induction tbl as [|x tbl IH]; simpl; intros Hnd Hf; [discriminate|].
  inversion Hnd as [|? ? Hx Hnd']; subst.
  destruct (String.eqb (obj_id x) oid) eqn:E.
  - injection Hf as ->. simpl. rewrite E.
    apply String.eqb_eq in E. subst oid.
    now rewrite update_rows_absent.
  - simpl. rewrite E. now apply IH.
Qed.

Lemma update_rows_find oid m s h tbl ob :
  find (fun o => String.eqb (obj_id o) oid) tbl = Some ob ->
  find (fun o => String.eqb (obj_id o) oid) (update_object_rows oid m s h tbl)
  = Some (mkObject (obj_id ob) s m h).
Proof.
  induction tbl as [|x tbl IH]; simpl; intros Hf; [discriminate|].
  destruct (String.eqb (obj_id x) oid) eqn:E.
  - injection Hf as ->. simpl. now rewrite E.
  - simpl. rewrite E. now apply IH.
Qed.

(** What [ensure_object] does with a regular file whose object is stored. *)
Lemma ensure_object_stored st get_hash passed ob db0 db o t :
  S_ISREG (st_mode st) = true ->
  NoDup (map obj_id (objects db)) ->
  find_object (oid_of st) db = Some ob ->
  (forall p, passed = Some p -> obj_id p = oid_of st -> p = ob) ->
  let hash := option_map (fun g => g tt) get_hash in
  let ob' := mkObject (obj_id ob) (st_size st) (st_mtime st) hash in
  let db' := set_objects db
               (update_object_rows (obj_id ob) (st_mtime st) (st_size st) hash
                                   (objects db)) in
  ensure_object st get_hash passed (clean db0 db o t)
  = if stat_changed ob st || is_none (obj_hash ob)
    then (Return (Some ob'),
          match hash with
          | Some h => clean db' db' (o ++ [Calculated (obj_id ob) h]) t
          | None => clean db0 db' o t
          end)
    else (Return (Some ob), clean db0 db o t).
Proof.
  intros Hreg Hnd Hfind Hp hash ob' db'.
  unfold ensure_object. rewrite Hreg. cbn [negb].
  assert (E1 : (match passed with
                | Some o0 => if String.eqb (obj_id o0) (oid_of st)
                             then ret (Some o0) else conn_get_object (oid_of st)
                | None => conn_get_object (oid_of st)
                end) (clean db0 db o t) = (Return (Some ob), clean db0 db o t)).
  { unfold conn_get_object. destruct passed as [p|].
    - destruct (String.eqb (obj_id p) (oid_of st)) eqn:E.
      + apply String.eqb_eq in E. now rewrite (Hp p eq_refl E).
      + now rewrite query_clean, Hfind.
    - now rewrite query_clean, Hfind. }
  rewrite (bind_return _ _ _ _ _ E1).
  unfold stat_changed.
  destruct (negb (obj_modified ob =? st_mtime st)
            || negb (obj_size ob =? st_size st) || is_none (obj_hash ob));
    [|reflexivity].
  fold hash.
  pose proof (find_object_id _ _ _ Hfind) as Hid.
  assert (Hrows : filter (fun o0 => String.eqb (obj_id o0) (obj_id ob)) (objects db')
                  = [ob']).
  { unfold db', set_objects. cbn [objects]. apply update_rows_filter; [exact Hnd|].
    rewrite Hid. exact Hfind. }
  assert (E2 : forall o1 c0,
    update_object (obj_id ob) (st_mtime st) (st_size st) hash (clean c0 db o1 t)
    = (Return [ob'], clean c0 db' o1 t)).
  { intros o1 c0. unfold update_object.
    rewrite (bind_return _ _ _ _ _ (execute_clean _ _ _ _ _)).
    fold db'. rewrite query_clean, Hrows. reflexivity. }
  destruct hash as [h|] eqn:Eh.
  - unfold bind at 1, print at 1. cbn [conn out fs clean].
    change (mkWorld (mkSession db0 db []) (o ++ [Calculated (obj_id ob) h]) t)
      with (clean db0 db (o ++ [Calculated (obj_id ob) h]) t).
    rewrite (bind_return _ _ _ _ _ (E2 _ _)). cbn [one].
    unfold bind at 1, ret at 1. cbn [when is_some is_none negb].
    rewrite (bind_return _ _ _ _ _ (commit_clean _ _ _ _)). reflexivity.
  - unfold bind at 1, ret at 1.
    rewrite (bind_return _ _ _ _ _ (E2 _ _)). reflexivity.
Qed.

(** C9, as stated, fails in its last clause: the stat of the file is what
    the object stores, the object has no hash yet, a supplier is given, and
    the stored hash changes. *)
Lemma stale_hash_counterexample :
  let ob := mkObject "1:7" 1 10 None in
  let r := ensure_object fresh_stat (Some (fun _ => sha256 "x")) (Some ob)
             (open_session fresh_store []) in
  find_object (oid_of fresh_stat) fresh_store = Some ob
  /\ obj_size ob = st_size fresh_stat
  /\ obj_modified ob = st_mtime fresh_stat
  /\ option_map obj_hash (find_object (oid_of fresh_stat) (current (conn (snd r))))
     <> Some (obj_hash ob).
Proof. vm_compute. repeat split. discriminate. Qed.

(** C9, amended. For a stored object and the stat of its regular file,
    [ensure_object] returns the stored row.  When the size or the modified
    time of the stat differs from the stored one, the row takes the stat's
    values and its hash is what the supplier returns, or null without a
    supplier.  When both are unchanged, a hash that is present is left alone
    (nothing is written), and a null hash becomes what the supplier returns,
    or stays null without a supplier. *)
Theorem ensure_object_hash st get_hash passed ob db0 db o t :
  S_ISREG (st_mode st) = true ->
  NoDup (map obj_id (objects db)) ->
  find_object (oid_of st) db = Some ob ->
  (forall p, passed = Some p -> obj_id p = oid_of st -> p = ob) ->
  exists ob' w',
    ensure_object st get_hash passed (clean db0 db o t) = (Return (Some ob'), w')
    /\ find_object (oid_of st) (current (conn w')) = Some ob'
    /\ (stat_changed ob st = true ->
        obj_hash ob' = option_map (fun g => g tt) get_hash
        /\ obj_size ob' = st_size st /\ obj_modified ob' = st_mtime st)
    /\ (stat_changed ob st = false ->
        match obj_hash ob with
        | Some _ => ob' = ob /\ w' = clean db0 db o t
        | None => obj_hash ob' = option_map (fun g => g tt) get_hash
        end).
Proof.
  intros Hreg Hnd Hfind Hp.
  rewrite (ensure_object_stored st get_hash passed ob db0 db o t Hreg Hnd Hfind Hp).
  pose proof (find_object_id _ _ _ Hfind) as Hid.
  assert (Hnew : forall h,
    find_object (oid_of st)
      (set_objects db (update_object_rows (obj_id ob) (st_mtime st) (st_size st) h
                                          (objects db)))
    = Some (mkObject (obj_id ob) (st_size st) (st_mtime st) h)).
  { intros h. unfold find_object, set_objects. cbn [objects].
    rewrite <- Hid. apply update_rows_find. rewrite Hid. exact Hfind. }
  destruct (stat_changed ob st) eqn:Ec; cbn [orb].
  - eexists. eexists. split; [reflexivity|]. split.
    + destruct (option_map (fun g => g tt) get_hash); apply Hnew.
    + split; [intros _; repeat split | discriminate].
  - destruct (obj_hash ob) as [h|] eqn:Eh; cbn [is_none].
    + eexists. eexists. split; [reflexivity|]. split; [exact Hfind|].
      split; [discriminate | intros _; split; reflexivity].
    + eexists. eexists. split; [reflexivity|]. split.
      * destruct (option_map (fun g => g tt) get_hash); apply Hnew.
      * split; [discriminate | intros _; reflexivity].
Qed.

Lemma ensure_object_hash_witness :
  exists ob' w',
    ensure_object fresh_stat None None (clean fresh_store fresh_store [] [])
    = (Return (Some ob'), w')
    /\ find_object (oid_of fresh_stat) (current (conn w')) = Some ob'
    /\ (stat_changed (mkObject "1:7" 1 10 None) fresh_stat = true ->
        obj_hash ob' = None
        /\ obj_size ob' = st_size fresh_stat
        /\ obj_modified ob' = st_mtime fresh_stat)
    /\ (stat_changed (mkObject "1:7" 1 10 None) fresh_stat = false ->
        obj_hash ob' = None).
Proof.
  apply (ensure_object_hash fresh_stat None None (mkObject "1:7" 1 10 None)
           fresh_store fresh_store [] []).
  - reflexivity.
  - simpl. constructor; [simpl; tauto | constructor].
  - reflexivity.
  - discriminate.
Defined.

(** ** Finding duplicates *)

Example sha256_abc :
  SHA256.hex (sha256 "abc")
  = "ba7816bf8f01cfea414140de5dae2223b00361a396177a9cb410ff61f20015ad"%string.
Proof. vm_compute. reflexivity. Qed.

Example sha256_two_blocks :
  SHA256.hex (sha256 "abcdbcdecdefdefgefghfghighijhijkijkljklmklmnlmnomnopnopq")
  = "248d6a61d20638b8e5c026930c3e6039a33ce45964ff2167f6ecedd419db06c1"%string.
Proof. vm_compute. reflexivity. Qed.

(** C3. For the index that holds exactly [A] (bytes ["x"]), [B] (bytes
    ["x"]), [C] (bytes ["y"]) and [D] (bytes ["xx"]) as four distinct
    objects, whichever of their hashes are stored already,
    [find_duplicates] returns exactly one group ([C] and [D] are in none),
    and its members are exactly [A] and [B]. *)
Theorem find_duplicates_groups_A_B (hA hB hC hD : bool) :
  exists members,
    fst (find_duplicates (open_session (quad_store hA hB hC hD) quad_files))
    = Return [(sha256 "x", members)]
    /\ (members = [file_A; file_B] \/ members = [file_B; file_A]).
Proof.
  destruct hA, hB, hC, hD; vm_compute; eexists; split;
    try reflexivity; auto.
Qed.

(** C4, as stated, fails: the group whose hash is computed during the call
    comes first although its hash is the larger one, and the members of a
    group come in the order of their rows, [b] before [a]. *)
Lemma duplicates_order_counterexample :
  let r := find_duplicates (open_session mixed_store mixed_files) in
  let db := committed (conn (snd r)) in
  match fst r with
  | Return groups =>
      map fst groups = [sha256 "y"; sha256 "x"]
      /\ is_sorted (group_leb db) groups = false
      /\ map (is_sorted (member_leb db)) (map snd groups) = [false; false]
  | Raise _ => False
  end.
Proof. vm_compute. repeat split. Qed.

(** ** The order of the query and of the groups *)

Lemma ascii_compare_trans a b c x :
  Ascii.compare a b = x -> Ascii.compare b c = x -> Ascii.compare a c = x.
Proof.
  unfold Ascii.compare. intros H1 H2. destruct x.
  - apply N.compare_eq_iff in H1, H2. apply N.compare_eq_iff. congruence.
  - rewrite N.compare_lt_iff in *. lia.
  - rewrite N.compare_gt_iff in *. lia.
Qed.

Lemma string_compare_trans : forall a b c x,
  String.compare a b = x -> String.compare b c = x -> String.compare a c = x.
Proof.
  induction a as [|a0 a IH]; intros [|b0 b] [|c0 c] x; simpl; try congruence.
  destruct (Ascii.compare a0 b0) eqn:E1; destruct (Ascii.compare b0 c0) eqn:E2;
    intros H1 H2; subst; try congruence.
  - apply Ascii.compare_eq_iff in E1, E2. subst.
    replace (Ascii.compare c0 c0) with Eq
      by (symmetry; unfold Ascii.compare; apply N.compare_refl).
    eapply IH; eauto.
  - apply Ascii.compare_eq_iff in E1. subst. now rewrite E2.
  - apply Ascii.compare_eq_iff in E1. subst. now rewrite E2.
  - apply Ascii.compare_eq_iff in E2. subst. now rewrite E1.
  - now rewrite (ascii_compare_trans _ _ _ _ E1 E2).
  - apply Ascii.compare_eq_iff in E2. subst. now rewrite E1.
  - now rewrite (ascii_compare_trans _ _ _ _ E1 E2).
Qed.

Lemma string_leb_trans a b c :
  String.leb a b = true -> String.leb b c = true -> String.leb a c = true.
Proof.
  unfold String.leb.
  destruct (String.compare a b) eqn:E1; destruct (String.compare b c) eqn:E2;
    intros H1 H2; try discriminate.
  - now rewrite (string_compare_trans _ _ _ _ E1 E2).
  - apply String.compare_eq_iff in E1. subst. now rewrite E2.
  - apply String.compare_eq_iff in E2. subst. now rewrite E1.
  - now rewrite (string_compare_trans _ _ _ _ E1 E2).
Qed.

Lemma hash_leb_trans a b c :
  hash_leb a b = true -> hash_leb b c = true -> hash_leb a c = true.
Proof.
  destruct a, b, c; simpl; try congruence. apply string_leb_trans.
Qed.

Lemma hash_leb_total a b : hash_leb a b = true \/ hash_leb b a = true.
Proof. destruct a, b; simpl; auto. apply String.leb_total. Qed.

Lemma order_leb_trans a b c :
  order_leb a b = true -> order_leb b c = true -> order_leb a c = true.
Proof.
  unfold order_leb. intros H1 H2.
  apply orb_true_iff in H1, H2. apply orb_true_iff.
  destruct H1 as [H1|H1], H2 as [H2|H2];
    rewrite ?andb_true_iff, ?Z.ltb_lt, ?Z.eqb_eq in *.
  - left. lia.
  - left. lia.
  - left. lia.
  - right. split; [lia|]. eapply hash_leb_trans; [apply H1|apply H2].
Qed.

Lemma order_leb_total a b : order_leb a b = true \/ order_leb b a = true.
Proof.
  unfold order_leb.
  destruct (Z.lt_trichotomy (obj_size a) (obj_size b)) as [H|[H|H]].
  - left. apply orb_true_iff. left. now apply Z.ltb_lt.
  - destruct (hash_leb_total (obj_hash a) (obj_hash b)) as [L|L]; [left|right];
      apply orb_true_iff; right; rewrite L, andb_true_r; apply Z.eqb_eq; lia.
  - right. apply orb_true_iff. left. now apply Z.ltb_lt.
Qed.

Section Sorting.
Context {A : Type} (leb : A -> A -> bool).
Hypothesis leb_trans : forall a b c, leb a b = true -> leb b c = true -> leb a c = true.
Hypothesis leb_total : forall a b, leb a b = true \/ leb b a = true.

Let R (a b : A) : Prop := leb a b = true.

Lemma insert_sorted_in x l y : In y (insert_sorted leb x l) <-> y = x \/ In y l.
Proof.
  induction l as [|z l IH]; simpl.
  - intuition.
  - destruct (leb x z); simpl; [intuition|]. rewrite IH. intuition.
Qed.

Lemma insert_sorted_strongly x l :
  StronglySorted R l -> StronglySorted R (insert_sorted leb x l).
Proof.
  induction 1 as [|z l Hs IH Hz]; simpl.
  - repeat constructor.
  - destruct (leb x z) eqn:E.
    + constructor; [now constructor|]. constructor; [exact E|].
      rewrite Forall_forall in *. intros y Hy. eapply leb_trans; [exact E|].
      now apply Hz.
    + constructor; [exact IH|]. rewrite Forall_forall in *. intros y Hy.
      apply insert_sorted_in in Hy. destruct Hy as [->|Hy]; [|now apply Hz].
      destruct (leb_total x z) as [L|L]; [congruence|exact L].
Qed.

Lemma sort_by_in l y : In y (sort_by leb l) <-> In y l.
Proof.
  induction l as [|z l IH]; simpl; [tauto|].
  rewrite insert_sorted_in, IH. intuition.
Qed.

Lemma sort_by_strongly l : StronglySorted R (sort_by leb l).
Proof.
  induction l as [|z l IH]; simpl; [constructor|].
  now apply insert_sorted_strongly.
Qed.

End Sorting.


Lemma strongly_sorted_drop {A} (R : A -> A -> Prop) l1 x l2 :
  StronglySorted R (l1 ++ x :: l2) -> StronglySorted R (l1 ++ l2).
Proof.
  induction l1 as [|y l1 IH]; simpl; intros H; inversion H as [|? ? Hs Hf]; subst.
  - exact Hs.
  - constructor; [now apply IH|].
    rewrite Forall_app in *. destruct Hf as [F1 F2]. split; [exact F1|].
    now inversion F2.
Qed.

Lemma strongly_sorted_filter {A} (R : A -> A -> Prop) p l :
  StronglySorted R l -> StronglySorted R (filter p l).
Proof.
  induction 1 as [|x l Hs IH Hf]; simpl; [constructor|].
  destruct (p x); [|exact IH]. constructor; [exact IH|].
  rewrite Forall_forall in *. intros y Hy. apply filter_In in Hy. now apply Hf.
Qed.

Lemma strongly_sorted_map {A B} (R : B -> B -> Prop) (f : A -> B) l :
  StronglySorted R (map f l) -> StronglySorted (fun a b => R (f a) (f b)) l.
Proof.
  induction l as [|x l IH]; simpl; intros H; [constructor|].
  inversion H as [|? ? Hs Hf]; subst. constructor; [now apply IH|].
  rewrite Forall_forall in *. intros y Hy. apply Hf. now apply in_map.
Qed.

Lemma dict_append_first k it (d : dict bytes (list (File * Object))) :
  Forall (fun g => snd g <> []) d ->
  Forall (fun g => snd g <> []) (dict_append k it d)
  /\ (map group_first (dict_append k it d) = map group_first d
      \/ map group_first (dict_append k it d) = map group_first d ++ [it]).
Proof.
  induction d as [|[k' vs] d IH]; simpl; intros H.
  - split; [repeat constructor; discriminate | right; reflexivity].
  - inversion H as [|? ? Hne Hd]; subst. destruct (String.eqb k' k).
    + split.
      * constructor; [|exact Hd]. simpl. now destruct vs.
      * left. simpl. f_equal. unfold group_first. simpl in *.
        destruct vs; [contradiction|reflexivity].
    + destruct (IH Hd) as [F [E|E]]; (split; [now constructor|]).
      * left. simpl. now rewrite E.
      * right. simpl. now rewrite E.
Qed.

Lemma group_rows_sorted (R : File * Object -> File * Object -> Prop) key items :
  forall d,
  Forall (fun g => snd g <> []) d ->
  StronglySorted R (map group_first d ++ items) ->
  StronglySorted R
    (map group_first (fold_left (fun d it => dict_append (key it) it d) items d)).
Proof.
  induction items as [|it items IH]; simpl; intros d Hne Hs.
  - now rewrite app_nil_r in Hs.
  - destruct (dict_append_first (key it) it d Hne) as [F [E|E]];
      apply IH; try exact F; rewrite E.
    + eapply strongly_sorted_drop. exact Hs.
    + now rewrite <- app_assoc.
Qed.

Lemma find_nodup (tbl : list Object) o :
  NoDup (map obj_id tbl) -> In o tbl ->
  find (fun o' => String.eqb (obj_id o') (obj_id o)) tbl = Some o.
Proof.
  induction tbl as [|x tbl IH]; simpl; intros Hnd Hin; [contradiction|].
  inversion Hnd as [|? ? Hx Hnd']; subst.
  destruct (String.eqb (obj_id x) (obj_id o)) eqn:E.
  - destruct Hin as [->|Hin]; [reflexivity|].
    apply String.eqb_eq in E. exfalso. apply Hx. rewrite E. now apply in_map.
  - destruct Hin as [->|Hin]; [now rewrite String.eqb_refl in E|]. now apply IH.
Qed.

Lemma joined_rows_object db it : In it (joined_rows db) -> In (snd it) (objects db).
Proof.
  unfold joined_rows. rewrite in_flat_map. intros [o [Ho H]].
  destruct (size_is_shared db (obj_size o)); [|contradiction].
  apply in_map_iff in H. destruct H as [f [<- _]]. exact Ho.
Qed.

Lemma candidates_object db it :
  In it (duplicate_candidates db) -> In (snd it) (objects db).
Proof.
  unfold duplicate_candidates. rewrite sort_by_in. apply joined_rows_object.
Qed.

Lemma group_files_append k it d :
  map group_files (dict_append k it d) = dict_append k (fst it) (map group_files d).
Proof.
  induction d as [|[k' vs] d IH]; simpl; [reflexivity|].
  destruct (String.eqb k' k); simpl.
  - unfold group_files at 1. simpl. now rewrite map_app.
  - now rewrite IH.
Qed.

Lemma group_files_filter d :
  filter (fun kv => (1 <? List.length (snd kv))%nat) (map group_files d)
  = map group_files (filter (fun g => (1 <? List.length (snd g))%nat) d).
Proof.
  induction d as [|g d IH]; simpl; [reflexivity|].
  rewrite length_map. destruct (1 <? List.length (snd g))%nat; simpl; now rewrite IH.
Qed.

Lemma dict_append_keys {V} k (v : V) d :
  map fst (dict_append k v d) = map fst d /\ In k (map fst d)
  \/ map fst (dict_append k v d) = map fst d ++ [k] /\ ~ In k (map fst d).
Proof.
  induction d as [|[k' vs] d IH]; simpl.
  - right. split; [reflexivity|tauto].
  - destruct (String.eqb k' k) eqn:E.
    + apply String.eqb_eq in E. left. simpl. split; [reflexivity|now left].
    + apply String.eqb_neq in E. destruct IH as [[E1 I]|[E1 I]].
      * left. simpl. rewrite E1. split; [reflexivity|now right].
      * right. simpl. rewrite E1. split; [reflexivity|]. intros [H|H]; tauto.
Qed.

Lemma dict_append_in {V} k (v : V) d g :
  NoDup (map fst d) ->
  In g (dict_append k v d) ->
  (fst g <> k /\ In g d)
  \/ (fst g = k /\ exists vs, In (k, vs) d /\ snd g = vs ++ [v])
  \/ (fst g = k /\ ~ In k (map fst d) /\ snd g = [v]).
Proof.
  induction d as [|[k' vs] d IH]; simpl; intros Hnd Hin.
  - destruct Hin as [<-|[]]. right. right. simpl. tauto.
  - inversion Hnd as [|? ? Hk Hnd']; subst.
    destruct (String.eqb k' k) eqn:E.
    + apply String.eqb_eq in E. subst k'. destruct Hin as [<-|Hin].
      * right. left. simpl. split; [reflexivity|]. exists vs. tauto.
      * left. split; [|now right]. intros Eg. apply Hk. rewrite <- Eg. now apply in_map.
    + apply String.eqb_neq in E. destruct Hin as [<-|Hin].
      * left. simpl. split; [exact E|now left].
      * destruct (IH Hnd' Hin) as [[N I]|[[Ek [vs' [I S]]]|[Ek [N S]]]].
        -- left. split; [exact N|now right].
        -- right. left. split; [exact Ek|]. exists vs'. split; [now right|exact S].
        -- right. right. split; [exact Ek|]. split; [|exact S].
           intros [H|H]; [congruence|tauto].
Qed.

Lemma rows_with_snoc key k done it :
  rows_with key k (done ++ [it])
  = rows_with key k done ++ (if String.eqb (key it) k then [it] else []).
Proof. unfold rows_with. rewrite filter_app. reflexivity. Qed.

Lemma grouped_step key d done it :
  grouped key d done -> grouped key (dict_append (key it) it d) (done ++ [it]).
Proof.
  intros [Hnd [Hg Hk]]. split; [|split].
  - destruct (dict_append_keys (key it) it d) as [[E _]|[E N]]; rewrite E.
    + exact Hnd.
    + apply NoDup_app; [exact Hnd | repeat constructor; simpl; tauto |].
      intros x Hx Hx'. simpl in Hx'. destruct Hx' as [<-|[]]. exact (N Hx).
  - intros g Hin. rewrite rows_with_snoc.
    destruct (dict_append_in _ _ _ _ Hnd Hin) as [[N I]|[[Ek [vs [I S]]]|[Ek [N S]]]].
    + rewrite (Hg g I). apply String.eqb_neq in N.
      rewrite String.eqb_sym, N. now rewrite app_nil_r.
    + rewrite Ek, String.eqb_refl, S. f_equal. exact (Hg (key it, vs) I).
    + rewrite Ek, String.eqb_refl, S.
      assert (E : rows_with key (key it) done = []).
      { unfold rows_with. destruct (filter _ done) as [|x l] eqn:F; [reflexivity|].
        exfalso. assert (Hx : In x (x :: l)) by now left.
        rewrite <- F in Hx. apply filter_In in Hx. destruct Hx as [Hx Ex].
        apply String.eqb_eq in Ex. apply N. rewrite <- Ex. now apply Hk. }
      now rewrite E.
  - intros x Hx. apply in_app_or in Hx.
    destruct (dict_append_keys (key it) it d) as [[E I]|[E N]]; rewrite E.
    + destruct Hx as [Hx|[<-|[]]]; [now apply Hk | exact I].
    + apply in_or_app. destruct Hx as [Hx|[<-|[]]]; [left; now apply Hk | right; now left].
Qed.

Lemma grouped_fold key items : forall d done,
  grouped key d done ->
  grouped key (fold_left (fun d it => dict_append (key it) it d) items d)
          (done ++ items).
Proof.
  induction items as [|it items IH]; simpl; intros d done H.
  - now rewrite app_nil_r.
  - replace (done ++ it :: items) with ((done ++ [it]) ++ items)
      by now rewrite <- app_assoc.
    apply IH. now apply grouped_step.
Qed.

Lemma group_rows_members key items g :
  In g (group_rows_by key items) -> snd g = rows_with key (fst g) items.
Proof.
  intros H.
  destruct (grouped_fold key items [] []) as [_ [Hg _]].
  - split; [constructor|]. split; intros ? [].
  - now apply Hg.
Qed.

(** ** Hash laziness *)

Section Known.

Variable known : list Object.

Lemma keeps_ret {A} (a : A) : keeps_known known (ret a).
Proof. intros w H. exact H. Qed.

Lemma keeps_raise {A} e : keeps_known known (@raise A e).
Proof. intros w H. exact H. Qed.

Lemma keeps_bind {A B} (m : M A) (k : A -> M B) :
  keeps_known known m -> (forall a, keeps_known known (k a)) ->
  keeps_known known (bind m k).
Proof.
  intros Hm Hk w Hw. unfold bind. specialize (Hm w Hw).
  destruct (m w) as [[a|e] w']; simpl in *; [now apply Hk|exact Hm].
Qed.

Lemma keeps_try_except {A} (body : M A) handler :
  keeps_known known body -> (forall e, keeps_known known (handler e)) ->
  keeps_known known (try_except body handler).
Proof.
  intros Hb Hh w Hw. unfold try_except. specialize (Hb w Hw).
  destruct (body w) as [[a|e] w']; simpl in *; [exact Hb|now apply Hh].
Qed.

Lemma keeps_when b m : keeps_known known m -> keeps_known known (when b m).
Proof. destruct b; simpl; [tauto|intros _; apply keeps_ret]. Qed.

Lemma keeps_for_each {A} (xs : list A) body :
  (forall x, keeps_known known (body x)) -> keeps_known known (for_each xs body).
Proof.
  intros H. induction xs as [|x xs IH]; simpl; [apply keeps_ret|].
  apply keeps_bind; [apply H|intros _; exact IH].
Qed.

Lemma keeps_fold_m {A S} (xs : list A) (body : S -> A -> M S) :
  (forall s x, keeps_known known (body s x)) ->
  forall acc, keeps_known known (fold_m xs body acc).
Proof.
  intros H. induction xs as [|x xs IH]; simpl; intros acc; [apply keeps_ret|].
  apply keeps_bind; [apply H|intros s; apply IH].
Qed.

Lemma keeps_print l : keeps_known known (print l).
Proof. intros w H. exact H. Qed.

Lemma keeps_flush : keeps_known known flush.
Proof.
  intros [s o t] [Hc [Hu Hp]]. unfold flush, bind, get_conn, put_conn. simpl in *.
  destruct (insert_objects (pending s) (objects (current s))) as [tbl|] eqn:E; simpl.
  - apply insert_objects_appends in E. subst tbl.
    repeat split; simpl; auto. apply Forall_app. split; assumption.
  - repeat split; simpl; auto.
Qed.

Lemma keeps_commit : keeps_known known commit.
Proof.
  unfold commit. apply keeps_bind; [apply keeps_flush|]. intros _.
  intros [s o t] [Hc [Hu Hp]]. unfold bind, get_conn, put_conn. simpl in *.
  repeat split; simpl; auto.
Qed.

Lemma keeps_query {A} (f : Store -> A) : keeps_known known (query f).
Proof.
  unfold query. apply keeps_bind; [apply keeps_flush|]. intros _ w H. exact H.
Qed.

Lemma keeps_execute f :
  (forall db, Forall (hash_known known) (objects db) ->
              Forall (hash_known known) (objects (f db))) ->
  keeps_known known (execute f).
Proof.
  intros Hf. unfold execute. apply keeps_bind; [apply keeps_flush|]. intros _.
  intros [s o t] [Hc [Hu Hp]]. unfold bind, get_conn, put_conn. simpl in *.
  repeat split; simpl; auto.
Qed.

Lemma keeps_add_object ob :
  hash_known known ob -> keeps_known known (conn_add_object ob).
Proof.
  intros Hob [s o t] [Hc [Hu Hp]]. unfold conn_add_object, bind, get_conn, put_conn.
  simpl in *. repeat split; simpl; auto. apply Forall_app. split; auto.
Qed.

Lemma keeps_one {A} (rows : list A) : keeps_known known (one rows).
Proof. destruct rows as [|r [|r' rows]]; intros w H; exact H. Qed.

Lemma update_rows_known oid m s tbl :
  Forall (hash_known known) tbl ->
  Forall (hash_known known) (update_object_rows oid m s None tbl).
Proof.
  unfold update_object_rows. rewrite !Forall_forall. intros H x Hx.
  apply in_map_iff in Hx. destruct Hx as [y [<- Hy]].
  destruct (String.eqb (obj_id y) oid); [now left|now apply H].
Qed.

Lemma keeps_update_object oid m s :
  keeps_known known (update_object oid m s None).
Proof.
  unfold update_object. apply keeps_bind; [|intros _; apply keeps_query].
  apply keeps_execute. intros db H. simpl. now apply update_rows_known.
Qed.

(** A scan's [ensure_object], without a supplier, writes no hash. *)
Lemma keeps_ensure_object st passed :
  keeps_known known (ensure_object st None passed).
Proof.
  unfold ensure_object. destruct (negb (S_ISREG (st_mode st))); [apply keeps_ret|].
  apply keeps_bind.
  - unfold conn_get_object. destruct passed as [p|].
    + destruct (String.eqb (obj_id p) (oid_of st)); [apply keeps_ret|apply keeps_query].
    + apply keeps_query.
  - intros [ob|].
    + destruct (_ || _); [|apply keeps_ret]. simpl.
      apply keeps_bind; [apply keeps_ret|]. intros _.
      apply keeps_bind; [apply keeps_update_object|]. intros rows.
      apply keeps_bind; [apply keeps_one|]. intros ob'.
      apply keeps_bind; [apply keeps_ret|]. intros _. apply keeps_ret.
    + simpl. apply keeps_bind; [apply keeps_add_object; now left|]. intros _.
      apply keeps_bind; [apply keeps_ret|]. intros _. apply keeps_ret.
Qed.

Lemma keeps_ensure_directory p parent :
  keeps_known known (ensure_directory p parent).
Proof.
  unfold ensure_directory, get_directory.
  apply keeps_bind; [apply keeps_query|]. intros [d|]; [apply keeps_ret|].
  intros [s o t] [Hc [Hu Hp]]. unfold bind, get_conn, put_conn, ret. simpl in *.
  repeat split; simpl; auto.
Qed.

Lemma keeps_update_file file object_id :
  keeps_known known (update_file file object_id).
Proof.
  unfold update_file. destruct (opt_eqb _ _ _); [apply keeps_ret|].
  apply keeps_bind; [apply keeps_execute; intros db H; exact H|]. intros _.
  apply keeps_bind; [apply keeps_query|]. intros rows. apply keeps_one.
Qed.

Lemma keeps_os_lstat entries name : keeps_known known (os_lstat entries name).
Proof.
  unfold os_lstat. destruct (find _ entries); [apply keeps_ret|apply keeps_raise].
Qed.

Lemma keeps_add_file path_id name type object_id :
  keeps_known known (conn_add_file path_id name type object_id).
Proof.
  unfold conn_add_file. apply keeps_bind; [apply keeps_flush|]. intros _.
  intros [s o t] [Hc [Hu Hp]]. unfold bind, get_conn, put_conn, raise. simpl in *.
  destruct (existsb _ (files (current s))); simpl; repeat split; simpl; auto.
Qed.

Lemma keeps_scan_files entries dir files :
  keeps_known known (scan_files entries dir files).
Proof.
  unfold scan_files. apply keeps_bind; [apply keeps_query|]. intros db_files.
  apply keeps_bind.
  - apply keeps_fold_m. intros fs db_file.
    destruct (negb (mem_str (file_name db_file) fs)).
    + apply keeps_bind; [apply keeps_execute; intros db H; exact H|].
      intros _. apply keeps_ret.
    + apply keeps_bind; [apply keeps_os_lstat|]. intros st.
      apply keeps_bind; [apply keeps_query|]. intros ob.
      apply keeps_bind; [apply keeps_ensure_object|]. intros obj.
      apply keeps_bind; [apply keeps_update_file|]. intros _. apply keeps_ret.
  - intros fs. apply keeps_for_each. intros filename.
    apply keeps_bind; [apply keeps_os_lstat|]. intros st.
    apply keeps_bind; [apply keeps_ensure_object|]. intros obj.
    apply keeps_add_file.
Qed.

Lemma keeps_for_each_in {A} (xs : list A) body :
  (forall x, In x xs -> keeps_known known (body x)) ->
  keeps_known known (for_each xs body).
Proof.
  induction xs as [|x xs IH]; simpl; intros H; [apply keeps_ret|].
  apply keeps_bind; [apply H; now left|]. intros _. apply IH.
  intros y Hy. apply H. now right.
Qed.

(** An import adds objects of the nested store, with the hashes they have
    there. *)
Lemma keeps_import_objects nested dirname :
  incl nested known -> keeps_known known (import_objects nested dirname).
Proof.
  intros Hn. unfold import_objects.
  apply keeps_bind; [apply keeps_flush|]. intros _.
  apply keeps_bind; [apply keeps_query|]. intros object_ids.
  destruct (_ =? 0)%nat; [apply keeps_ret|].
  apply keeps_bind; [apply keeps_print|]. intros _.
  apply keeps_for_each_in. intros obj Hin.
  apply keeps_add_object. right. exists obj.
  apply filter_In in Hin. split; [apply Hn; tauto|]. split; reflexivity.
Qed.

Lemma keeps_delete_dangled_objects : keeps_known known delete_dangled_objects.
Proof.
  unfold delete_dangled_objects. apply keeps_bind; [apply keeps_flush|]. intros _.
  apply keeps_bind.
  - intros [s o t] [Hc [Hu Hp]].
    unfold execute_delete. unfold bind at 1.
    pose proof (keeps_flush (mkWorld s o t) (conj Hc (conj Hu Hp))) as Hf.
    destruct (flush (mkWorld s o t)) as [[[]|e] [s' o' t']]; [|exact Hf].
    destruct Hf as [Hc' [Hu' Hp']].
    unfold bind, get_conn, put_conn, ret. simpl in *.
    repeat split; simpl; auto.
    unfold sql_delete. simpl. rewrite Forall_forall in *.
    intros x Hx. apply filter_In in Hx. now apply Hu'.
  - intros n. apply keeps_when. apply keeps_print.
Qed.

Section Scan.

Variable regex_ex_files regex_ex_dirs : string -> bool.

Lemma keeps_scan_directory v :
  incl (imported_objects [v]) known ->
  keeps_known known (scan_directory regex_ex_files regex_ex_dirs v).
Proof.
  intros Hv. unfold scan_directory.
  apply keeps_bind.
  { destruct (v_dirname v) as [|x p] eqn:Ed; [apply keeps_ret|].
    destruct (mem_str CONFIG_DIR (v_dirs v)) eqn:Em; simpl; [|apply keeps_ret].
    apply keeps_try_except; [|intros e; apply keeps_print].
    destruct (v_store v) as [nested|] eqn:Es; [|apply keeps_raise].
    apply keeps_import_objects.
    unfold imported_objects in Hv. simpl in Hv. rewrite Ed, Es, Em in Hv.
    now rewrite app_nil_r in Hv. }
  intros _. apply keeps_bind.
  { destruct (v_dirname v); [apply keeps_ret|].
    apply keeps_bind; [apply keeps_query|]. intros [d|]; [apply keeps_ret|apply keeps_raise]. }
  intros pdir. apply keeps_bind; [apply keeps_ensure_directory|]. intros dn.
  apply keeps_bind.
  { destruct (snd dn); [apply keeps_ret|apply keeps_query]. }
  intros children. apply keeps_bind.
  { apply keeps_for_each. intros cdir.
    destruct (relpath (dir_path cdir) (v_dirname v)).
    - apply keeps_when. apply keeps_execute. intros db H. exact H.
    - apply keeps_execute. intros db H. exact H. }
  intros _. apply keeps_bind; [apply keeps_commit|]. intros _.
  destruct (filter _ (v_files v)); [apply keeps_ret|].
  apply keeps_bind; [apply keeps_scan_files|]. intros _.
  apply keeps_bind; [apply keeps_commit|]. intros _. apply keeps_print.
Qed.

Lemma imported_objects_incl v visits :
  In v visits -> incl (imported_objects [v]) (imported_objects visits).
Proof.
  intros Hin x Hx. unfold imported_objects in *. apply in_flat_map.
  exists v. split; [exact Hin|]. simpl in Hx. now rewrite app_nil_r in Hx.
Qed.

Lemma keeps_scan t :
  incl (imported_objects (walk (is_valid_directory regex_ex_dirs) [] t)) known ->
  keeps_known known (scan regex_ex_files regex_ex_dirs t).
Proof.
  intros Hk. unfold scan.
  apply keeps_bind.
  { apply keeps_for_each_in. intros v Hv. apply keeps_scan_directory.
    intros x Hx. apply Hk. eapply imported_objects_incl; eauto. }
  intros _. apply keeps_bind; [apply keeps_delete_dangled_objects|]. intros _.
  apply keeps_bind; [apply keeps_commit|]. intros _. apply keeps_print.
Qed.

End Scan.

End Known.

(** C2, as stated, fails: scanning [volume_tree] into an empty index leaves
    the object of [f] with the hash that the index of the volume holds for
    it, a hash that the object, which did not exist, did not have before. *)
Lemma hash_laziness_counterexample :
  let r := run (scan no_exclusions no_exclusions volume_tree) empty_store [] in
  fst r = Return tt /\ ~ hashes_kept empty_store (snd r).
Proof.
  split; [vm_compute; reflexivity|].
  intros H.
  assert (E : objects (snd (run (scan no_exclusions no_exclusions volume_tree)
                                empty_store []))
              = [mkObject "1:7" 4 10 (Some (sha256 "data"))])
    by (vm_compute; reflexivity).
  specialize (H (mkObject "1:7" 4 10 (Some (sha256 "data")))).
  rewrite E in H. destruct (H (or_introl eq_refl)) as [N|[o0 [[] _]]].
  vm_compute in N. discriminate.
Qed.

(** C2, amended. After a scan, whether it returns or raises, every object of
    the index has no hash, or the hash that the index held for its identity
    before the scan, or the hash that a nested index imported during the scan
    holds for its identity: a scan copies hashes and computes none. *)
Theorem scan_keeps_hashes ex_files ex_dirs t db fsys o :
  In o (objects (snd (run (scan ex_files ex_dirs t) db fsys))) ->
  obj_hash o = None
  \/ (exists o0, In o0 (objects db)
                 /\ obj_id o0 = obj_id o /\ obj_hash o0 = obj_hash o)
  \/ (exists n, In n (imported_objects (walk (is_valid_directory ex_dirs) [] t))
                /\ obj_id n = obj_id o /\ obj_hash n = obj_hash o).
Proof.
  intros Hin.
  set (known := objects db
                ++ imported_objects (walk (is_valid_directory ex_dirs) [] t)).
  assert (H0 : session_known known (open_session db fsys)).
  { assert (F : Forall (hash_known known) (objects db)).
    { apply Forall_forall. intros x Hx. right. exists x.
      split; [apply in_or_app; now left|split; reflexivity]. }
    repeat split; simpl; auto. }
  pose proof (keeps_scan known ex_files ex_dirs t
                (fun x Hx => in_or_app _ _ x (or_intror Hx)) _ H0) as [Hc _].
  unfold run in Hin. simpl in Hin. rewrite Forall_forall in Hc.
  destruct (Hc o Hin) as [N|[k [Hk E]]]; [now left|].
  right. apply in_app_or in Hk. destruct Hk as [Hk|Hk]; [left|right]; now exists k.
Qed.

Lemma scan_keeps_hashes_witness :
  let o := mkObject "1:7" 4 10 (Some (sha256 "data")) in
  obj_hash o = None
  \/ (exists o0, In o0 (objects empty_store)
                 /\ obj_id o0 = obj_id o /\ obj_hash o0 = obj_hash o)
  \/ (exists n, In n (imported_objects
                        (walk (is_valid_directory no_exclusions) [] volume_tree))
                /\ obj_id n = obj_id o /\ obj_hash n = obj_hash o).
Proof.
  apply (scan_keeps_hashes no_exclusions no_exclusions volume_tree empty_store []).
  vm_compute. left. reflexivity.
Defined.

(** ** Scanning twice *)

(** C1, at a failing input.  The index comes from a scan of [old_tree]; the
    tree is then [new_tree] and stays so.  The first scan of it imports
    nothing, because the link under [vol] still has a row, whose null
    [object_id] makes the [NOT IN] of the import unknown; it deletes that
    row.  The second scan imports the object of the nested index, and the
    null [object_id] of the link in the root keeps [delete_dangled_objects]
    from deleting it: the index has one row more than after the first scan. *)
Theorem scan_twice_differs :
  let scan_new := run (scan no_exclusions no_exclusions new_tree) in
  let index := snd (run (scan no_exclusions no_exclusions old_tree) empty_store []) in
  let once := scan_new index [] in
  let twice := scan_new (snd once) [] in
  fst once = Return tt
  /\ fst twice = Return tt
  /\ map obj_id (objects (snd once)) = ["1:7"%string]
  /\ map obj_id (objects (snd twice)) = ["1:7"; "1:100"]%string
  /\ snd twice <> snd once.
Proof. vm_compute. repeat split. discriminate. Qed.

(** * Further properties of the engine *)

(** ** [NOT IN] *)

Section NotIn.

Context {A : Type} (eqb : A -> A -> bool).
Hypothesis eqb_eq : forall a b, eqb a b = true <-> a = b.

Lemma existsb_some_in a (xs : list (option A)) :
  existsb (fun y => match y with Some b => eqb a b | None => false end) xs = true
  <-> In (Some a) xs.
Proof.
  rewrite existsb_exists. split.
  - intros [[b|] [Hin H]]; [|discriminate]. apply eqb_eq in H. now subst.
  - intros H. exists (Some a). split; [exact H|]. now apply eqb_eq.
Qed.

Lemma existsb_none_in (xs : list (option A)) :
  existsb is_none xs = true <-> In None xs.
Proof.
  rewrite existsb_exists. split.
  - intros [[b|] [Hin H]]; [discriminate|exact Hin].
  - intros H. now exists None.
Qed.

(** [a NOT IN xs] is true exactly when [xs] holds neither [a] nor a null. *)
Lemma not_in_true a xs :
  is_true (sql_not_in eqb (Some a) xs) = true <-> ~ In (Some a) xs /\ ~ In None xs.
Proof.
  unfold sql_not_in. destruct xs as [|x xs]; [simpl; tauto|].
  destruct (existsb _ (x :: xs)) eqn:E1.
  - apply existsb_some_in in E1. simpl is_true. split; [discriminate|tauto].
  - destruct (existsb is_none (x :: xs)) eqn:E2.
    + apply existsb_none_in in E2. simpl is_true. split; [discriminate|tauto].
    + simpl is_true. split; [intros _|reflexivity]. split.
      * intros H. apply existsb_some_in in H. congruence.
      * intros H. apply existsb_none_in in H. congruence.
Qed.

(** [NULL NOT IN xs] is true only of the empty set. *)
Lemma null_not_in_true xs :
  is_true (sql_not_in eqb None xs) = true <-> xs = [].
Proof.
  destruct xs; simpl; split; intros H; try reflexivity; discriminate.
Qed.

End NotIn.

Lemma is_referenced_in db o :
  is_referenced db o = true <-> In (Some (obj_id o)) (map file_object_id (files db)).
Proof.
  unfold is_referenced. rewrite existsb_exists, in_map_iff.
  split; intros [f [H1 H2]]; exists f.
  - split; [|exact H1]. destruct (file_object_id f) as [x|]; [|discriminate].
    simpl in H2. apply String.eqb_eq in H2. now subst.
  - split; [exact H2|]. rewrite H1. simpl. apply String.eqb_refl.
Qed.

Lemma has_null_reference_in db :
  has_null_reference db = true <-> In None (map file_object_id (files db)).
Proof.
  unfold has_null_reference. rewrite existsb_exists, in_map_iff.
  split; intros [f [H1 H2]]; exists f.
  - split; [|exact H1]. now destruct (file_object_id f).
  - split; [exact H2|]. now rewrite H1.
Qed.

Lemma object_dangled_true db o :
  is_true (object_is_dangled db o) = true
  <-> is_referenced db o = false /\ has_null_reference db = false.
Proof.
  unfold object_is_dangled. rewrite (not_in_true String.eqb String.eqb_eq).
  rewrite <- is_referenced_in, <- has_null_reference_in.
  rewrite !not_true_iff_false. reflexivity.
Qed.

Lemma filter_all {A} (p : A -> bool) l :
  (forall x, In x l -> p x = true) -> filter p l = l.
Proof.
  induction l as [|x l IH]; simpl; intros H; [reflexivity|].
  rewrite (H x (or_introl eq_refl)). f_equal. apply IH. intros y Hy. apply H. now right.
Qed.

(** X1. [delete_dangled_objects] deletes exactly the objects that no file row
    refers to, provided no file row has a null [object_id]; the other tables
    are left alone. *)
Theorem delete_dangled_objects_exact db0 db o t :
  has_null_reference db = false ->
  exists o',
    delete_dangled_objects (clean db0 db o t)
    = (Return tt,
       clean db0 (set_objects db (filter (is_referenced db) (objects db))) o' t).
Proof.
  intros Hnull. destruct (delete_dangled_objects_clean db0 db o t) as [o' E].
  exists o'. rewrite E. unfold without_dangled_objects, sql_delete. cbn [fst].
  do 3 f_equal. apply filter_ext. intros ob.
  destruct (is_true (object_is_dangled db ob)) eqn:D.
  - apply object_dangled_true in D. now rewrite (proj1 D).
  - destruct (is_referenced db ob) eqn:R; [reflexivity|].
    exfalso. rewrite <- not_true_iff_false in D. apply D.
    apply object_dangled_true. now split.
Qed.

Lemma delete_dangled_objects_exact_witness :
  exists o',
    delete_dangled_objects (clean unpoisoned_store unpoisoned_store [] [])
    = (Return tt,
       clean unpoisoned_store
         (set_objects unpoisoned_store
            (filter (is_referenced unpoisoned_store) (objects unpoisoned_store)))
         o' []).
Proof.
  apply (delete_dangled_objects_exact unpoisoned_store unpoisoned_store [] []).
  reflexivity.
Defined.

(** X2. One file row with a null [object_id] (a symbolic link, say) keeps
    [delete_dangled_objects] from deleting anything: the session and the
    console are as before, however many objects have lost their files. *)
Theorem delete_dangled_objects_poisoned db0 db o t :
  has_null_reference db = true ->
  delete_dangled_objects (clean db0 db o t) = (Return tt, clean db0 db o t).
Proof.
  intros Hnull. unfold delete_dangled_objects.
  rewrite (bind_return _ _ _ _ _ (flush_clean _ _ _ _)).
  rewrite (bind_return _ _ _ _ _ (execute_delete_clean _ _ _ _ _ _ _)).
  assert (K : forall ob, is_true (object_is_dangled db ob) = false).
  { intros ob. apply not_true_iff_false. intros D.
    apply object_dangled_true in D. destruct D. congruence. }
  unfold sql_delete. cbn [fst snd].
  rewrite (filter_all (fun r => negb (is_true (object_is_dangled db r)))).
  2:{ intros x _. now rewrite K. }
  replace (filter (fun r => is_true (object_is_dangled db r)) (objects db)) with (@nil Object).
  2:{ symmetry. induction (objects db) as [|x l IH]; simpl; [reflexivity|]. now rewrite K. }
  unfold set_objects. rewrite store_eta. reflexivity.
Qed.

Lemma delete_dangled_objects_poisoned_witness :
  delete_dangled_objects (clean poisoned_store poisoned_store [] [])
  = (Return tt, clean poisoned_store poisoned_store [] []).
Proof.
  apply (delete_dangled_objects_poisoned poisoned_store poisoned_store [] []).
  reflexivity.
Defined.

(** ** The stages of the garbage collection *)

Lemma mem_Z_in x l : mem_Z x l = true <-> In x l.
Proof.
  unfold mem_Z. rewrite existsb_exists. split.
  - intros [y [H E]]. apply Z.eqb_eq in E. now subst.
  - intros H. exists x. split; [exact H|apply Z.eqb_refl].
Qed.

Lemma has_object_in oid tbl : has_object oid tbl = true <-> In oid (map obj_id tbl).
Proof.
  unfold has_object. rewrite existsb_exists, in_map_iff.
  split; intros [o [H1 H2]]; exists o.
  - apply String.eqb_eq in H2. tauto.
  - split; [tauto|]. apply String.eqb_eq. tauto.
Qed.

Lemma in_map_Some {A} (x : A) l : In (Some x) (map Some l) <-> In x l.
Proof.
  rewrite in_map_iff. split.
  - intros [y [E H]]. now injection E as ->.
  - intros H. now exists x.
Qed.

Lemma not_in_map_Some {A} (l : list A) : ~ In None (map Some l).
Proof. rewrite in_map_iff. intros [y [E _]]. discriminate. Qed.

Lemma file_lacks_directory_true db f :
  is_true (file_lacks_directory db f) = negb (mem_Z (file_path_id f) (dir_ids db)).
Proof.
  unfold file_lacks_directory, dir_ids. rewrite <- map_map.
  apply eq_true_iff_eq. rewrite (not_in_true Z.eqb Z.eqb_eq).
  rewrite negb_true_iff, <- not_true_iff_false, mem_Z_in, in_map_Some.
  pose proof (not_in_map_Some (map dir_id (directories db))). tauto.
Qed.

Lemma file_lacks_object_true db f :
  is_true (file_lacks_object db f)
  = negb match file_object_id f with
         | Some oid => has_object oid (objects db)
         | None => negb (is_nil (objects db))
         end.
Proof.
  unfold file_lacks_object. rewrite <- map_map.
  destruct (file_object_id f) as [oid|].
  - apply eq_true_iff_eq. rewrite (not_in_true String.eqb String.eqb_eq).
    rewrite negb_true_iff, <- not_true_iff_false, has_object_in, in_map_Some.
    pose proof (not_in_map_Some (map obj_id (objects db))). tauto.
  - destruct (objects db); reflexivity.
Qed.

Lemma filter_filter {A} (p q : A -> bool) l :
  filter q (filter p l) = filter (fun x => p x && q x) l.
Proof.
  induction l as [|x l IH]; simpl; [reflexivity|].
  destruct (p x); simpl; [destruct (q x)|]; now rewrite IH.
Qed.

Lemma without_dangled_files_exact db :
  without_dangled_files db = set_files db (filter (file_is_kept db) (files db)).
Proof.
  unfold without_dangled_files, sql_delete, set_files. cbn [fst files directories objects].
  f_equal. rewrite filter_filter. apply filter_ext. intros f.
  rewrite file_lacks_object_true.
  change (is_true (file_lacks_directory _ f))
    with (is_true (file_lacks_directory db f)) at 1.
  unfold file_is_kept. rewrite !negb_involutive.
  replace (is_true (file_lacks_directory
             {| directories := directories db;
                files := filter (fun r => negb (is_true (file_lacks_object db r))) (files db);
                objects := objects db |} f))
    with (is_true (file_lacks_directory db f)) by reflexivity.
  rewrite file_lacks_directory_true, negb_involutive. reflexivity.
Qed.

(** X3. [delete_dangled_files] keeps exactly the file rows whose directory
    exists and whose object exists.  A row with a null [object_id] passes
    the first test only while the [Object] table has a row: over an empty
    table [NOT IN] is true of a null as well. *)
Theorem delete_dangled_files_exact db0 db o t :
  exists o',
    delete_dangled_files (clean db0 db o t)
    = (Return tt, clean db0 (set_files db (filter (file_is_kept db) (files db))) o' t).
Proof.
  destruct (delete_dangled_files_clean db0 db o t) as [o' E].
  exists o'. now rewrite E, without_dangled_files_exact.
Qed.

Lemma filter_length_zero {A} (p : A -> bool) l x :
  List.length (filter p l) = O -> In x l -> p x = false.
Proof.
  intros H Hin. destruct (p x) eqn:E; [|reflexivity].
  assert (Hx : In x (filter p l)) by (apply filter_In; tauto).
  destruct (filter p l); [contradiction|discriminate].
Qed.

Lemma directories_passes_directories_only fuel : forall db,
  files (directories_passes fuel db) = files db
  /\ objects (directories_passes fuel db) = objects db.
Proof.
  induction fuel as [|k IH]; intros db; [split; reflexivity|].
  cbn [directories_passes]. destruct (dangled_directories db =? 0)%nat.
  - split; reflexivity.
  - destruct (IH (directories_pass db)) as [F O]. now rewrite F, O.
Qed.

Lemma settled_parents db :
  dangled_directories db = O ->
  forall d p, In d (directories db) -> dir_parent_id d = Some p -> In p (dir_ids db).
Proof.
  intros H d p Hin Hp.
  pose proof (filter_length_zero _ _ d H Hin) as D. cbn beta in D.
  unfold directory_is_dangled in D. rewrite Hp, <- map_map in D.
  destruct (in_dec Z.eq_dec p (dir_ids db)) as [I|N]; [exact I|].
  exfalso. rewrite <- not_true_iff_false in D. apply D.
  apply (not_in_true Z.eqb Z.eqb_eq). rewrite in_map_Some.
  split; [exact N|apply not_in_map_Some].
Qed.

Lemma dangled_directories_same db db' :
  directories db' = directories db -> dangled_directories db' = dangled_directories db.
Proof.
  intros E. unfold dangled_directories, sql_delete, directory_is_dangled. now rewrite E.
Qed.

Lemma without_dangled_files_tables db :
  directories (without_dangled_files db) = directories db
  /\ objects (without_dangled_files db) = objects db.
Proof. split; reflexivity. Qed.

Lemma without_dangled_objects_tables db :
  directories (without_dangled_objects db) = directories db
  /\ files (without_dangled_objects db) = files db.
Proof. split; reflexivity. Qed.

Lemma is_referenced_same db db' o :
  files db' = files db -> is_referenced db' o = is_referenced db o.
Proof. intros E. unfold is_referenced. now rewrite E. Qed.

Lemma has_null_reference_same db db' :
  files db' = files db -> has_null_reference db' = has_null_reference db.
Proof. intros E. unfold has_null_reference. now rewrite E. Qed.

Lemma object_kept_iff db o :
  In o (objects (without_dangled_objects db))
  <-> In o (objects db) /\ (is_referenced db o = true \/ has_null_reference db = true).
Proof.
  unfold without_dangled_objects, sql_delete. cbn [fst set_objects objects].
  rewrite filter_In, negb_true_iff, <- not_true_iff_false, object_dangled_true.
  destruct (is_referenced db o), (has_null_reference db); intuition congruence.
Qed.

Lemma run_collect_garbage db t :
  run collect_garbage db t
  = (Return tt,
     without_dangled_objects
       (without_dangled_files (without_dangled_directories db))).
Proof.
  unfold run, open_session.
  destruct (collect_garbage_clean db db [] t) as [o' E].
  fold (clean db db [] t). now rewrite E.
Qed.

Lemma dangled_directories_settled db :
  dangled_directories (without_dangled_directories db) = O.
Proof. apply directories_passes_fixed. lia. Qed.

Lemma stages_no_dangling db :
  no_dangling
    (without_dangled_objects
       (without_dangled_files (without_dangled_directories db))).
Proof.
  pose proof (dangled_directories_settled db) as Hfix.
  set (db1 := without_dangled_directories db) in *.
  set (db2 := without_dangled_files db1).
  assert (F2 : files db2 = filter (file_is_kept db1) (files db1))
    by (unfold db2; now rewrite without_dangled_files_exact).
  repeat split.
  - intros d p Hin Hp. apply (settled_parents db1 Hfix d p); assumption.
  - intros f Hin. change (In f (files db2)) in Hin. rewrite F2 in Hin.
    apply filter_In in Hin. destruct Hin as [_ K]. unfold file_is_kept in K.
    apply andb_true_iff in K. now apply mem_Z_in.
  - intros f oid Hin Hoid. change (In f (files db2)) in Hin.
    assert (R : is_referenced db2 (mkObject oid 0 0 None) = true).
    { unfold is_referenced. apply existsb_exists. exists f. split; [exact Hin|].
      rewrite Hoid. simpl. apply String.eqb_refl. }
    rewrite F2 in Hin. apply filter_In in Hin. destruct Hin as [_ K].
    unfold file_is_kept in K. rewrite Hoid in K. apply andb_true_iff in K.
    destruct K as [K _]. apply has_object_in in K.
    unfold object_ids. apply in_map_iff in K. destruct K as [ob [Eid Hob]].
    apply in_map_iff. exists ob. split; [exact Eid|].
    apply object_kept_iff. split; [exact Hob|]. left.
    unfold is_referenced in *. now rewrite Eid.
  - intros Hnull o Hin. apply object_kept_iff in Hin.
    change (has_null_reference db2 = false) in Hnull.
    change (is_referenced db2 o = true).
    destruct Hin as [_ [R|N]]; [exact R|congruence].
  - intros Hnull. change (has_null_reference db2 = true) in Hnull.
    pose proof Hnull as Hf. unfold has_null_reference in Hf.
    apply existsb_exists in Hf. destruct Hf as [f [Hin Hnone]].
    rewrite F2 in Hin. apply filter_In in Hin. destruct Hin as [_ K].
    unfold file_is_kept in K. destruct (file_object_id f); [discriminate|].
    apply andb_true_iff in K. destruct K as [K _].
    change (objects db2) with (objects db1) in *.
    destruct (objects db1) as [|ob obs] eqn:Eo; [discriminate|].
    assert (Hob : In ob (objects (without_dangled_objects db2))).
    { apply object_kept_iff. split; [|now right].
      change (objects db2) with (objects db1). rewrite Eo. now left. }
    intros Hnil. rewrite Hnil in Hob. exact Hob.
Qed.

(** X4. What the [gc] command commits has no dangling row: every directory
    has a null parent or a parent in the store, every file has its directory
    and, unless its [object_id] is null, its object; and when no file has a
    null [object_id], every object has a file. *)
Theorem collect_garbage_no_dangling db t :
  no_dangling (snd (run collect_garbage db t)).
Proof.
  rewrite run_collect_garbage. cbn [snd]. apply stages_no_dangling.
Qed.

Lemma filter_nil {A} (p : A -> bool) l :
  (forall x, In x l -> p x = false) -> filter p l = [].
Proof.
  induction l as [|x l IH]; simpl; intros H; [reflexivity|].
  rewrite (H x (or_introl eq_refl)). apply IH. intros y Hy. apply H. now right.
Qed.

Lemma settled_dangled db :
  (forall d p, In d (directories db) -> dir_parent_id d = Some p -> In p (dir_ids db)) ->
  dangled_directories db = O.
Proof.
  intros H. unfold dangled_directories, sql_delete. cbn [snd].
  rewrite filter_nil; [reflexivity|]. intros d Hin.
  unfold directory_is_dangled. destruct (dir_parent_id d) as [p|] eqn:Ep.
  - rewrite <- not_true_iff_false, <- map_map, (not_in_true Z.eqb Z.eqb_eq).
    intros [N _]. apply N. apply in_map_Some. now apply (H d p).
  - pose proof (null_parent_not_dangled db d Hin Ep) as N.
    unfold directory_is_dangled in N. now rewrite Ep in N.
Qed.

Lemma without_dangled_directories_stable db :
  dangled_directories db = O -> without_dangled_directories db = db.
Proof.
  intros H. unfold without_dangled_directories. cbn [directories_passes].
  rewrite H. cbn. now apply directories_pass_stable.
Qed.

Lemma stages_fixed db :
  no_dangling db ->
  without_dangled_objects (without_dangled_files (without_dangled_directories db)) = db.
Proof.
  intros (Hd & Hfd & Hfo & Ho & Hn).
  rewrite (without_dangled_directories_stable db (settled_dangled db Hd)).
  assert (F : without_dangled_files db = db).
  { rewrite without_dangled_files_exact. unfold set_files.
    rewrite filter_all; [apply store_eta|].
    intros f Hin. unfold file_is_kept. apply andb_true_iff. split.
    - destruct (file_object_id f) as [oid|] eqn:E.
      + apply has_object_in. now apply (Hfo f).
      + assert (N : has_null_reference db = true).
        { unfold has_null_reference. apply existsb_exists. exists f.
          split; [exact Hin|]. now rewrite E. }
        specialize (Hn N). now destruct (objects db).
    - apply mem_Z_in. now apply Hfd. }
  rewrite F. unfold without_dangled_objects, sql_delete, set_objects. cbn [fst].
  rewrite filter_all; [apply store_eta|].
  intros o Hin. apply negb_true_iff. rewrite <- not_true_iff_false, object_dangled_true.
  intros [R N]. specialize (Ho N o Hin). congruence.
Qed.

Lemma no_dangling_check db : no_dangling_check_b db = true -> no_dangling db.
Proof.
  unfold no_dangling_check_b. rewrite !andb_true_iff, !forallb_forall.
  intros [[[[Hd Hfd] Hfo] Ho] Hn]. repeat split.
  - intros d p Hin Hp. specialize (Hd d Hin). rewrite Hp in Hd. now apply mem_Z_in.
  - intros f Hin. apply mem_Z_in. now apply Hfd.
  - intros f oid Hin Hoid. specialize (Hfo f Hin). rewrite Hoid in Hfo.
    now apply has_object_in.
  - intros N o Hin. rewrite N in Ho. cbn in Ho.
    rewrite forallb_forall in Ho. now apply Ho.
  - intros N Hnil. rewrite N, Hnil in Hn. discriminate.
Qed.

(** X5. The stores that the [gc] command leaves as they are, are exactly
    those without dangling rows: every parent, directory and object that a
    row names is there, every object has a file unless some file has a null
    [object_id], and a file with a null [object_id] is there only beside at
    least one object (with an empty [Object] table the command deletes such
    a file, though it refers to nothing). *)
Theorem collect_garbage_fixed db t :
  run collect_garbage db t = (Return tt, db) <-> no_dangling db.
Proof.
  rewrite run_collect_garbage. split.
  - intros [= E]. rewrite <- E at 1. apply stages_no_dangling.
  - intros H. now rewrite stages_fixed.
Qed.

Lemma collect_garbage_fixed_witness :
  run collect_garbage triple_store [] = (Return tt, triple_store)
  /\ ~ no_dangling link_store.
Proof.
  split.
  - apply (proj2 (collect_garbage_fixed triple_store [])).
    apply no_dangling_check. vm_compute. reflexivity.
  - intros H. apply (proj2 (collect_garbage_fixed link_store [])) in H.
    vm_compute in H. discriminate.
Defined.

(** X6. The [gc] command is idempotent: run on the store that an earlier run
    committed, it commits that store again. *)
Theorem collect_garbage_idempotent db t t' :
  run collect_garbage (snd (run collect_garbage db t)) t'
  = run collect_garbage db t.
Proof.
  rewrite (run_collect_garbage db t). cbn [snd].
  rewrite run_collect_garbage. f_equal. apply stages_fixed.
  apply stages_no_dangling.
Qed.

(** ** Directories *)

Lemma flush_returns w w' :
  flush w = (Return tt, w') ->
  exists db0 db, w' = clean db0 db (out w) (fs w).
Proof.
  unfold flush, bind, get_conn. cbn.
  destruct (insert_objects (pending (conn w)) (objects (current (conn w)))) as [tbl|].
  - intros [= <-]. now eexists _, _.
  - discriminate.
Qed.

Lemma query_returns {A} (f : Store -> A) w a w' :
  query f w = (Return a, w') ->
  exists db0 db o t, w' = clean db0 db o t /\ a = f db.
Proof.
  unfold query, bind at 1. destruct (flush w) as [[[]|e] w1] eqn:F; [|discriminate].
  destruct (flush_returns _ _ F) as (db0 & db & ->).
  cbn. intros [= <- <-]. now eexists _, _, _, _.
Qed.

Lemma find_app_fresh {A} (p : A -> bool) l x :
  find p l = None -> p x = true -> find p (l ++ [x]) = Some x.
Proof.
  induction l as [|y l IH]; simpl; intros H Hx; [now rewrite Hx|].
  destruct (p y); [discriminate|]. now apply IH.
Qed.

Lemma path_eqb_refl p : path_eqb p p = true.
Proof.
  unfold path_eqb. now destruct (list_eq_dec string_dec p p).
Qed.

(** X7. Insert and look up: once [ensure_directory] has returned a row for a
    path, [get_directory] finds that row under the path, and a second
    [ensure_directory], whatever parent it is given, returns the same row
    and changes nothing. *)
Theorem ensure_directory_found p parent parent' w d b w' :
  ensure_directory p parent w = (Return (d, b), w') ->
  get_directory p w' = (Return (Some d), w')
  /\ ensure_directory p parent' w' = (Return (d, false), w').
Proof.
  unfold ensure_directory at 1, bind at 1, get_directory at 1.
  destruct (query (find_directory p) w) as [[r|e] w1] eqn:Q; [|discriminate].
  destruct (query_returns _ _ _ _ Q) as (db0 & db & o & t & -> & ->).
  assert (G : forall db1, find_directory p db1 = Some d ->
               get_directory p (clean db0 db1 o t) = (Return (Some d), clean db0 db1 o t)).
  { intros db1 Hf. unfold get_directory. rewrite query_clean. now rewrite Hf. }
  assert (K : forall db1, find_directory p db1 = Some d ->
               get_directory p (clean db0 db1 o t) = (Return (Some d), clean db0 db1 o t)
               /\ ensure_directory p parent' (clean db0 db1 o t)
                  = (Return (d, false), clean db0 db1 o t)).
  { intros db1 Hf. split; [now apply G|].
    unfold ensure_directory, bind. now rewrite (G db1 Hf). }
  destruct (find_directory p db) as [d0|] eqn:Hf.
  - intros [= <- <- <-]. now apply K.
  - cbn. intros [= <- <- <-]. apply K.
    unfold find_directory. cbn [directories set_directories].
    apply find_app_fresh; [exact Hf|]. cbn. apply path_eqb_refl.
Qed.

Lemma ensure_directory_found_witness :
  let r := ensure_directory ["a"%string] None busy_world in
  get_directory ["a"%string] (snd r)
  = (Return (Some (mkDirectory 3 ["a"%string] None)), snd r)
  /\ ensure_directory ["a"%string] (Some (mkDirectory 1 [] None)) (snd r)
     = (Return (mkDirectory 3 ["a"%string] None, false), snd r).
Proof.
  apply (ensure_directory_found ["a"%string] None (Some (mkDirectory 1 [] None))
           busy_world (mkDirectory 3 ["a"%string] None) true).
  reflexivity.
Defined.

(** ** The delete cascade *)

Lemma filter_length_lt {A} (p q : A -> bool) l x :
  (forall y, q y = true -> p y = true) ->
  In x l -> p x = true -> q x = false ->
  (List.length (filter q l) < List.length (filter p l))%nat.
Proof.
  intros Hqp. induction l as [|y l IH]; simpl; [contradiction|].
  assert (Hle : (List.length (filter q l) <= List.length (filter p l))%nat).
  { clear IH. induction l as [|z l IH]; simpl; [lia|].
    destruct (q z) eqn:Q; [rewrite (Hqp z Q); simpl; lia|].
    destruct (p z); simpl; lia. }
  intros [->|Hin] Hp Hq.
  - rewrite Hp, Hq. simpl. lia.
  - specialize (IH Hin Hp Hq). destruct (q y) eqn:Q.
    + rewrite (Hqp y Q). simpl. lia.
    + destruct (p y); simpl; lia.
Qed.

(** A set of ids is closed when it holds every child of its members. *)
Lemma subtree_ids_closed fuel : forall ids ds,
  (List.length (filter (fun d => negb (mem_Z (dir_id d) ids)) ds) <= fuel)%nat ->
  forall d p, In d ds -> dir_parent_id d = Some p ->
    In p (subtree_ids fuel ids ds) -> In (dir_id d) (subtree_ids fuel ids ds).
Proof.
  induction fuel as [|k IH]; intros ids ds Hlen d p Hin Hp Hmem.
  - cbn in *. destruct (mem_Z (dir_id d) ids) eqn:E; [now apply mem_Z_in|].
    exfalso.
    assert (Hd : In d (filter (fun d => negb (mem_Z (dir_id d) ids)) ds))
      by (apply filter_In; split; [exact Hin|now rewrite E]).
    destruct (filter _ ds); [contradiction|cbn in Hlen; lia].
  - cbn [subtree_ids] in *.
    set (child := fun d : Directory =>
           match dir_parent_id d with
           | Some p => mem_Z p ids && negb (mem_Z (dir_id d) ids)
           | None => false
           end) in *.
    destruct (filter child ds) as [|c cs] eqn:Enext.
    + destruct (mem_Z (dir_id d) ids) eqn:E; [now apply mem_Z_in|].
      exfalso.
      assert (Hd : In d (filter child ds)).
      { apply filter_In. split; [exact Hin|]. unfold child. rewrite Hp, E.
        now rewrite (proj2 (mem_Z_in p ids) Hmem). }
      now rewrite Enext in Hd.
    + rewrite <- Enext in *. apply (IH _ ds) with (p := p); try assumption.
      assert (Hc : In c (filter child ds)) by (rewrite Enext; now left).
      apply filter_In in Hc. destruct Hc as [Hcin Hchild].
      assert (Hout : negb (mem_Z (dir_id c) ids) = true).
      { unfold child in Hchild. destruct (dir_parent_id c); [|discriminate].
        now apply andb_true_iff in Hchild. }
      enough ((List.length (filter (fun d0 => negb (mem_Z (dir_id d0)
                                (ids ++ map dir_id (filter child ds)))) ds)
               < List.length (filter (fun d0 => negb (mem_Z (dir_id d0) ids)) ds))%nat)
        by lia.
      apply filter_length_lt with (x := c); [|exact Hcin|exact Hout|].
      * intros y Hy. apply negb_true_iff in Hy. apply negb_true_iff.
        apply not_true_iff_false. intros Hy'. apply not_true_iff_false in Hy.
        apply Hy. apply mem_Z_in. apply in_or_app. left. now apply mem_Z_in.
      * apply negb_false_iff, mem_Z_in, in_or_app. right.
        apply in_map. apply filter_In. now split.
Qed.

Lemma subtree_ids_incl fuel : forall ids ds x,
  In x ids -> In x (subtree_ids fuel ids ds).
Proof.
  induction fuel as [|k IH]; intros ids ds x H; [exact H|].
  cbn [subtree_ids]. destruct (filter _ ds) eqn:E; [exact H|].
  apply IH. apply in_or_app. now left.
Qed.

(** X8. The delete cascade of [conn.delete(cdir)] orphans nothing: the row
    and the files of the directory are gone; a directory that stays keeps
    its parent row, and a file that stays keeps its directory row, whenever
    that row was there before; the [Object] table is not touched. *)
Theorem delete_directory_cascade_closed id db :
  let db' := delete_directory_cascade id db in
  (forall d, In d (directories db') -> dir_id d <> id)
  /\ (forall f, In f (files db') -> file_path_id f <> id)
  /\ (forall d p, In d (directories db') -> dir_parent_id d = Some p ->
                  In p (dir_ids db) -> In p (dir_ids db'))
  /\ (forall f, In f (files db') ->
                In (file_path_id f) (dir_ids db) -> In (file_path_id f) (dir_ids db'))
  /\ objects db' = objects db.
Proof.
  cbv zeta. unfold delete_directory_cascade, dir_ids.
  set (ids := subtree_ids (List.length (directories db)) [id] (directories db)).
  cbn [directories files objects].
  assert (Hid : In id ids) by (apply subtree_ids_incl; now left).
  assert (Hkeep : forall p, In p (map dir_id (directories db)) -> ~ In p ids ->
            In p (map dir_id (filter (fun d => negb (mem_Z (dir_id d) ids))
                                (directories db)))).
  { intros p Hp Hout. apply in_map_iff in Hp. destruct Hp as [d' [<- Hd']].
    apply in_map. apply filter_In. split; [exact Hd'|].
    apply negb_true_iff, not_true_iff_false. now rewrite mem_Z_in. }
  repeat split.
  - intros d Hd <-. apply filter_In in Hd. destruct Hd as [_ Hd].
    apply negb_true_iff, not_true_iff_false in Hd. now rewrite mem_Z_in in Hd.
  - intros f Hf <-. apply filter_In in Hf. destruct Hf as [_ Hf].
    apply negb_true_iff, not_true_iff_false in Hf. now rewrite mem_Z_in in Hf.
  - intros d p Hd Hp Hin. apply Hkeep; [exact Hin|]. intros Hmem.
    apply filter_In in Hd. destruct Hd as [Hd Hout].
    apply negb_true_iff, not_true_iff_false in Hout. apply Hout, mem_Z_in.
    apply (subtree_ids_closed _ _ _) with (p := p); try assumption.
    pose proof (filter_split_length
                  (fun d0 => mem_Z (dir_id d0) [id]) (directories db)) as L.
    cbn beta in L. lia.
  - intros f Hf Hin. apply Hkeep; [exact Hin|].
    apply filter_In in Hf. destruct Hf as [_ Hf].
    apply negb_true_iff, not_true_iff_false in Hf. now rewrite mem_Z_in in Hf.
Qed.

Lemma subtree_ids_children fuel : forall ids ds x,
  In x (subtree_ids fuel ids ds) ->
  In x ids \/ exists d, In d ds /\ dir_id d = x /\ dir_parent_id d <> None.
Proof.
  induction fuel as [|k IH]; intros ids ds x H; [now left|].
  cbn [subtree_ids] in H.
  destruct (filter _ ds) as [|c cs] eqn:E; [now left|]. rewrite <- E in H.
  destruct (IH _ _ _ H) as [Hx|Hx]; [|now right].
  apply in_app_or in Hx. destruct Hx as [Hx|Hx]; [now left|right].
  apply in_map_iff in Hx. destruct Hx as [d [<- Hd]].
  apply filter_In in Hd. destruct Hd as [Hd Hc].
  exists d. repeat split; [exact Hd|]. now destruct (dir_parent_id d).
Qed.

Lemma nodup_map_injective {A B} (f : A -> B) l x y :
  NoDup (map f l) -> In x l -> In y l -> f x = f y -> x = y.
Proof.
  induction l as [|z l IH]; simpl; [contradiction|].
  intros N Hx Hy E. inversion N as [|? ? Hz N']; subst.
  destruct Hx as [->|Hx], Hy as [->|Hy]; try reflexivity.
  - exfalso. apply Hz. rewrite E. now apply in_map.
  - exfalso. apply Hz. rewrite <- E. now apply in_map.
  - now apply IH.
Qed.

(** X9. The delete cascade stays inside the subtree: with distinct directory
    ids, a directory whose [parent_id] is null (a root) and which is not the
    one deleted stays, and so does every file in it. *)
Theorem delete_directory_cascade_keeps_root id db d :
  NoDup (dir_ids db) ->
  In d (directories db) -> dir_parent_id d = None -> dir_id d <> id ->
  In d (directories (delete_directory_cascade id db))
  /\ forall f, In f (files db) -> file_path_id f = dir_id d ->
               In f (files (delete_directory_cascade id db)).
Proof.
  intros N Hd Hnull Hne. unfold delete_directory_cascade.
  set (ids := subtree_ids (List.length (directories db)) [id] (directories db)).
  cbn [directories files].
  assert (Hout : mem_Z (dir_id d) ids = false).
  { apply not_true_iff_false. rewrite mem_Z_in. intros Hin.
    destruct (subtree_ids_children _ _ _ _ Hin) as [[E|[]]|[d' [Hd' [E Hp]]]].
    - now apply Hne.
    - assert (d' = d) by (apply (nodup_map_injective dir_id (directories db)); assumption).
      subst d'. now apply Hp. }
  split.
  - apply filter_In. split; [exact Hd|]. now rewrite Hout.
  - intros f Hf E. apply filter_In. split; [exact Hf|]. now rewrite E, Hout.
Qed.

Lemma delete_directory_cascade_keeps_root_witness :
  In (mkDirectory 1 [] None) (directories (delete_directory_cascade 2 link_store))
  /\ forall f, In f (files link_store) -> file_path_id f = 1 ->
               In f (files (delete_directory_cascade 2 link_store)).
Proof.
  apply (delete_directory_cascade_keeps_root 2 link_store (mkDirectory 1 [] None)).
  - repeat constructor; simpl; intuition discriminate.
  - simpl. now left.
  - reflexivity.
  - discriminate.
Defined.

(** ** A new object *)

Lemma find_none_has_object oid db :
  find_object oid db = None -> has_object oid (objects db) = false.
Proof.
  unfold find_object, has_object. intros H.
  apply not_true_iff_false. rewrite existsb_exists. intros [x [Hin Hx]].
  now rewrite (find_none _ _ H x Hin) in Hx.
Qed.

(** X10. For a regular file whose identity is not in the [Object] table,
    [ensure_object] returns a new row built from the [stat] result, prints
    nothing, and a lookup by that identity then finds the row.  With a hash
    supplier the row is committed at once; without one its hash is null and
    nothing is committed. *)
Theorem ensure_object_new st get_hash passed db0 db o t :
  S_ISREG (st_mode st) = true ->
  find_object (oid_of st) db = None ->
  (forall p, passed = Some p -> obj_id p <> oid_of st) ->
  let hash := option_map (fun g => g tt) get_hash in
  let ob := mkObject (oid_of st) (st_size st) (st_mtime st) hash in
  let db' := set_objects db (objects db ++ [ob]) in
  exists w',
    ensure_object st get_hash passed (clean db0 db o t) = (Return (Some ob), w')
    /\ out w' = o /\ fs w' = t
    /\ committed (conn w') = (if is_some hash then db' else db0)
    /\ conn_get_object (oid_of st) w'
       = (Return (Some ob), clean (committed (conn w')) db' o t).
Proof.
  intros Hreg Hfind Hp hash ob db'.
  pose proof (find_none_has_object _ _ Hfind) as Hhas.
  assert (Hfound : find_object (oid_of st) db' = Some ob).
  { unfold find_object, db'. cbn [objects set_objects].
    apply find_app_fresh; [exact Hfind|]. cbn. apply String.eqb_refl. }
  unfold ensure_object. rewrite Hreg. cbn [negb].
  assert (E1 : (match passed with
                | Some o0 => if String.eqb (obj_id o0) (oid_of st)
                             then ret (Some o0) else conn_get_object (oid_of st)
                | None => conn_get_object (oid_of st)
                end) (clean db0 db o t) = (Return None, clean db0 db o t)).
  { unfold conn_get_object. destruct passed as [p|].
    - destruct (String.eqb (obj_id p) (oid_of st)) eqn:E.
      + apply String.eqb_eq in E. now destruct (Hp p eq_refl).
      + now rewrite query_clean, Hfind.
    - now rewrite query_clean, Hfind. }
  rewrite (bind_return _ _ _ _ _ E1). fold hash. fold ob.
  assert (F : flush (mkWorld (mkSession db0 db [ob]) o t)
              = (Return tt, clean db0 db' o t)).
  { unfold flush, bind, get_conn. cbn [conn pending current insert_objects].
    change (obj_id ob) with (oid_of st). rewrite Hhas. reflexivity. }
  assert (A : conn_add_object ob (clean db0 db o t)
              = (Return tt, mkWorld (mkSession db0 db [ob]) o t)) by reflexivity.
  rewrite (bind_return _ _ _ _ _ A).
  destruct hash as [h|] eqn:Eh.
  - exists (clean db' db' o t). repeat split.
    + cbn [when is_some is_none negb].
      assert (C : commit (mkWorld (mkSession db0 db [ob]) o t)
                  = (Return tt, clean db' db' o t)).
      { unfold commit. now rewrite (bind_return _ _ _ _ _ F). }
      now rewrite (bind_return _ _ _ _ _ C).
    + unfold conn_get_object. now rewrite query_clean, Hfound.
  - exists (mkWorld (mkSession db0 db [ob]) o t). repeat split.
    unfold conn_get_object, query. rewrite (bind_return _ _ _ _ _ F).
    unfold bind, get_conn, ret. cbn [conn current clean committed].
    now rewrite Hfound.
Qed.

Lemma ensure_object_new_witness :
  let ob := mkObject "1:7" 10 5 None in
  let db' := set_objects link_store (objects link_store ++ [ob]) in
  exists w',
    ensure_object (mkStat S_IFREG_644 1 7 10 5) None None
                  (clean link_store link_store [] [])
    = (Return (Some ob), w')
    /\ out w' = [] /\ fs w' = []
    /\ committed (conn w') = link_store
    /\ conn_get_object "1:7" w'
       = (Return (Some ob), clean (committed (conn w')) db' [] []).
Proof.
  apply (ensure_object_new (mkStat S_IFREG_644 1 7 10 5) None None
           link_store link_store [] []).
  - reflexivity.
  - reflexivity.
  - discriminate.
Defined.

(** X11. [delete_directory] removes the row of the path and nothing else:
    afterwards [get_directory] finds no row under the path, while the rows of
    the other directories (its own subdirectories among them), all files
    (those in the directory among them) and all objects stay. *)
Theorem delete_directory_no_cascade p db0 db o t :
  exists db',
    delete_directory p (clean db0 db o t) = (Return tt, clean db0 db' o t)
    /\ get_directory p (clean db0 db' o t) = (Return None, clean db0 db' o t)
    /\ (forall d, In d (directories db') <-> In d (directories db) /\ dir_path d <> p)
    /\ files db' = files db
    /\ objects db' = objects db.
Proof.
  exists (set_directories db
            (fst (sql_delete (fun d => Some (path_eqb (dir_path d) p)) (directories db)))).
  assert (Hp : forall d, path_eqb (dir_path d) p = true <-> dir_path d = p).
  { intros d. unfold path_eqb. destruct (list_eq_dec string_dec (dir_path d) p);
      split; congruence. }
  split; [now unfold delete_directory, bind; rewrite execute_delete_clean|].
  split; [|split; [intros d; split; [intros H; split|]|split; reflexivity]].
  - unfold get_directory. rewrite query_clean. f_equal.
    unfold find_directory. cbn [directories set_directories sql_delete fst].
    destruct (find _ _) as [d|] eqn:F; [|reflexivity].
    apply find_some in F. destruct F as [Hin Hd]. apply filter_In in Hin.
    destruct Hin as [_ Hn]. cbn in Hn. now rewrite Hd in Hn.
  - cbn [directories set_directories sql_delete fst] in H. now apply filter_In in H.
  - cbn [directories set_directories sql_delete fst] in H. apply filter_In in H.
    destruct H as [_ H]. cbn in H. intros E. apply Hp in E.
    now rewrite E in H.
  - intros [Hin Hne]. cbn [directories set_directories sql_delete fst]. apply filter_In.
    split; [exact Hin|]. cbn.
    destruct (path_eqb (dir_path d) p) eqn:E; [|reflexivity].
    now apply Hp in E.
Qed.

(** ** Object ids *)

Lemma digits_no_colon d : has_char ":" (NilEmpty.string_of_uint d) = false.
Proof. induction d; simpl; auto. Qed.

Lemma uint_no_colon d : has_char ":" (NilZero.string_of_uint d) = false.
Proof. destruct d; try apply digits_no_colon. reflexivity. Qed.

Lemma str_of_Z_no_colon z : has_char ":" (str_of_Z z) = false.
Proof.
  unfold str_of_Z, NilZero.string_of_int.
  destruct (Z.to_int z); simpl; apply uint_no_colon.
Qed.

Lemma str_of_Z_injective a b : str_of_Z a = str_of_Z b -> a = b.
Proof.
  assert (R : forall d, option_map Z.of_int
                          (NilZero.int_of_string (NilZero.string_of_int d))
                        = Some (Z.of_int d)).
  { intros [[| | | | | | | | | |]|[| | | | | | | | | |]];
      try (rewrite NilZero.isi; [reflexivity|discriminate|discriminate]).
    - now rewrite NilZero.isi_posnil.
    - now rewrite NilZero.isi_negnil. }
  unfold str_of_Z. intros H.
  apply (f_equal (fun s => option_map Z.of_int (NilZero.int_of_string s))) in H.
  rewrite !R, !DecimalZ.of_to in H. now injection H.
Qed.

Lemma split_at_char c s1 : forall s2 t1 t2,
  has_char c s1 = false -> has_char c s2 = false ->
  String.append s1 (String c t1) = String.append s2 (String c t2) ->
  s1 = s2 /\ t1 = t2.
Proof.
  induction s1 as [|a s1 IH]; intros [|b s2] t1 t2 H1 H2 E; simpl in *.
  - injection E as ->. now split.
  - injection E as -> _. now rewrite Ascii.eqb_refl in H2.
  - injection E as -> _. now rewrite Ascii.eqb_refl in H1.
  - injection E as -> E. apply orb_false_iff in H1, H2.
    destruct (IH s2 t1 t2) as [-> ->]; tauto.
Qed.

(** X12. Two [stat] results get the same object id exactly when their device
    and inode numbers agree: hard links share an [Object] row and nothing
    else does. *)
Theorem oid_of_injective s1 s2 :
  oid_of s1 = oid_of s2 <-> st_dev s1 = st_dev s2 /\ st_ino s1 = st_ino s2.
Proof.
  unfold oid_of. split.
  - intros E. apply split_at_char in E; try apply str_of_Z_no_colon.
    destruct E as [E1 E2]. split; now apply str_of_Z_injective.
  - intros [-> ->]. reflexivity.
Qed.

(** ** Finding files *)

Lemma found_leb_cases f1 o1 d1 f2 (o2 : Object) d2 :
  found_leb (f1, o1, d1) (f2, o2, d2) = true
  <-> String.ltb (path_str (dir_path d1)) (path_str (dir_path d2)) = true
      \/ (path_str (dir_path d1) = path_str (dir_path d2)
          /\ String.leb (file_name f1) (file_name f2) = true).
Proof.
  unfold found_leb. now rewrite orb_true_iff, andb_true_iff, String.eqb_eq.
Qed.

Lemma string_ltb_lt a b : String.ltb a b = true <-> String.compare a b = Lt.
Proof. unfold String.ltb. destruct (String.compare a b); split; congruence. Qed.

Lemma found_leb_total a b : found_leb a b = true \/ found_leb b a = true.
Proof.
  destruct a as [[f1 o1] d1], b as [[f2 o2] d2]. rewrite !found_leb_cases.
  rewrite !string_ltb_lt.
  destruct (String.compare (path_str (dir_path d1)) (path_str (dir_path d2))) eqn:E.
  - apply String.compare_eq_iff in E.
    destruct (String.leb_total (file_name f1) (file_name f2)) as [L|L]; auto.
  - auto.
  - right. left. rewrite String.compare_antisym, E. reflexivity.
Qed.

Lemma found_leb_trans a b c :
  found_leb a b = true -> found_leb b c = true -> found_leb a c = true.
Proof.
  destruct a as [[f1 o1] d1], b as [[f2 o2] d2], c as [[f3 o3] d3].
  rewrite !found_leb_cases, !string_ltb_lt.
  intros [H1|[E1 L1]] [H2|[E2 L2]].
  - left. now rewrite (string_compare_trans _ _ _ _ H1 H2).
  - left. now rewrite <- E2.
  - left. now rewrite E1.
  - right. split; [congruence|]. now apply string_leb_trans with (b := file_name f2).
Qed.

Lemma sql_like_percent p : forall a b,
  sql_like p b = true -> sql_like (String "%" p) (String.append a b) = true.
Proof.
  induction a as [|c a IH]; intros b H.
  - destruct b; cbn -[sql_like] in *; cbn; rewrite H; reflexivity.
  - specialize (IH b H). cbn in IH |- *. rewrite IH. apply orb_true_r.
Qed.

Lemma sql_like_any b : sql_like "%" b = true.
Proof. induction b as [|c b IH]; [reflexivity|]. cbn in *. exact IH. Qed.

Lemma sql_like_literal key : forall p b,
  has_char "%" key = false ->
  sql_like p b = true ->
  sql_like (String.append key p) (String.append key b) = true.
Proof.
  induction key as [|c key IH]; intros p b Hk H; [exact H|].
  cbn [has_char] in Hk. apply orb_false_iff in Hk. destruct Hk as [Hc Hk].
  cbn [String.append sql_like]. rewrite Hc, Ascii.eqb_refl, orb_true_r.
  now apply IH.
Qed.

Lemma like_key_substring key a b :
  has_char "%" key = false ->
  sql_like (like_key key) (String.append a (String.append key b)) = true.
Proof.
  intros Hk. unfold like_key. rewrite Hk.
  cbn [String.append]. apply sql_like_percent.
  apply sql_like_literal; [exact Hk|apply sql_like_any].
Qed.

Lemma found_rows_in skey db f ob d :
  In (f, ob, d) (found_rows skey db)
  <-> In f (files db) /\ In ob (objects db) /\ In d (directories db)
      /\ file_object_id f = Some (obj_id ob)
      /\ file_path_id f = dir_id d
      /\ sql_like skey (file_name f) = true.
Proof.
  unfold found_rows. rewrite in_flat_map. split.
  - intros [f' [Hf H]]. apply filter_In in Hf. destruct Hf as [Hf Hl].
    apply in_flat_map in H. destruct H as [o' [Ho H]].
    apply filter_In in Ho. destruct Ho as [Ho Hid].
    apply in_map_iff in H. destruct H as [d' [E Hd]].
    injection E as -> -> ->. apply filter_In in Hd. destruct Hd as [Hd Hp].
    apply Z.eqb_eq in Hp. repeat split; try assumption; [|now symmetry].
    destruct (file_object_id f) as [x|]; [|discriminate].
    cbn in Hid. apply String.eqb_eq in Hid. now subst.
  - intros (Hf & Ho & Hd & Hid & Hp & Hl). exists f. split.
    + apply filter_In. now split.
    + apply in_flat_map. exists ob. split.
      * apply filter_In. split; [exact Ho|]. rewrite Hid. cbn. apply String.eqb_refl.
      * apply in_map. apply filter_In. split; [exact Hd|]. apply Z.eqb_eq. now symmetry.
Qed.

Lemma strongly_sorted_image {A B} (R : A -> A -> Prop) (Q : B -> B -> Prop)
    (f : A -> B) l :
  (forall a b, R a b -> Q (f a) (f b)) ->
  StronglySorted R l -> StronglySorted Q (map f l).
Proof.
  intros H. induction 1 as [|x l Hs IH Hx]; simpl; constructor; [exact IH|].
  rewrite Forall_forall in *. intros y Hy. apply in_map_iff in Hy.
  destruct Hy as [z [<- Hz]]. apply H. now apply Hx.
Qed.

Lemma find_files_clean key db0 db o t :
  find_files key (clean db0 db o t)
  = (Return (map found_item (sort_by found_leb (found_rows (like_key key) db))),
     clean db0 db o t).
Proof. unfold find_files. now rewrite (bind_return _ _ _ _ _ (query_clean _ _ _ _ _)). Qed.

(** X13. [find_files] changes nothing and lists, ordered by directory path and
    then by file name, exactly the triples (name, path, size) of the files
    whose name is [LIKE] the key and whose [Object] row and [Directory] row
    both exist; a file with a null [object_id] is never listed. *)
Theorem find_files_listing key db0 db o t :
  exists items,
    find_files key (clean db0 db o t) = (Return items, clean db0 db o t)
    /\ StronglySorted item_le items
    /\ forall n p s,
         In (n, p, s) items
         <-> exists f ob d,
               In f (files db) /\ In ob (objects db) /\ In d (directories db)
               /\ file_object_id f = Some (obj_id ob)
               /\ file_path_id f = dir_id d
               /\ sql_like (like_key key) (file_name f) = true
               /\ n = file_name f /\ p = path_str (dir_path d) /\ s = obj_size ob.
Proof.
  eexists. split; [apply find_files_clean|]. split.
  - apply strongly_sorted_image with (R := fun a b => found_leb a b = true).
    + intros [[f1 o1] d1] [[f2 o2] d2] H. apply found_leb_cases in H. exact H.
    + apply sort_by_strongly; [exact found_leb_trans|exact found_leb_total].
  - intros n p s. rewrite in_map_iff. split.
    + intros [[[f ob] d] [E H]]. injection E as <- <- <-.
      apply sort_by_in in H. apply found_rows_in in H.
      exists f, ob, d. intuition.
    + intros (f & ob & d & Hf & Ho & Hd & Hid & Hp & Hl & -> & -> & ->).
      exists (f, ob, d). split; [reflexivity|].
      apply sort_by_in. apply found_rows_in. intuition.
Qed.

(** X14. A key without [%] finds every name that contains it: whatever stands
    before and after the key in the name, a file with its [Object] and
    [Directory] rows is in the listing of [find_files]. *)
Theorem find_files_substring key a b f ob d db0 db o t :
  has_char "%" key = false ->
  In f (files db) -> In ob (objects db) -> In d (directories db) ->
  file_object_id f = Some (obj_id ob) ->
  file_path_id f = dir_id d ->
  file_name f = String.append a (String.append key b) ->
  exists items,
    find_files key (clean db0 db o t) = (Return items, clean db0 db o t)
    /\ In (file_name f, path_str (dir_path d), obj_size ob) items.
Proof.
  intros Hk Hf Ho Hd Hid Hp Hn.
  eexists. split; [apply find_files_clean|].
  apply in_map_iff. exists (f, ob, d). split; [reflexivity|].
  apply sort_by_in. apply found_rows_in. repeat split; try assumption.
  rewrite Hn. now apply like_key_substring.
Qed.

Lemma find_files_substring_witness :
  exists items,
    find_files "a" (clean triple_store triple_store [] [])
    = (Return items, clean triple_store triple_store [] [])
    /\ In ("a"%string, "."%string, 1) items.
Proof.
  apply (find_files_substring "a" "" "" (mkFile 1 1 "a" S_IFREG_644 (Some "1:7"%string))
           (mkObject "1:7" 1 10 (Some (sha256 "x"%string))) (mkDirectory 1 [] None)
           triple_store triple_store [] []).
  - reflexivity.
  - simpl. now left.
  - simpl. now left.
  - simpl. now left.
  - reflexivity.
  - reflexivity.
  - reflexivity.
Defined.

(** ** Removing duplicates *)

Lemma delete_file_clean file db0 db o t :
  delete_file file (clean db0 db o t)
  = let db' := delete_file_row (file_id file) db in
    match file_path_in db file with
    | None => (Raise AttributeError, clean db db o t)
    | Some name =>
        match fs_lookup name t with
        | Some (FsRegular _) => (Return tt, clean db' db' o (fs_without name t))
        | None => (Return tt, clean db' db' o t)
        | Some (FsProtected _) => (Raise (OSError PermissionError), clean db db o t)
        | Some FsDirectory => (Raise (OSError IsADirectoryError), clean db db o t)
        end
    end.
Proof.
  cbv zeta. unfold delete_file.
  rewrite (bind_return _ _ _ _ _ (commit_clean _ _ _ _)).
  rewrite (bind_return _ _ _ _ _ (execute_clean _ _ _ _ _)).
  unfold bind at 1, try_except at 1.
  unfold bind at 1. rewrite get_path_clean.
  rewrite file_path_in_delete_file_row.
  destruct (file_path_in db file) as [name|]; [|reflexivity].
  unfold os_remove. cbn [fs clean conn out].
  destruct (fs_lookup name t) as [[c|c|]|].
  - exact (commit_clean db _ o (fs_without name t)).
  - reflexivity.
  - reflexivity.
  - exact (commit_clean db _ o t).
Qed.


Lemma shrinks_trans a b db1 db2 db3 :
  shrinks a db1 db2 -> shrinks b db2 db3 -> shrinks (a ++ b) db1 db3.
Proof.
  intros (D1 & S1 & F1) (D2 & S2 & F2). repeat split.
  - congruence.
  - auto.
  - intros f Hf Hn. apply F2; [apply F1; [exact Hf|]|];
      intros H; apply Hn, in_or_app; auto.
Qed.

Lemma gone_shrinks a b db db' : gone a db -> shrinks b db db' -> gone a db'.
Proof. intros G (_ & S & _) f Hf. apply G. now apply S. Qed.

Lemma gone_app a b db : gone a db -> gone b db -> gone (a ++ b) db.
Proof.
  intros Ga Gb f Hf H. apply in_app_or in H.
  destruct H; [now apply (Ga f)|now apply (Gb f)].
Qed.

Lemma unlinks_refl names t : unlinks names t t.
Proof. intros name _. reflexivity. Qed.

Lemma unlinks_trans a b t1 t2 t3 :
  unlinks a t1 t2 -> unlinks b t2 t3 -> unlinks (a ++ b) t1 t3.
Proof.
  intros U1 U2 name Hn. rewrite U2, U1; [reflexivity| |];
    intros H; apply Hn, in_or_app; auto.
Qed.

Lemma fs_lookup_other name n t :
  name <> n -> fs_lookup name (fs_without n t) = fs_lookup name t.
Proof.
  intros Hne. unfold fs_lookup, fs_without. f_equal.
  induction t as [|e t IH]; simpl; [reflexivity|].
  destruct (String.eqb (fst e) n) eqn:E; simpl.
  - apply String.eqb_eq in E.
    destruct (String.eqb (fst e) name) eqn:E'; [|exact IH].
    apply String.eqb_eq in E'. congruence.
  - destruct (String.eqb (fst e) name); [reflexivity|exact IH].
Qed.

Lemma file_path_in_directories db db' file :
  directories db' = directories db -> file_path_in db' file = file_path_in db file.
Proof. intros E. unfold file_path_in, find_directory_by_id. now rewrite E. Qed.

Lemma delete_file_step file c d o t r w' :
  delete_file file (clean c d o t) = (r, w') ->
  exists c' d' o' t',
    w' = clean c' d' o' t'
    /\ shrinks [file_id file] d d' /\ objects d' = objects d
    /\ unlinks [file_path_in d file] t t'
    /\ (r = Return tt -> gone [file_id file] d').
Proof.
  rewrite delete_file_clean. cbv zeta.
  assert (S : shrinks [file_id file] d (delete_file_row (file_id file) d)).
  { repeat split.
    - intros f Hf. now apply delete_file_row_removes in Hf.
    - intros f Hf Hn. apply delete_file_row_removes. split; [exact Hf|].
      intros E. apply Hn. now left. }
  assert (G : gone [file_id file] (delete_file_row (file_id file) d)).
  { intros f Hf [E|[]]. apply delete_file_row_removes in Hf.
    destruct Hf as [_ Hf]. now apply Hf. }
  destruct (file_path_in d file) as [name|].
  - destruct (fs_lookup name t) as [[x|x|]|]; intros [= <- <-];
      eexists _, _, _, _; (split; [reflexivity|]);
      repeat split; try discriminate; try apply S; try apply unlinks_refl; auto.
    intros n Hn. apply fs_lookup_other. intros E. apply Hn. subst. simpl. auto.
  - intros [= <- <-]. eexists _, _, _, _. split; [reflexivity|].
    repeat split; try discriminate; auto.
Qed.

Lemma unlinks_paths db db' names t t' :
  directories db' = directories db ->
  unlinks (map (file_path_in db') names) t t' ->
  unlinks (map (file_path_in db) names) t t'.
Proof.
  intros E U. erewrite map_ext; [exact U|].
  intros f. symmetry. now apply file_path_in_directories.
Qed.

Lemma remove_group_step keep group : forall c d o t r w',
  for_each group (fun file => when (negb (file_id file =? keep)) (delete_file file))
           (clean c d o t) = (r, w') ->
  let tg := filter (fun file => negb (file_id file =? keep)) group in
  exists c' d' o' t',
    w' = clean c' d' o' t'
    /\ shrinks (map file_id tg) d d' /\ objects d' = objects d
    /\ unlinks (map (file_path_in d) tg) t t'
    /\ (r = Return tt -> gone (map file_id tg) d').
Proof.
  induction group as [|file group IH]; intros c d o t r w'; cbn [for_each filter].
  - intros [= <- <-]. eexists _, _, _, _. split; [reflexivity|].
    repeat split; auto. intros _ f _ [].
  - unfold bind at 1. destruct (negb (file_id file =? keep)) eqn:K; cbn [when].
    + destruct (delete_file file (clean c d o t)) as [r1 w1] eqn:D.
      destruct (delete_file_step _ _ _ _ _ _ _ D)
        as (c1 & d1 & o1 & t1 & -> & S1 & O1 & U1 & G1).
      destruct r1 as [[]|e].
      * intros H. destruct (IH _ _ _ _ _ _ H)
          as (c2 & d2 & o2 & t2 & -> & S2 & O2 & U2 & G2).
        eexists _, _, _, _. split; [reflexivity|]. cbn [map].
        split; [exact (shrinks_trans [file_id file] _ _ _ _ S1 S2)|].
        split; [congruence|]. split.
        -- apply (unlinks_trans [file_path_in d file] _ _ _ _ U1).
           apply unlinks_paths with (db' := d1); [apply S1|exact U2].
        -- intros ->. apply (gone_app [file_id file]); [|now apply G2].
           apply gone_shrinks with (db := d1) (b := map file_id
             (filter (fun file0 => negb (file_id file0 =? keep)) group));
             [now apply G1|exact S2].
      * intros [= <- <-]. eexists _, _, _, _. split; [reflexivity|].
        cbn [map]. split; [|split; [exact O1|split; [|discriminate]]].
        -- destruct S1 as (D1 & I1 & F1). repeat split; auto.
           intros f Hf Hn. apply F1; [exact Hf|].
           intros [H|[]]. apply Hn. now left.
        -- intros n Hn. apply U1. intros [H|[]]. apply Hn. now left.
    + cbn [ret]. apply IH.
Qed.

Lemma remove_selection_step duplicates selection : forall c d o t r w',
  for_each selection (fun sel =>
    match dict_get (fst sel) duplicates with
    | None => raise KeyError
    | Some group =>
        for_each group (fun file =>
          when (negb (file_id file =? snd sel)) (delete_file file))
    end) (clean c d o t) = (r, w') ->
  let tg := removal_targets duplicates selection in
  exists c' d' o' t',
    w' = clean c' d' o' t'
    /\ shrinks (map file_id tg) d d' /\ objects d' = objects d
    /\ unlinks (map (file_path_in d) tg) t t'
    /\ (r = Return tt -> gone (map file_id tg) d').
Proof.
  induction selection as [|sel selection IH]; intros c d o t r w';
    cbn [for_each removal_targets flat_map].
  - intros [= <- <-]. eexists _, _, _, _. split; [reflexivity|].
    repeat split; auto. intros _ f _ [].
  - unfold bind at 1. fold (removal_targets duplicates selection).
    destruct (dict_get (fst sel) duplicates) as [group|].
    + destruct (for_each group _ (clean c d o t)) as [r1 w1] eqn:D.
      destruct (remove_group_step _ _ _ _ _ _ _ _ D)
        as (c1 & d1 & o1 & t1 & -> & S1 & O1 & U1 & G1).
      rewrite !map_app. destruct r1 as [[]|e].
      * intros H. destruct (IH _ _ _ _ _ _ H)
          as (c2 & d2 & o2 & t2 & -> & S2 & O2 & U2 & G2).
        eexists _, _, _, _. split; [reflexivity|].
        split; [exact (shrinks_trans _ _ _ _ _ S1 S2)|].
        split; [congruence|]. split.
        -- apply (unlinks_trans _ _ _ _ _ U1).
           apply unlinks_paths with (db' := d1); [apply S1|exact U2].
        -- intros ->. apply gone_app; [|now apply G2].
           eapply gone_shrinks; [now apply G1|exact S2].
      * intros [= <- <-]. eexists _, _, _, _. split; [reflexivity|].
        split; [|split; [exact O1|split; [|discriminate]]].
        -- destruct S1 as (D1 & I1 & F1). repeat split; auto.
           intros f Hf Hn. apply F1; [exact Hf|].
           intros H. apply Hn. apply in_or_app. now left.
        -- intros n Hn. apply U1. intros H. apply Hn. apply in_or_app. now left.
    + intros [= <- <-]. eexists _, _, _, _. split; [reflexivity|].
      cbn [app]. split; [|split; [reflexivity|split; [|discriminate]]].
      * repeat split; auto.
      * apply unlinks_refl.
Qed.

(** X15. [remove_duplicates] touches only what the selection names.  Whether it
    returns or raises: the directories are as before, no file row is added,
    every file row whose id is not that of a file to remove is still in the
    index, and every path that is not the path of a file to remove is on disk
    as before.  When it returns, no file row with the id of a file to remove
    is left. *)
Theorem remove_duplicates_frame duplicates selection db0 db o t :
  let tg := removal_targets duplicates selection in
  let r := remove_duplicates duplicates selection (clean db0 db o t) in
  let db' := current (conn (snd r)) in
  shrinks (map file_id tg) db db'
  /\ unlinks (map (file_path_in db) tg) t (fs (snd r))
  /\ (fst r = Return tt -> gone (map file_id tg) db' /\ committed (conn (snd r)) = db').
Proof.
  cbv zeta.
  destruct (remove_duplicates duplicates selection (clean db0 db o t)) as [r w'] eqn:Run.
  unfold remove_duplicates in Run. unfold bind at 1 in Run.
  destruct (for_each selection _ (clean db0 db o t)) as [r1 w1] eqn:D.
  destruct (remove_selection_step _ _ _ _ _ _ _ _ D)
    as (c1 & d1 & o1 & t1 & -> & S1 & O1 & U1 & G1).
  destruct r1 as [[]|e].
  - destruct (delete_dangled_objects_clean c1 d1 o1 t1) as [o2 E].
    rewrite (bind_return _ _ _ _ _ E), commit_clean in Run.
    injection Run as <- <-. cbn [fst snd conn current clean fs committed].
    split; [|split; [exact U1|intros _; split; [|reflexivity]]].
    + destruct S1 as (D1 & I1 & F1). repeat split; auto.
    + intros f Hf. now apply (G1 eq_refl f).
  - injection Run as <- <-. cbn [fst snd conn current clean fs].
    split; [exact S1|split; [exact U1|discriminate]].
Qed.

(** ** Finding duplicates *)

Lemma same_but_hash_refl tbl : Forall2 same_but_hash tbl tbl.
Proof. induction tbl; constructor; [repeat split; auto|assumption]. Qed.

Lemma same_but_hash_trans t1 : forall t2 t3,
  Forall2 same_but_hash t1 t2 -> Forall2 same_but_hash t2 t3 ->
  Forall2 same_but_hash t1 t3.
Proof.
  induction t1 as [|a t1 IH]; intros t2 t3 H1 H2; inversion H1; subst;
    inversion H2; subst; constructor; [|now apply IH with (t2 := l')].
  destruct H3 as (I1 & S1 & M1 & K1), H4 as (I2 & S2 & M2 & K2).
  repeat split; try congruence.
  intros Hh. rewrite K2, K1; auto. now rewrite K1.
Qed.

Lemma same_but_hash_ids t1 t2 :
  Forall2 same_but_hash t1 t2 -> map obj_id t2 = map obj_id t1.
Proof. induction 1 as [|a b t1 t2 H _ IH]; simpl; [reflexivity|]. f_equal; [apply H|exact IH]. Qed.

Lemma fills_hashes_refl db : fills_hashes db db.
Proof. repeat split. apply same_but_hash_refl. Qed.

Lemma fills_hashes_trans db1 db2 db3 :
  fills_hashes db1 db2 -> fills_hashes db2 db3 -> fills_hashes db1 db3.
Proof.
  intros (D1 & F1 & O1) (D2 & F2 & O2). repeat split; try congruence.
  now apply same_but_hash_trans with (t2 := objects db2).
Qed.

Lemma set_object_hash_fills db ob h :
  NoDup (map obj_id (objects db)) ->
  find_object (obj_id ob) db = Some ob -> obj_hash ob = None ->
  fills_hashes db (set_object_hash (obj_id ob) h db).
Proof.
  intros Hnd Hfind Hnone. unfold fills_hashes, set_object_hash.
  cbn [directories files objects set_objects]. repeat split.
  assert (Hone : forall o, In o (objects db) -> obj_id o = obj_id ob -> o = ob).
  { intros o Hin E. pose proof (find_nodup _ _ Hnd Hin) as F. rewrite E in F.
    unfold find_object in Hfind. congruence. }
  revert Hone. generalize (objects db). intros tbl.
  induction tbl as [|o tbl IH]; intros Hone; simpl; constructor.
  - destruct (String.eqb (obj_id o) (obj_id ob)) eqn:E.
    + apply String.eqb_eq in E. rewrite (Hone o (or_introl eq_refl) E).
      repeat split. simpl. congruence.
    + repeat split; auto.
  - apply IH. intros o' Hin. apply Hone. now right.
Qed.

Lemma calculate_hash_clean name db0 db o t :
  calculate_hash name (clean db0 db o t)
  = (match fs_lookup name t with
     | None => Raise (OSError FileNotFoundError)
     | Some (FsRegular c) => Return (sha256 c)
     | Some (FsProtected c) => Return (sha256 c)
     | Some FsDirectory => Raise (OSError IsADirectoryError)
     end, clean db0 db o t).
Proof.
  unfold calculate_hash. cbn [fs clean].
  now destruct (fs_lookup name t) as [[x|x|]|].
Qed.

Lemma find_duplicates_step_fills d it c db o t r w' :
  NoDup (map obj_id (objects db)) ->
  find_duplicates_step d it (clean c db o t) = (r, w') ->
  exists c' db', w' = clean c' db' o t /\ fills_hashes db db'.
Proof.
  intros Hnd. unfold find_duplicates_step.
  rewrite (bind_return _ _ _ _ _ (query_clean _ _ _ _ _)).
  destruct (find_object (obj_id (snd it)) db) as [obj|] eqn:F.
  2:{ intros [= <- <-]. exists c, db. split; [reflexivity|apply fills_hashes_refl]. }
  pose proof (find_object_id _ _ _ F) as Hid. rewrite <- Hid in F.
  destruct (obj_hash obj) as [h|] eqn:Hh.
  - intros [= <- <-]. exists c, db. split; [reflexivity|apply fills_hashes_refl].
  - unfold bind at 1. unfold bind at 1. rewrite get_path_clean.
    destruct (file_path_in db (fst it)) as [name|].
    2:{ intros [= <- <-]. exists c, db. split; [reflexivity|apply fills_hashes_refl]. }
    unfold bind at 1. rewrite calculate_hash_clean.
    assert (Hset : forall h,
      (execute (set_object_hash (obj_id obj) h) ;; commit ;; ret h) (clean c db o t)
      = (Return h, clean (set_object_hash (obj_id obj) h db)
                         (set_object_hash (obj_id obj) h db) o t)).
    { intros h. rewrite (bind_return _ _ _ _ _ (execute_clean _ _ _ _ _)).
      now rewrite (bind_return _ _ _ _ _ (commit_clean _ _ _ _)). }
    destruct (fs_lookup name t) as [[x|x|]|]; try rewrite Hset;
      intros [= <- <-]; eexists _, _; (split; [reflexivity|]);
      try apply fills_hashes_refl; now apply set_object_hash_fills.
Qed.

Lemma fold_find_duplicates_fills items : forall d c db o t r w',
  NoDup (map obj_id (objects db)) ->
  fold_m items find_duplicates_step d (clean c db o t) = (r, w') ->
  exists c' db', w' = clean c' db' o t /\ fills_hashes db db'.
Proof.
  induction items as [|it items IH]; intros d c db o t r w' Hnd; cbn [fold_m].
  - intros [= <- <-]. exists c, db. split; [reflexivity|apply fills_hashes_refl].
  - unfold bind at 1.
    destruct (find_duplicates_step d it (clean c db o t)) as [r1 w1] eqn:S.
    destruct (find_duplicates_step_fills _ _ _ _ _ _ _ _ Hnd S)
      as (c1 & db1 & -> & F1).
    destruct r1 as [d1|e].
    + intros H. apply IH in H.
      * destruct H as (c2 & db2 & -> & F2). exists c2, db2.
        split; [reflexivity|]. now apply fills_hashes_trans with (db2 := db1).
      * rewrite (same_but_hash_ids _ _ (proj2 (proj2 F1))). exact Hnd.
    + intros [= <- <-]. now exists c1, db1.
Qed.

(** X16. [find_duplicates] only fills in hashes.  With distinct object ids,
    and whether it returns or raises: the console and the files on disk are
    as before, the directories and the file rows are as before, and the
    object rows are the same row by row, except that hashes that were null
    may now be set; a hash that was known is never computed again. *)
Theorem find_duplicates_fills_hashes db0 db o t :
  NoDup (map obj_id (objects db)) ->
  let w' := snd (find_duplicates (clean db0 db o t)) in
  fills_hashes db (current (conn w')) /\ out w' = o /\ fs w' = t
  /\ pending (conn w') = [].
Proof.
  intros Hnd. cbv zeta.
  destruct (find_duplicates (clean db0 db o t)) as [r w'] eqn:Run.
  unfold find_duplicates in Run.
  rewrite (bind_return _ _ _ _ _ (query_clean _ _ _ _ _)) in Run.
  unfold bind at 1 in Run.
  destruct (fold_m _ _ _ _) as [r1 w1] eqn:Fold.
  destruct (fold_find_duplicates_fills _ _ _ _ _ _ _ _ Hnd Fold)
    as (c1 & db1 & -> & F1).
  destruct r1; injection Run as <- <-; cbn [snd conn current clean out fs pending];
    auto.
Qed.

Lemma find_duplicates_fills_hashes_witness :
  let w' := snd (find_duplicates (clean mixed_store mixed_store [] mixed_files)) in
  fills_hashes mixed_store (current (conn w')) /\ out w' = [] /\ fs w' = mixed_files
  /\ pending (conn w') = [].
Proof.
  apply (find_duplicates_fills_hashes mixed_store mixed_store [] mixed_files).
  repeat constructor; simpl; intuition discriminate.
Defined.

Lemma joined_rows_in db f ob :
  In (f, ob) (joined_rows db)
  <-> In f (files db) /\ In ob (objects db)
      /\ file_object_id f = Some (obj_id ob)
      /\ size_is_shared db (obj_size ob) = true.
Proof.
  unfold joined_rows. rewrite in_flat_map. split.
  - intros [o' [Ho H]]. destruct (size_is_shared db (obj_size o')) eqn:S; [|contradiction].
    apply in_map_iff in H. destruct H as [f' [E Hf]]. injection E as -> ->.
    apply filter_In in Hf. destruct Hf as [Hf Hid].
    repeat split; try assumption.
    destruct (file_object_id f) as [x|]; [|discriminate].
    cbn in Hid. apply String.eqb_eq in Hid. now subst.
  - intros (Hf & Ho & Hid & S). exists ob. split; [exact Ho|]. rewrite S.
    apply (in_map (fun f0 => (f0, ob))). apply filter_In.
    split; [exact Hf|]. rewrite Hid. cbn. apply String.eqb_refl.
Qed.

Lemma find_duplicates_step_appends d it w d' w' :
  find_duplicates_step d it w = (Return d', w') ->
  exists h, d' = dict_append h (fst it) d.
Proof.
  unfold find_duplicates_step, bind.
  destruct (query _ w) as [[[obj|]|e] w1]; try discriminate.
  destruct (match obj_hash obj with Some h => ret h | None => _ end w1)
    as [[h|e] w2]; [|discriminate].
  intros [= <- <-]. now exists h.
Qed.

Lemma nodup_map_filter {A B} (f : A -> B) (p : A -> bool) l :
  NoDup (map f l) -> NoDup (map f (filter p l)).
Proof.
  induction l as [|x l IH]; simpl; intros H; [constructor|].
  inversion H as [|? ? Hx Hl]; subst. destruct (p x); simpl; [|now apply IH].
  constructor; [|now apply IH]. intros Hin. apply Hx.
  apply in_map_iff in Hin. destruct Hin as [y [E Hy]]. apply filter_In in Hy.
  rewrite <- E. apply in_map. tauto.
Qed.

Lemma fold_find_duplicates_groups (P : File -> Prop) items : forall d w d' w',
  (forall it, In it items -> P (fst it)) ->
  NoDup (map fst d) -> (forall g f, In g d -> In f (snd g) -> P f) ->
  fold_m items find_duplicates_step d w = (Return d', w') ->
  NoDup (map fst d') /\ (forall g f, In g d' -> In f (snd g) -> P f).
Proof.
  induction items as [|it items IH]; intros d w d' w' Hit Hnd HP; cbn [fold_m].
  - intros [= <- <-]. now split.
  - unfold bind at 1.
    destruct (find_duplicates_step d it w) as [[d1|e] w1] eqn:S; [|discriminate].
    destruct (find_duplicates_step_appends _ _ _ _ _ S) as [h ->].
    apply IH.
    + intros it' Hin. apply Hit. now right.
    + destruct (dict_append_keys h (fst it) d) as [[E _]|[E Hn]]; rewrite E.
      * exact Hnd.
      * apply NoDup_app; [exact Hnd|repeat constructor; intros []|].
        intros k Hk [<-|[]]. now apply Hn.
    + intros g f Hg Hf.
      destruct (dict_append_in _ _ _ _ Hnd Hg) as [[_ Hin]|[[_ [vs [Hin E]]]|[_ [_ E]]]].
      * now apply (HP g f).
      * rewrite E in Hf. apply in_app_or in Hf. destruct Hf as [Hf|[<-|[]]].
        -- now apply (HP (h, vs) f).
        -- apply Hit. now left.
      * rewrite E in Hf. destruct Hf as [<-|[]]. apply Hit. now left.
Qed.

Lemma another_row {A} (f : A -> string) l x :
  NoDup (map f l) -> (1 < List.length l)%nat -> exists y, In y l /\ f y <> f x.
Proof.
  destruct l as [|a [|b r]]; cbn [List.length]; try lia. intros Hnd _.
  inversion Hnd as [|? ? Ha _]; subst.
  destruct (string_dec (f a) (f x)) as [E|N].
  - exists b. split; [right; now left|]. intros Eb. apply Ha. left. congruence.
  - exists a. split; [now left|exact N].
Qed.

Lemma shared_size_other db ob :
  NoDup (map obj_id (objects db)) ->
  size_is_shared db (obj_size ob) = true ->
  exists ob', In ob' (objects db)
              /\ obj_id ob' <> obj_id ob /\ obj_size ob' = obj_size ob.
Proof.
  intros Hnd Hs. unfold size_is_shared in Hs. apply Nat.ltb_lt in Hs.
  destruct (another_row obj_id _ ob (nodup_map_filter obj_id _ _ Hnd) Hs)
    as [ob' [Hin Hne]].
  apply filter_In in Hin. destruct Hin as [Hin Hsize]. apply Z.eqb_eq in Hsize.
  exists ob'. auto.
Qed.

(** X17. Whenever [find_duplicates] returns on a table with distinct object
    ids, its groups have distinct hashes and at least two files each, and
    every file in a group is a [File] row whose [object_id] names an
    [Object] row of the same size as some other [Object] row; a file with a
    null [object_id] is in no group. *)
Theorem find_duplicates_groups db0 db o t d w' :
  NoDup (map obj_id (objects db)) ->
  find_duplicates (clean db0 db o t) = (Return d, w') ->
  NoDup (map fst d)
  /\ forall k group, In (k, group) d ->
       (2 <= List.length group)%nat
       /\ forall f, In f group ->
            In f (files db)
            /\ exists ob ob',
                 In ob (objects db) /\ file_object_id f = Some (obj_id ob)
                 /\ In ob' (objects db) /\ obj_id ob' <> obj_id ob
                 /\ obj_size ob' = obj_size ob.
Proof.
  intros Hids. unfold find_duplicates.
  rewrite (bind_return _ _ _ _ _ (query_clean _ _ _ _ _)).
  unfold bind at 1.
  destruct (fold_m _ _ _ _) as [[d1|e] w1] eqn:Fold; [|discriminate].
  intros [= <- <-].
  apply fold_find_duplicates_groups
    with (P := fun f => In f (files db)
                        /\ exists ob ob',
                             In ob (objects db) /\ file_object_id f = Some (obj_id ob)
                             /\ In ob' (objects db) /\ obj_id ob' <> obj_id ob
                             /\ obj_size ob' = obj_size ob) in Fold.
  - destruct Fold as [Hnd HP]. split; [now apply nodup_map_filter|].
    intros k group Hin. apply filter_In in Hin. destruct Hin as [Hin Hlen].
    cbn [snd] in Hlen. apply Nat.ltb_lt in Hlen. split; [lia|].
    intros f Hf. now apply (HP (k, group) f).
  - intros [f ob] Hin. unfold duplicate_candidates in Hin.
    apply sort_by_in in Hin. apply joined_rows_in in Hin. cbn [fst].
    destruct Hin as (Hf & Hob & Hid & Hshared). split; [exact Hf|].
    destruct (shared_size_other db ob Hids Hshared) as [ob' (Hin' & Hne & Hsize)].
    exists ob, ob'. auto.
  - constructor.
  - intros g f [].
Qed.

Lemma find_duplicates_groups_witness :
  let r := find_duplicates (clean sized_store sized_store [] sized_files) in
  let d := match fst r with Return d => d | Raise _ => [] end in
  NoDup (map fst d)
  /\ forall k group, In (k, group) d ->
       (2 <= List.length group)%nat
       /\ forall f, In f group ->
            In f (files sized_store)
            /\ exists ob ob',
                 In ob (objects sized_store) /\ file_object_id f = Some (obj_id ob)
                 /\ In ob' (objects sized_store) /\ obj_id ob' <> obj_id ob
                 /\ obj_size ob' = obj_size ob.
Proof.
  cbv zeta.
  apply (find_duplicates_groups sized_store sized_store [] sized_files _
           (snd (find_duplicates (clean sized_store sized_store [] sized_files)))).
  - repeat constructor; simpl; intuition discriminate.
  - vm_compute. reflexivity.
Defined.

(** ** Importing and flushing *)

Lemma insert_objects_fresh new : forall tbl,
  NoDup (map obj_id new) ->
  (forall x, In x new -> has_object (obj_id x) tbl = false) ->
  insert_objects new tbl = Some (tbl ++ new).
Proof.
  induction new as [|x new IH]; intros tbl Hnd Hfresh; cbn [insert_objects].
  - now rewrite app_nil_r.
  - rewrite (Hfresh x (or_introl eq_refl)).
    inversion Hnd as [|? ? Hx Hnd']; subst.
    rewrite IH; [now rewrite <- app_assoc|exact Hnd'|].
    intros y Hy. unfold has_object. rewrite existsb_app.
    fold (has_object (obj_id y) tbl). rewrite (Hfresh y (or_intror Hy)).
    cbn. rewrite orb_false_r. apply String.eqb_neq. intros E.
    apply Hx. rewrite E. now apply in_map.
Qed.

(** X18. An import never overwrites: when an object that [import_objects]
    takes from the nested index has the id of a row of the [Object] table,
    the flush that follows raises [IntegrityError] and the transaction is
    rolled back to the last commit. *)
Theorem import_objects_conflict nested dirname db0 db o t x :
  In x (objects_to_import (referenced_object_ids dirname db) nested) ->
  has_object (obj_id x) (objects db) = true ->
  exists o',
    (import_objects nested dirname ;; flush) (clean db0 db o t)
    = (Raise IntegrityError, clean db0 db0 o' t).
Proof.
  intros Hin Hhas.
  destruct (import_objects_copies nested dirname db0 db o t) as [o' E].
  exists o'. rewrite (bind_return _ _ _ _ _ E).
  unfold flush, bind, get_conn. cbn [conn pending current].
  now rewrite (insert_objects_conflict _ _ x Hin Hhas).
Qed.

Lemma import_objects_conflict_witness :
  exists o',
    (import_objects nested_objects ["vol"%string] ;; flush)
      (clean stale_store stale_store [] [])
    = (Raise IntegrityError, clean stale_store stale_store o' []).
Proof.
  apply (import_objects_conflict nested_objects ["vol"%string] stale_store stale_store
           [] [] (mkObject "1:100" 5 9 (Some (sha256 "hello"%string)))).
  - simpl. now left.
  - reflexivity.
Defined.

(** X19. When the nested index has distinct ids and none of the objects that
    [import_objects] takes from it is in the [Object] table, the flush that
    follows appends them to the table, field for field and in the order of
    the nested index, and changes no other row. *)
Theorem import_objects_appends nested dirname db0 db o t :
  NoDup (map obj_id nested) ->
  (forall x, In x (objects_to_import (referenced_object_ids dirname db) nested) ->
             has_object (obj_id x) (objects db) = false) ->
  exists o',
    (import_objects nested dirname ;; flush) (clean db0 db o t)
    = (Return tt,
       clean db0 (set_objects db
                    (objects db
                     ++ objects_to_import (referenced_object_ids dirname db) nested))
             o' t).
Proof.
  intros Hnd Hfresh.
  destruct (import_objects_copies nested dirname db0 db o t) as [o' E].
  exists o'. rewrite (bind_return _ _ _ _ _ E).
  unfold flush, bind, get_conn. cbn [conn pending current].
  rewrite insert_objects_fresh; [reflexivity| |exact Hfresh].
  unfold objects_to_import. now apply nodup_map_filter.
Qed.

Lemma import_objects_appends_witness :
  exists o',
    (import_objects nested_objects ["vol"%string] ;; flush)
      (clean empty_store empty_store [] [])
    = (Return tt,
       clean empty_store
         (set_objects empty_store
            (objects empty_store
             ++ objects_to_import (referenced_object_ids ["vol"%string] empty_store)
                                  nested_objects))
         o' []).
Proof.
  apply (import_objects_appends nested_objects ["vol"%string] empty_store empty_store [] []).
  - repeat constructor. simpl. tauto.
  - intros x _. reflexivity.
Defined.

(** ** The walk *)

Lemma tree_induction (P : tree -> Prop) :
  (forall n st, P (Entry n st)) ->
  (forall n, P (DirLink n)) ->
  (forall n s cs, Forall P cs -> P (Dir n s cs)) ->
  forall t, P t.
Proof.
  intros HE HL HD. fix IH 1. intros [n st|n|n s cs].
  - apply HE.
  - apply HL.
  - apply HD. induction cs as [|c cs IHcs]; constructor; [apply IH|exact IHcs].
Qed.

Lemma walk_suffix valid t : forall dirname v,
  In v (walk valid dirname t) ->
  exists suffix, v_dirname v = dirname ++ suffix /\ forallb valid suffix = true.
Proof.
  induction t as [n st|n|n s cs IH] using tree_induction; intros dirname v;
    cbn [walk]; try contradiction.
  intros [<-|Hin].
  - exists []. cbn. now rewrite app_nil_r.
  - apply in_flat_map in Hin. destruct Hin as [c [Hc Hv]].
    rewrite Forall_forall in IH. specialize (IH c Hc).
    destruct c as [n' st'|n'|n' s' cs']; try contradiction.
    destruct (valid n') eqn:V; [|contradiction].
    destruct (IH _ _ Hv) as [suffix [E Hs]].
    exists (n' :: suffix). split; [now rewrite E, <- app_assoc|].
    cbn. now rewrite V.
Qed.

(** X20. The scan never enters an excluded directory: every directory that the
    walk of [scan] hands to [scan_directory] has a path none of whose
    components is [.dupler], starts with a dot or matches an exclusion
    pattern for directories. *)
Theorem scan_skips_excluded ex_dirs t v name :
  In v (walk (is_valid_directory ex_dirs) [] t) ->
  In name (v_dirname v) ->
  name <> CONFIG_DIR /\ startswith_dot name = false /\ ex_dirs name = false.
Proof.
  intros Hv Hn. destruct (walk_suffix _ _ _ _ Hv) as [suffix [E Hs]].
  rewrite E in Hn. cbn [app] in Hn. rewrite forallb_forall in Hs.
  specialize (Hs name Hn). unfold is_valid_directory in Hs.
  destruct (String.eqb name CONFIG_DIR) eqn:E1; [discriminate|].
  destruct (startswith_dot name); [discriminate|].
  destruct (ex_dirs name); [discriminate|].
  apply String.eqb_neq in E1. auto.
Qed.

Lemma scan_skips_excluded_witness :
  "lib"%string <> CONFIG_DIR /\ startswith_dot "lib" = false
  /\ excludes_tmp "lib" = false.
Proof.
  apply (scan_skips_excluded excludes_tmp pruned_tree
           (mkVisit ["src"; "lib"]%string None [] [] [])).
  - vm_compute. tauto.
  - simpl. tauto.
Defined.

(** ** The exclusion patterns *)

Lemma coherent_after fnmatch c x :
  Config.coherent c -> Config.coherent (Config.after fnmatch c x).
Proof.
  intros [Hf Hd]. destruct x as [p|p|p|p|n|n]; cbn [Config.after].
  - split; [now left|exact Hd].
  - unfold Config.remove_exclude_file.
    destruct (mem_str p (Config.exclude_files c)); [|now split].
    split; [now left|exact Hd].
  - split; [exact Hf|now left].
  - unfold Config.remove_exclude_dir.
    destruct (mem_str p (Config.exclude_directories c)); [|now split].
    split; [exact Hf|now left].
  - unfold Config.is_valid_file, Config.regex_ex_files.
    destruct (startswith_dot n); [now split|].
    destruct Hf as [E|E]; rewrite E.
    + destruct (Config.re_match fnmatch _ n); cbn [snd]; split; cbn; auto.
    + destruct (Config.re_match fnmatch _ n); cbn [snd]; (split; [now right|exact Hd]).
  - unfold Config.is_valid_directory, Config.regex_ex_dirs.
    destruct (String.eqb n CONFIG_DIR); [now split|].
    destruct (startswith_dot n); [now split|].
    destruct Hd as [E|E]; rewrite E.
    + destruct (Config.re_match fnmatch _ n); cbn [snd]; split; cbn; auto.
    + destruct (Config.re_match fnmatch _ n); cbn [snd]; (split; [exact Hf|now right]).
Qed.

Lemma coherent_fold fnmatch calls : forall c,
  Config.coherent c -> Config.coherent (fold_left (Config.after fnmatch) calls c).
Proof.
  induction calls as [|x calls IH]; intros c H; [exact H|].
  cbn [fold_left]. apply IH. now apply coherent_after.
Qed.

Lemma coherent_valid_file fnmatch c name :
  Config.coherent c ->
  fst (Config.is_valid_file fnmatch name c)
  = is_valid_file (Config.re_match fnmatch (Config.exclude_files c)) name.
Proof.
  intros [Hf _]. unfold Config.is_valid_file, is_valid_file, Config.regex_ex_files.
  destruct (startswith_dot name); [reflexivity|].
  destruct Hf as [-> | ->]; unfold Config.regex_for_patterns;
    now destruct (Config.re_match fnmatch (Config.exclude_files c) name).
Qed.

Lemma coherent_valid_directory fnmatch c name :
  Config.coherent c ->
  fst (Config.is_valid_directory fnmatch name c)
  = is_valid_directory (Config.re_match fnmatch (Config.exclude_directories c)) name.
Proof.
  intros [_ Hd].
  unfold Config.is_valid_directory, is_valid_directory, Config.regex_ex_dirs.
  destruct (String.eqb name CONFIG_DIR); [reflexivity|].
  destruct (startswith_dot name); [reflexivity|].
  destruct Hd as [-> | ->]; unfold Config.regex_for_patterns;
    now destruct (Config.re_match fnmatch (Config.exclude_directories c) name).
Qed.

(** X21. The pattern caches of [Config] are never stale: after any sequence
    of additions, removals and tests on a freshly loaded configuration,
    [is_valid_file] and [is_valid_directory] answer by the pattern lists as
    they are now. *)
Theorem config_cache_never_stale fnmatch files dirs calls name :
  let c := fold_left (Config.after fnmatch) calls (Config.init files dirs) in
  fst (Config.is_valid_file fnmatch name c)
  = is_valid_file (Config.re_match fnmatch (Config.exclude_files c)) name
  /\ fst (Config.is_valid_directory fnmatch name c)
     = is_valid_directory (Config.re_match fnmatch (Config.exclude_directories c)) name.
Proof.
  cbv zeta.
  assert (H : Config.coherent
                (fold_left (Config.after fnmatch) calls (Config.init files dirs)))
    by (apply coherent_fold; split; now left).
  split; [now apply coherent_valid_file|now apply coherent_valid_directory].
Qed.

Lemma re_match_nonempty fnmatch re name :
  re <> [] -> Config.re_match fnmatch re name = existsb (fun pat => fnmatch pat name) re.
Proof. destruct re; [congruence|reflexivity]. Qed.

(** X22. A pattern added with [add_exclude_file] takes effect at once, also
    when the cache had been filled before: a name that does not start with a
    dot is valid afterwards exactly when it matches neither the new pattern
    nor any of the old ones. *)
Theorem add_exclude_file_excludes fnmatch pattern c name :
  startswith_dot name = false ->
  fst (Config.is_valid_file fnmatch name (Config.add_exclude_file pattern c))
  = negb (fnmatch pattern name
          || existsb (fun pat => fnmatch pat name) (Config.exclude_files c)).
Proof.
  intros Hdot. unfold Config.is_valid_file, Config.regex_ex_files,
    Config.add_exclude_file, Config.regex_for_patterns.
  rewrite Hdot. cbn [Config.ex_files Config.exclude_files].
  rewrite re_match_nonempty by (intros E; now apply app_eq_nil in E).
  rewrite existsb_app. cbn [existsb]. rewrite orb_false_r, orb_comm.
  now destruct (fnmatch pattern name || _).
Qed.

Lemma add_exclude_file_excludes_witness :
  let c := snd (Config.is_valid_file prefix_match "x" (Config.init ["tmp"%string] [])) in
  fst (Config.is_valid_file prefix_match "build.log"
         (Config.add_exclude_file "build" c))
  = negb (prefix_match "build" "build.log"
          || existsb (fun pat => prefix_match pat "build.log") (Config.exclude_files c)).
Proof.
  cbv zeta.
  apply (add_exclude_file_excludes prefix_match "build"
           (snd (Config.is_valid_file prefix_match "x" (Config.init ["tmp"%string] [])))
           "build.log").
  reflexivity.
Defined.

Lemma remove_first_app_in p l r :
  mem_str p l = true -> remove_first p (l ++ r) = remove_first p l ++ r.
Proof.
  induction l as [|y l IH]; cbn; [discriminate|].
  rewrite String.eqb_sym. destruct (String.eqb y p); [reflexivity|].
  cbn. intros H. now rewrite IH.
Qed.

Lemma remove_first_app_notin p l :
  mem_str p l = false -> remove_first p (l ++ [p]) = l.
Proof.
  induction l as [|y l IH]; cbn.
  - now rewrite String.eqb_refl.
  - rewrite String.eqb_sym. destruct (String.eqb y p); [discriminate|].
    cbn. intros H. now rewrite IH.
Qed.

Lemma existsb_remove_first (f : string -> bool) p l :
  mem_str p l = true -> existsb f (remove_first p l ++ [p]) = existsb f l.
Proof.
  induction l as [|y l IH]; cbn; [discriminate|].
  rewrite String.eqb_sym. destruct (String.eqb y p) eqn:E.
  - apply String.eqb_eq in E. subst y. intros _.
    rewrite existsb_app. cbn. rewrite orb_false_r. apply orb_comm.
  - cbn. intros H. now rewrite IH.
Qed.

Lemma remove_first_nonempty p l :
  mem_str p l = true -> remove_first p l ++ [p] <> [].
Proof. intros _ E. now apply app_eq_nil in E. Qed.

(** X23. Adding a pattern and removing it again is a round trip: the removal
    succeeds, the directory patterns are untouched, and [is_valid_file]
    answers as the file patterns did before the addition (the list itself
    may come back in another order, when the pattern was in it already). *)
Theorem add_then_remove_exclude_file fnmatch pattern c :
  exists c',
    Config.remove_exclude_file pattern (Config.add_exclude_file pattern c) = Some c'
    /\ Config.exclude_directories c' = Config.exclude_directories c
    /\ forall name,
         fst (Config.is_valid_file fnmatch name c')
         = is_valid_file (Config.re_match fnmatch (Config.exclude_files c)) name.
Proof.
  unfold Config.remove_exclude_file, Config.add_exclude_file.
  cbn [Config.exclude_files Config.exclude_directories Config.ex_dirs].
  assert (Hmem : mem_str pattern (Config.exclude_files c ++ [pattern]) = true).
  { unfold mem_str. rewrite existsb_app. cbn. now rewrite String.eqb_refl, orb_true_r. }
  rewrite Hmem. eexists. split; [reflexivity|]. split; [reflexivity|].
  intros name. unfold Config.is_valid_file, is_valid_file, Config.regex_ex_files.
  cbn [Config.ex_files Config.exclude_files Config.regex_for_patterns].
  destruct (startswith_dot name); [reflexivity|].
  unfold Config.regex_for_patterns.
  assert (E : Config.re_match fnmatch
                (remove_first pattern (Config.exclude_files c ++ [pattern])) name
              = Config.re_match fnmatch (Config.exclude_files c) name).
  { destruct (mem_str pattern (Config.exclude_files c)) eqn:M.
    - rewrite remove_first_app_in by exact M.
      rewrite !re_match_nonempty.
      + now apply existsb_remove_first.
      + intros E. rewrite E in M. discriminate.
      + now apply remove_first_nonempty.
    - now rewrite remove_first_app_notin. }
  rewrite E. now destruct (Config.re_match fnmatch (Config.exclude_files c) name).
Qed.

(** ** Finding the configuration *)

Lemma create_config_loop_nearest has_config loads curdir : forall fuel n,
  (n <= List.length curdir)%nat -> (n < fuel)%nat ->
  (forall m, (n < m <= List.length curdir)%nat ->
             has_config (firstn m curdir) && loads (firstn m curdir) = false) ->
  match Config.create_config_loop has_config loads fuel (firstn n curdir) with
  | Some dir =>
      exists k, (k <= List.length curdir)%nat /\ dir = firstn k curdir
                /\ has_config dir = true /\ loads dir = true
                /\ forall m, (k < m <= List.length curdir)%nat ->
                     has_config (firstn m curdir) && loads (firstn m curdir) = false
  | None =>
      forall m, (m <= List.length curdir)%nat ->
                has_config (firstn m curdir) && loads (firstn m curdir) = false
  end.
Proof.
  induction fuel as [|fuel IH]; intros n Hn Hfuel Hlater; [lia|].
  cbn [Config.create_config_loop].
  destruct (has_config (firstn n curdir) && loads (firstn n curdir)) eqn:Ok.
  - exists n. apply andb_true_iff in Ok. tauto.
  - destruct (is_nil (firstn n curdir)) eqn:Nil.
    + intros m Hm. destruct (Nat.lt_ge_cases n m) as [L|L]; [apply Hlater; lia|].
      replace (firstn m curdir) with (firstn n curdir); [exact Ok|].
      destruct (firstn n curdir) eqn:E; [|discriminate].
      destruct n; [now replace m with O by lia|].
      destruct curdir; [now rewrite !firstn_nil|discriminate].
    + destruct n as [|n]; [discriminate|].
      rewrite removelast_firstn by lia. apply IH; try lia.
      intros m Hm. destruct (Nat.eq_dec m (S n)) as [->|Hne]; [exact Ok|].
      apply Hlater. lia.
Qed.

(** X24. [get_instance] settles on the nearest directory, from the current
    one up to the root, that has a [.dupler] directory and whose
    configuration loads; it raises [NoConfigError] exactly when no such
    directory is on the way. *)
Theorem create_config_nearest has_config loads curdir :
  match Config.create_config has_config loads curdir with
  | Some dir =>
      exists k, (k <= List.length curdir)%nat /\ dir = firstn k curdir
                /\ has_config dir = true /\ loads dir = true
                /\ forall m, (k < m <= List.length curdir)%nat ->
                     has_config (firstn m curdir) && loads (firstn m curdir) = false
  | None =>
      forall m, (m <= List.length curdir)%nat ->
                has_config (firstn m curdir) && loads (firstn m curdir) = false
  end.
Proof.
  unfold Config.create_config.
  pose proof (create_config_loop_nearest has_config loads curdir
                (S (List.length curdir)) (List.length curdir)) as H.
  rewrite firstn_all in H. apply H; lia.
Qed.

(** ** A directory without files *)

Lemma for_each_nothing {A} (body : A -> M unit) l w :
  (forall x, In x l -> body x w = (Return tt, w)) ->
  for_each l body w = (Return tt, w).
Proof.
  induction l as [|x l IH]; intros H; [reflexivity|].
  cbn [for_each]. rewrite (bind_return _ _ _ _ _ (H x (or_introl eq_refl))).
  apply IH. intros y Hy. apply H. now right.
Qed.

(** X25. When a directory has no valid file left, [scan_directory] returns
    before [scan_files]: if its row and its parent's row are in the index,
    no subdirectory has vanished and there is no nested index to import, the
    index is committed exactly as it was, so the [File] rows of the files
    that have vanished from the directory stay. *)
Theorem scan_directory_no_files ex_files ex_dirs v d db0 db o t :
  filter (is_valid_file ex_files) (v_files v) = [] ->
  v_dirname v = [] \/
    (mem_str CONFIG_DIR (v_dirs v) = false
     /\ exists pd, find_directory (removelast (v_dirname v)) db = Some pd) ->
  find_directory (v_dirname v) db = Some d ->
  (forall c, In c (children_of (dir_id d) db) ->
     exists pname, relpath (dir_path c) (v_dirname v) = Some pname
       /\ mem_str pname (filter (is_valid_directory ex_dirs) (v_dirs v)) = true) ->
  scan_directory ex_files ex_dirs v (clean db0 db o t) = (Return tt, clean db db o t).
Proof.
  intros Hfiles Hparent Hdir Hchildren. unfold scan_directory. rewrite Hfiles.
  assert (E1 : match v_dirname v with
               | [] => ret tt
               | _ :: _ =>
                   when (mem_str CONFIG_DIR (v_dirs v))
                     (try_except
                        match v_store v with
                        | Some nested => import_objects nested (v_dirname v)
                        | None => raise (OSError FileNotFoundError)
                        end (fun _ => print FailedImport))
               end (clean db0 db o t) = (Return tt, clean db0 db o t)).
  { destruct Hparent as [->|[-> _]]; [reflexivity|]. now destruct (v_dirname v). }
  rewrite (bind_return _ _ _ _ _ E1).
  assert (E2 : exists pdir,
            match v_dirname v with
            | [] => ret None
            | _ :: _ =>
                pdir <- get_directory (removelast (v_dirname v)) ;;
                match pdir with
                | Some d0 => ret (Some d0)
                | None => raise AssertionError
                end
            end (clean db0 db o t) = (Return pdir, clean db0 db o t)).
  { destruct Hparent as [->|[_ [pd Hpd]]]; [now exists None|].
    destruct (v_dirname v); [now exists None|]. exists (Some pd).
    unfold get_directory. rewrite (bind_return _ _ _ _ _ (query_clean _ _ _ _ _)).
    now rewrite Hpd. }
  destruct E2 as [pdir E2]. rewrite (bind_return _ _ _ _ _ E2).
  assert (E3 : ensure_directory (v_dirname v) pdir (clean db0 db o t)
               = (Return (d, false), clean db0 db o t)).
  { unfold ensure_directory, get_directory.
    rewrite (bind_return _ _ _ _ _ (query_clean _ _ _ _ _)). now rewrite Hdir. }
  rewrite (bind_return _ _ _ _ _ E3). cbn [fst snd].
  rewrite (bind_return _ _ _ _ _ (query_clean _ _ _ _ _)).
  assert (E4 : for_each (children_of (dir_id d) db) (fun cdir =>
                 match relpath (dir_path cdir) (v_dirname v) with
                 | Some pname =>
                     when (negb (mem_str pname
                                   (filter (is_valid_directory ex_dirs) (v_dirs v))))
                          (execute (delete_directory_cascade (dir_id cdir)))
                 | None => execute (delete_directory_cascade (dir_id cdir))
                 end) (clean db0 db o t) = (Return tt, clean db0 db o t)).
  { apply for_each_nothing. intros c Hc.
    destruct (Hchildren c Hc) as [pname [-> Hmem]]. now rewrite Hmem. }
  rewrite (bind_return _ _ _ _ _ E4).
  now rewrite (bind_return _ _ _ _ _ (commit_clean _ _ _ _)).
Qed.

Lemma scan_directory_no_files_witness :
  scan_directory no_exclusions no_exclusions (mkVisit [] None [] [] [])
                 (clean triple_store triple_store [] [])
  = (Return tt, clean triple_store triple_store [] []).
Proof.
  apply (scan_directory_no_files no_exclusions no_exclusions
           (mkVisit [] None [] [] []) (mkDirectory 1 [] None)).
  - reflexivity.
  - now left.
  - reflexivity.
  - intros c [].
Defined.

(** ** Scanning the files of a directory *)

Lemma keeps_files_ret {A} (a : A) : keeps_files (ret a).
Proof. intros w a' w' [= <- <-]. reflexivity. Qed.

Lemma keeps_files_raise {A} e : keeps_files (@raise A e).
Proof. intros w a' w'. discriminate. Qed.

Lemma keeps_files_bind {A B} (m : M A) (k : A -> M B) :
  keeps_files m -> (forall a, keeps_files (k a)) -> keeps_files (bind m k).
Proof.
  intros Hm Hk w b w'. unfold bind.
  destruct (m w) as [[a|e] w1] eqn:E; [|discriminate].
  intros H. rewrite (Hk a _ _ _ H). now apply (Hm _ _ _ E).
Qed.

Lemma keeps_files_flush : keeps_files flush.
Proof.
  intros w a w'. unfold flush, bind, get_conn, put_conn.
  destruct (insert_objects _ _); [|discriminate].
  now intros [= <- <-].
Qed.

Lemma keeps_files_commit : keeps_files commit.
Proof.
  unfold commit. apply keeps_files_bind; [apply keeps_files_flush|].
  intros _ w a w'. unfold bind, get_conn, put_conn. now intros [= <- <-].
Qed.

Lemma keeps_files_query {A} (f : Store -> A) : keeps_files (query f).
Proof.
  unfold query. apply keeps_files_bind; [apply keeps_files_flush|].
  intros _ w a w'. unfold bind, get_conn, ret. now intros [= <- <-].
Qed.

Lemma keeps_files_add_object ob : keeps_files (conn_add_object ob).
Proof. intros w a w'. unfold conn_add_object, bind, get_conn, put_conn. now intros [= <- <-]. Qed.

Lemma keeps_files_print l : keeps_files (print l).
Proof. intros w a w'. unfold print. now intros [= <- <-]. Qed.

Lemma keeps_files_when b m : keeps_files m -> keeps_files (when b m).
Proof. destruct b; [auto|intros _; apply keeps_files_ret]. Qed.

Lemma keeps_files_one {A} (rows : list A) : keeps_files (one rows).
Proof.
  destruct rows as [|r [|r' rows]]; cbn [one];
    [apply keeps_files_raise|apply keeps_files_ret|apply keeps_files_raise].
Qed.

Lemma execute_returns g w w' :
  execute g w = (Return tt, w') ->
  exists db, files db = file_table w /\ current (conn w') = g db.
Proof.
  unfold execute, bind at 1.
  destruct (flush w) as [[[]|e] w1] eqn:E; [|discriminate].
  unfold bind, get_conn, put_conn. intros [= <-].
  exists (current (conn w1)). split; [|reflexivity].
  apply (keeps_files_flush _ _ _ E).
Qed.

Lemma keeps_files_update_object oid m s h : keeps_files (update_object oid m s h).
Proof.
  unfold update_object. apply keeps_files_bind; [|intros _; apply keeps_files_query].
  intros w [] w' H. destruct (execute_returns _ _ _ H) as [db [E1 E2]].
  unfold file_table. now rewrite E2.
Qed.

Lemma keeps_files_ensure_object st get_hash obj :
  keeps_files (ensure_object st get_hash obj).
Proof.
  unfold ensure_object. destruct (negb (S_ISREG (st_mode st))); [apply keeps_files_ret|].
  apply keeps_files_bind.
  - destruct obj as [o0|]; [|apply keeps_files_query].
    destruct (String.eqb (obj_id o0) (oid_of st));
      [apply keeps_files_ret|apply keeps_files_query].
  - intros [o0|].
    + destruct (_ || _); [|apply keeps_files_ret].
      apply keeps_files_bind.
      * destruct (option_map _ get_hash); [apply keeps_files_print|apply keeps_files_ret].
      * intros _. apply keeps_files_bind; [apply keeps_files_update_object|].
        intros rows. apply keeps_files_bind; [apply keeps_files_one|].
        intros o1. apply keeps_files_bind; [|intros _; apply keeps_files_ret].
        apply keeps_files_when, keeps_files_commit.
    + apply keeps_files_bind; [apply keeps_files_add_object|].
      intros _. apply keeps_files_bind; [|intros _; apply keeps_files_ret].
      apply keeps_files_when, keeps_files_commit.
Qed.

Lemma keeps_files_os_lstat entries name : keeps_files (os_lstat entries name).
Proof.
  unfold os_lstat. destruct (find _ entries);
    [apply keeps_files_ret|apply keeps_files_raise].
Qed.

Lemma update_file_keys file object_id w f w' :
  update_file file object_id w = (Return f, w') ->
  map file_key (file_table w') = map file_key (file_table w).
Proof.
  unfold update_file.
  destruct (opt_eqb String.eqb (file_object_id file) object_id).
  - now intros [= _ <-].
  - unfold bind at 1.
    destruct (execute _ w) as [[[]|e] w1] eqn:E; [|discriminate].
    intros H. apply (keeps_files_bind _ _ (keeps_files_query _)
                       (fun rows => keeps_files_one rows)) in H.
    rewrite H. destruct (execute_returns _ _ _ E) as [db [E1 E2]].
    unfold file_table at 1. rewrite E2, <- E1. cbn [files set_files].
    rewrite map_map. apply map_ext. intros r.
    now destruct (file_id r =? file_id file).
Qed.

Lemma delete_row_table id w w' :
  execute (delete_file_row id) w = (Return tt, w') ->
  file_table w' = filter (fun f => negb (file_id f =? id)) (file_table w).
Proof.
  intros H. destruct (execute_returns _ _ _ H) as [db [E1 E2]].
  unfold file_table at 1. rewrite E2, <- E1. reflexivity.
Qed.

Lemma add_file_table path_id name type object_id w w' :
  conn_add_file path_id name type object_id w = (Return tt, w') ->
  file_table w'
  = file_table w
    ++ [mkFile (next_id (map file_id (file_table w))) path_id name type object_id].
Proof.
  unfold conn_add_file, bind at 1.
  destruct (flush w) as [[[]|e] w1] eqn:E; [|discriminate].
  rewrite <- (keeps_files_flush _ _ _ E).
  unfold bind, get_conn, put_conn, file_table.
  destruct (existsb _ (files (current (conn w1)))); [discriminate|].
  now intros [= <-].
Qed.

Lemma remove_first_in x y l : In y l -> y = x \/ In y (remove_first x l).
Proof.
  induction l as [|z l IH]; cbn; [tauto|].
  destruct (String.eqb z x) eqn:E.
  - apply String.eqb_eq in E. subst z. intros [->|H]; auto.
  - intros [->|H]; [right; now left|]. destruct (IH H); auto. right. now right.
Qed.

Lemma remove_first_incl x y l : In y (remove_first x l) -> In y l.
Proof.
  induction l as [|z l IH]; cbn; [tauto|].
  destruct (String.eqb z x); [now right|]. intros [->|H]; [now left|right; auto].
Qed.

Lemma mem_str_in x l : mem_str x l = true <-> In x l.
Proof.
  unfold mem_str. rewrite existsb_exists. split.
  - intros [y [H E]]. apply String.eqb_eq in E. now subst.
  - intros H. exists x. split; [exact H|apply String.eqb_refl].
Qed.

Lemma next_id_fresh ids : ~ In (next_id ids) ids.
Proof.
  assert (H : forall x, In x ids -> x <= fold_right Z.max 0 ids).
  { induction ids as [|y ids IH]; cbn; [tauto|]. intros x [->|Hx]; [lia|].
    specialize (IH x Hx). lia. }
  intros Hin. apply H in Hin. unfold next_id in Hin. lia.
Qed.

Lemma insert_sorted_nodup {A B} (f : A -> B) leb x l :
  NoDup (map f (x :: l)) -> NoDup (map f (insert_sorted leb x l)).
Proof.
  induction l as [|y l IH]; cbn [insert_sorted]; intros H; [exact H|].
  destruct (leb x y); [exact H|].
  cbn [map] in *. inversion H as [|? ? Hx Hyl]; subst.
  inversion Hyl as [|? ? Hy Hl]; subst. constructor.
  - intros Hin. apply in_map_iff in Hin. destruct Hin as [z [E Hz]].
    apply insert_sorted_in in Hz. destruct Hz as [->|Hz].
    + apply Hx. left. now symmetry.
    + apply Hy. rewrite <- E. now apply in_map.
  - apply IH. constructor; [|exact Hl]. intros Hin. apply Hx. now right.
Qed.

Lemma sort_by_nodup {A B} (f : A -> B) leb l :
  NoDup (map f l) -> NoDup (map f (sort_by leb l)).
Proof.
  induction l as [|x l IH]; cbn; intros H; [constructor|].
  inversion H as [|? ? Hx Hl]; subst. apply insert_sorted_nodup.
  cbn. constructor; [|now apply IH].
  intros Hin. apply Hx. apply in_map_iff in Hin. destruct Hin as [z [E Hz]].
  apply sort_by_in in Hz. rewrite <- E. now apply in_map.
Qed.

Lemma key_of_id tbl i p n p' n' :
  NoDup (map file_id tbl) ->
  In (i, p, n) (map file_key tbl) -> In (i, p', n') (map file_key tbl) ->
  p = p' /\ n = n'.
Proof.
  intros Hnd H1 H2. apply in_map_iff in H1, H2.
  destruct H1 as [r [E1 H1]], H2 as [r' [E2 H2]].
  unfold file_key in E1, E2. injection E1 as I1 P1 N1. injection E2 as I2 P2 N2.
  assert (r = r') by (apply (nodup_map_injective file_id tbl); congruence).
  subst r'. split; congruence.
Qed.

Lemma keys_ids tbl tbl' :
  map file_key tbl' = map file_key tbl -> map file_id tbl' = map file_id tbl.
Proof.
  intros E. apply (f_equal (map (fun k : Z * Z * string => fst (fst k)))) in E.
  now rewrite !map_map in E.
Qed.

Lemma key_filtered x tbl i p n :
  In (i, p, n) (map file_key (filter (fun f => negb (file_id f =? x)) tbl))
  <-> In (i, p, n) (map file_key tbl) /\ i <> x.
Proof.
  rewrite !in_map_iff. split.
  - intros [r [E H]]. apply filter_In in H. destruct H as [H Hx].
    apply negb_true_iff, Z.eqb_neq in Hx. unfold file_key in E.
    injection E as <- <- <-. split; [|exact Hx]. now exists r.
  - intros [[r [E H]] Hx]. exists r. split; [exact E|]. apply filter_In.
    split; [exact H|]. unfold file_key in E. injection E as <- _ _.
    now apply negb_true_iff, Z.eqb_neq.
Qed.

Lemma scanning_delete id wanted s rest tbl todo :
  scanning id wanted (s :: rest) tbl todo ->
  scanning id wanted rest
    (filter (fun f => negb (file_id f =? file_id s)) tbl) todo.
Proof.
  intros (Ht & Hr & Hb & Hc & Hd & He).
  cbn [map] in Hr. inversion Hr as [|? ? Hs Hr']; subst.
  repeat split.
  - now apply nodup_map_filter.
  - exact Hr'.
  - intros s' Hs'. apply key_filtered. split; [apply Hb; now right|].
    intros E. apply Hs. rewrite <- E. now apply in_map.
  - intros i n Hk. apply key_filtered in Hk. destruct Hk as [Hk Hi].
    destruct (Hc i n Hk) as [[s0 [[Es|H0] E0]]|W]; [congruence| |now right].
    left. now exists s0.
  - intros n Hn. destruct (Hd n Hn) as [T|[i [Hk Hno]]]; [now left|right].
    exists i. split.
    + apply key_filtered. split; [exact Hk|]. intros ->. apply Hno.
      exists s. split; [now left|reflexivity].
    + intros [s0 [H0 E0]]. apply Hno. exists s0. split; [now right|exact E0].
  - exact He.
Qed.

Lemma scanning_keep id wanted s rest tbl tbl' todo :
  scanning id wanted (s :: rest) tbl todo ->
  map file_key tbl' = map file_key tbl ->
  In (file_name s) todo ->
  scanning id wanted rest tbl' (remove_first (file_name s) todo).
Proof.
  intros (Ht & Hr & Hb & Hc & Hd & He) Hk Hin.
  cbn [map] in Hr. inversion Hr as [|? ? Hs Hr']; subst.
  repeat split; rewrite ?Hk.
  - now rewrite (keys_ids _ _ Hk).
  - exact Hr'.
  - intros s' Hs'. apply Hb. now right.
  - intros i n Hi. destruct (Hc i n Hi) as [[s0 [[Es|H0] E0]]|W]; [| |now right].
    + right. subst s0 i.
      destruct (key_of_id _ _ _ _ _ _ Ht Hi (Hb s (or_introl eq_refl))) as [_ ->].
      now apply He.
    + left. now exists s0.
  - intros n Hn. destruct (Hd n Hn) as [T|[i [Hi Hno]]].
    + destruct (remove_first_in (file_name s) n todo T) as [->|T']; [|now left].
      right. exists (file_id s). split; [apply Hb; now left|].
      intros [s0 [H0 E0]]. apply Hs. rewrite <- E0. now apply in_map.
    + right. exists i. split; [exact Hi|].
      intros [s0 [H0 E0]]. apply Hno. exists s0. split; [now right|exact E0].
  - intros n Hn. apply He. now apply remove_first_incl in Hn.
Qed.


Lemma scan_known_rows entries id wanted rest : forall todo w todo' w',
  fold_m rest (fun files db_file =>
    if negb (mem_str (file_name db_file) files) then
      execute (delete_file_row (file_id db_file)) ;; ret files
    else
      st <- os_lstat entries (file_name db_file) ;;
      o <- query (fun db => match file_object_id db_file with
                            | Some oid => find_object oid db
                            | None => None
                            end) ;;
      obj <- ensure_object st None o ;;
      update_file db_file (option_map obj_id obj) ;;
      ret (remove_first (file_name db_file) files)) todo w = (Return todo', w') ->
  scanning id wanted rest (file_table w) todo ->
  scanning id wanted [] (file_table w') todo'.
Proof.
  induction rest as [|s rest IH]; intros todo w todo' w'; cbn [fold_m].
  - now intros [= <- <-].
  - unfold bind at 1. destruct (negb (mem_str (file_name s) todo)) eqn:M.
    + unfold bind at 1.
      destruct (execute _ w) as [[[]|e] w1] eqn:E; [|discriminate].
      cbn [ret]. intros H Inv. apply (IH _ _ _ _ H).
      rewrite (delete_row_table _ _ _ E). now apply scanning_delete.
    + apply negb_false_iff, mem_str_in in M.
      unfold bind at 1.
      destruct (os_lstat entries (file_name s) w) as [[st|e] w1] eqn:E1; [|discriminate].
      unfold bind at 1.
      destruct (query _ w1) as [[o|e] w2] eqn:E2; [|discriminate].
      unfold bind at 1.
      destruct (ensure_object st None o w2) as [[obj|e] w3] eqn:E3; [|discriminate].
      unfold bind at 1.
      destruct (update_file s (option_map obj_id obj) w3) as [[f|e] w4] eqn:E4;
        [|discriminate].
      cbn [ret]. intros H Inv. apply (IH _ _ _ _ H).
      apply scanning_keep with (tbl := file_table w); [exact Inv| |exact M].
      rewrite (update_file_keys _ _ _ _ _ E4).
      rewrite (keeps_files_ensure_object _ _ _ _ _ _ E3).
      rewrite (keeps_files_query _ _ _ _ E2).
      now rewrite (keeps_files_os_lstat _ _ _ _ _ E1).
Qed.

Lemma scan_new_rows entries id : forall todo w w',
  for_each todo (fun filename =>
    st <- os_lstat entries filename ;;
    obj <- ensure_object st None None ;;
    conn_add_file id filename (st_mode st) (option_map obj_id obj)) w
  = (Return tt, w') ->
  NoDup (map file_id (file_table w)) ->
  NoDup (map file_id (file_table w'))
  /\ exists added,
       file_table w' = file_table w ++ added
       /\ map file_name added = todo
       /\ forall f, In f added -> file_path_id f = id.
Proof.
  induction todo as [|n todo IH]; intros w w'; cbn [for_each].
  - intros [= <-] Hnd. split; [exact Hnd|]. exists []. now rewrite app_nil_r.
  - unfold bind at 1. unfold bind at 1.
    destruct (os_lstat entries n w) as [[st|e] w1] eqn:E1; [|discriminate].
    unfold bind at 1.
    destruct (ensure_object st None None w1) as [[obj|e] w2] eqn:E2; [|discriminate].
    destruct (conn_add_file _ _ _ _ w2) as [[[]|e] w3] eqn:E3; [|discriminate].
    intros H Hnd.
    pose proof (add_file_table _ _ _ _ _ _ E3) as T3.
    rewrite (keeps_files_ensure_object _ _ _ _ _ _ E2) in T3.
    rewrite (keeps_files_os_lstat _ _ _ _ _ E1) in T3.
    destruct (IH _ _ H) as [Hnd' [added [T [Hn Hp]]]].
    + rewrite T3, map_app. cbn [map file_id].
      apply NoDup_app; [exact Hnd|repeat constructor; intros []|].
      intros x Hx [<-|[]]. now apply next_id_fresh in Hx.
    + split; [exact Hnd'|]. eexists (_ :: added). rewrite T, T3, <- app_assoc.
      split; [reflexivity|]. split; [cbn; now rewrite Hn|].
      intros f [<-|Hf]; [reflexivity|now apply Hp].
Qed.

Lemma scan_files_start id names db tbl :
  files db = tbl -> NoDup (map file_id tbl) ->
  scanning id names (files_of_directory id db) tbl names.
Proof.
  intros E Hnd. unfold files_of_directory. rewrite E.
  assert (Hrow : forall s,
    In s (sort_by (fun a b => String.leb (file_name a) (file_name b))
            (filter (fun f => file_path_id f =? id) tbl))
    <-> In s tbl /\ file_path_id s = id).
  { intros s. now rewrite sort_by_in, filter_In, Z.eqb_eq. }
  repeat split.
  - exact Hnd.
  - apply sort_by_nodup. now apply nodup_map_filter.
  - intros s Hs. apply Hrow in Hs. destruct Hs as [Hs <-].
    now apply (in_map file_key).
  - intros i n Hk. left. apply in_map_iff in Hk. destruct Hk as [r [E' Hr]].
    unfold file_key in E'. injection E' as <- Hp _. exists r.
    split; [|reflexivity]. now apply Hrow.
  - intros n Hn. now left.
  - auto.
Qed.



Lemma update_file_table file object_id w f w' :
  update_file file object_id w = (Return f, w') ->
  file_table w' = file_table w
  \/ file_table w'
     = map (fun r => if file_id r =? file_id file
                     then mkFile (file_id r) (file_path_id r) (file_name r)
                                 (file_type r) object_id
                     else r) (file_table w).
Proof.
  unfold update_file.
  destruct (opt_eqb String.eqb (file_object_id file) object_id).
  - intros [= _ <-]. now left.
  - unfold bind at 1.
    destruct (execute _ w) as [[[]|e] w1] eqn:E; [|discriminate].
    intros H. apply (keeps_files_bind _ _ (keeps_files_query _)
                       (fun rows => keeps_files_one rows)) in H.
    rewrite H. destruct (execute_returns _ _ _ E) as [db [E1 E2]].
    right. unfold file_table at 1. now rewrite E2, <- E1.
Qed.

Lemma scanning_home id wanted s rest tbl todo r :
  scanning id wanted (s :: rest) tbl todo ->
  In r tbl -> file_id r = file_id s -> file_path_id r = id.
Proof.
  intros (Ht & _ & Hb & _) Hr E.
  assert (Hk : In (file_id s, file_path_id r, file_name r) (map file_key tbl)).
  { apply in_map_iff. exists r. split; [|exact Hr]. unfold file_key. now rewrite E. }
  now destruct (key_of_id _ _ _ _ _ _ Ht Hk (Hb s (or_introl eq_refl))).
Qed.

Lemma rows_elsewhere_delete id x tbl :
  (forall r, In r tbl -> file_id r = x -> file_path_id r = id) ->
  rows_elsewhere id (filter (fun f => negb (file_id f =? x)) tbl) = rows_elsewhere id tbl.
Proof.
  intros H. unfold rows_elsewhere. induction tbl as [|r tbl IH]; cbn; [reflexivity|].
  assert (IH' := IH (fun r' Hr' => H r' (or_intror Hr'))).
  destruct (file_id r =? x) eqn:E; cbn.
  - apply Z.eqb_eq in E. rewrite (H r (or_introl eq_refl) E), Z.eqb_refl. exact IH'.
  - destruct (negb (file_path_id r =? id)); [now rewrite IH'|exact IH'].
Qed.

Lemma rows_elsewhere_update id x object_id tbl :
  (forall r, In r tbl -> file_id r = x -> file_path_id r = id) ->
  rows_elsewhere id
    (map (fun r => if file_id r =? x
                   then mkFile (file_id r) (file_path_id r) (file_name r)
                               (file_type r) object_id
                   else r) tbl)
  = rows_elsewhere id tbl.
Proof.
  intros H. unfold rows_elsewhere. induction tbl as [|r tbl IH]; cbn; [reflexivity|].
  assert (IH' := IH (fun r' Hr' => H r' (or_intror Hr'))).
  destruct (file_id r =? x) eqn:E; cbn.
  - apply Z.eqb_eq in E. rewrite (H r (or_introl eq_refl) E), Z.eqb_refl. exact IH'.
  - destruct (negb (file_path_id r =? id)); [now rewrite IH'|exact IH'].
Qed.

Lemma scan_known_rows_elsewhere entries id wanted rest : forall todo w todo' w',
  fold_m rest (fun files db_file =>
    if negb (mem_str (file_name db_file) files) then
      execute (delete_file_row (file_id db_file)) ;; ret files
    else
      st <- os_lstat entries (file_name db_file) ;;
      o <- query (fun db => match file_object_id db_file with
                            | Some oid => find_object oid db
                            | None => None
                            end) ;;
      obj <- ensure_object st None o ;;
      update_file db_file (option_map obj_id obj) ;;
      ret (remove_first (file_name db_file) files)) todo w = (Return todo', w') ->
  scanning id wanted rest (file_table w) todo ->
  rows_elsewhere id (file_table w') = rows_elsewhere id (file_table w).
Proof.
  induction rest as [|s rest IH]; intros todo w todo' w'; cbn [fold_m].
  - now intros [= <- <-].
  - unfold bind at 1. destruct (negb (mem_str (file_name s) todo)) eqn:M.
    + unfold bind at 1.
      destruct (execute _ w) as [[[]|e] w1] eqn:E; [|discriminate].
      cbn [ret]. intros H Inv. rewrite (IH _ _ _ _ H).
      * rewrite (delete_row_table _ _ _ E). apply rows_elsewhere_delete.
        intros r Hr. now apply (scanning_home _ _ _ _ _ _ _ Inv).
      * rewrite (delete_row_table _ _ _ E). now apply scanning_delete.
    + apply negb_false_iff, mem_str_in in M.
      unfold bind at 1.
      destruct (os_lstat entries (file_name s) w) as [[st|e] w1] eqn:E1; [|discriminate].
      unfold bind at 1.
      destruct (query _ w1) as [[o|e] w2] eqn:E2; [|discriminate].
      unfold bind at 1.
      destruct (ensure_object st None o w2) as [[obj|e] w3] eqn:E3; [|discriminate].
      unfold bind at 1.
      destruct (update_file s (option_map obj_id obj) w3) as [[f|e] w4] eqn:E4;
        [|discriminate].
      cbn [ret]. intros H Inv.
      assert (T3 : file_table w3 = file_table w).
      { rewrite (keeps_files_ensure_object _ _ _ _ _ _ E3).
        rewrite (keeps_files_query _ _ _ _ E2).
        now rewrite (keeps_files_os_lstat _ _ _ _ _ E1). }
      rewrite (IH _ _ _ _ H).
      * destruct (update_file_table _ _ _ _ _ E4) as [T|T]; rewrite T, T3;
          [reflexivity|].
        apply rows_elsewhere_update.
        intros r Hr. now apply (scanning_home _ _ _ _ _ _ _ Inv).
      * apply scanning_keep with (tbl := file_table w); [exact Inv| |exact M].
        now rewrite (update_file_keys _ _ _ _ _ E4), T3.
Qed.

(** X27. [scan_files] leaves the other directories alone: when it returns on
    a table with distinct file ids, the [File] rows of every other directory
    are as they were, in the same order. *)
Theorem scan_files_elsewhere entries dir names w w' :
  NoDup (map file_id (file_table w)) ->
  scan_files entries dir names w = (Return tt, w') ->
  rows_elsewhere (dir_id dir) (file_table w')
  = rows_elsewhere (dir_id dir) (file_table w).
Proof.
  intros Hnd. unfold scan_files. unfold bind at 1.
  destruct (query _ w) as [[db_files|e] w1] eqn:Q; [|discriminate].
  pose proof (keeps_files_query _ _ _ _ Q) as T1.
  destruct (query_returns _ _ _ _ Q) as (c & db & o & t & -> & ->).
  unfold bind at 1.
  destruct (fold_m _ _ names _) as [[todo|e] w2] eqn:L1; [|discriminate].
  intros L2.
  pose proof (scan_files_start (dir_id dir) names db (file_table w)) as Inv.
  change (files db) with (file_table (clean c db o t)) in Inv.
  specialize (Inv T1 Hnd). rewrite <- T1 in Inv.
  pose proof (scan_known_rows _ _ _ _ _ _ _ _ L1 Inv) as (Ht & _).
  rewrite <- T1, <- (scan_known_rows_elsewhere _ _ _ _ _ _ _ _ L1 Inv).
  destruct (scan_new_rows _ _ _ _ _ L2 Ht) as [_ [added [T [_ Hp]]]].
  rewrite T. unfold rows_elsewhere. rewrite filter_app.
  rewrite (filter_nil _ added); [apply app_nil_r|].
  intros f Hf. apply negb_false_iff, Z.eqb_eq. now apply Hp.
Qed.

Lemma scan_files_elsewhere_witness :
  let w := open_session mixed_store [] in
  let w' := snd (scan_files [("f"%string, regular 2 1 10)]
                   (mkDirectory 2 ["a"%string] (Some 1)) ["f"%string] w) in
  rows_elsewhere 2 (file_table w') = rows_elsewhere 2 (file_table w).
Proof.
  cbv zeta.
  apply (scan_files_elsewhere [("f"%string, regular 2 1 10)]
           (mkDirectory 2 ["a"%string] (Some 1)) ["f"%string]
           (open_session mixed_store [])).
  - repeat constructor; simpl; intuition discriminate.
  - vm_compute. reflexivity.
Defined.

(** ** The order of duplicates *)

Lemma hash_leb_le h1 h2 : hash_leb h1 h2 = true <-> hash_le h1 h2.
Proof.
  destruct h1 as [a|], h2 as [b|]; cbn; try easy.
  unfold String.leb. destruct (String.compare a b); split; congruence.
Qed.

Lemma row_leb_le a b : row_leb a b = true <-> size_hash_le a b.
Proof.
  unfold row_leb, order_leb, size_hash_le.
  rewrite orb_true_iff, andb_true_iff, Z.ltb_lt, Z.eqb_eq, hash_leb_le. tauto.
Qed.

Lemma candidates_sorted db : StronglySorted size_hash_le (duplicate_candidates db).
Proof.
  assert (H : StronglySorted (fun a b => row_leb a b = true) (duplicate_candidates db)).
  { apply (sort_by_strongly row_leb).
    - intros a b c. apply order_leb_trans.
    - intros a b. apply order_leb_total. }
  induction H as [|x l Hs IH Hx]; constructor; [exact IH|].
  rewrite Forall_forall in *. intros y Hy. apply row_leb_le. now apply Hx.
Qed.

Lemma hash_kept t1 : forall t2 oid ob h,
  Forall2 same_but_hash t1 t2 ->
  find (fun o => String.eqb (obj_id o) oid) t1 = Some ob -> obj_hash ob = Some h ->
  exists ob', find (fun o => String.eqb (obj_id o) oid) t2 = Some ob'
              /\ obj_hash ob' = Some h.
Proof.
  induction t1 as [|x t1 IH]; intros t2 oid ob h H; inversion H as [|? y ? t2' Hxy Ht];
    subst; cbn [find]; [discriminate|].
  destruct Hxy as (Hid & _ & _ & Hh). rewrite Hid.
  destruct (String.eqb (obj_id x) oid).
  - intros [= ->] Hob. exists y. split; [reflexivity|].
    rewrite Hh; [exact Hob|congruence].
  - now apply IH.
Qed.

Lemma hash_in_kept db db' ob row h :
  fills_hashes db db' ->
  find_object (obj_id ob) db = Some row -> obj_hash row = Some h ->
  hash_in db' ob = h.
Proof.
  intros (_ & _ & F) Hf Hh. unfold hash_in, find_object in *.
  destruct (hash_kept _ _ _ _ _ F Hf Hh) as [row' [-> ->]]. reflexivity.
Qed.

Lemma find_set_object_hash oid h db ob :
  find_object oid db = Some ob ->
  exists ob', find_object oid (set_object_hash oid h db) = Some ob'
              /\ obj_hash ob' = Some h.
Proof.
  unfold find_object, set_object_hash. cbn [objects set_objects].
  induction (objects db) as [|x tbl IH]; cbn [find map]; [discriminate|].
  destruct (String.eqb (obj_id x) oid) eqn:E; cbn [obj_id]; rewrite E.
  - intros _. eexists. split; reflexivity.
  - exact IH.
Qed.

(** One turn of the loop: the file goes to the group of a hash, and that
    hash is then the stored hash of the row's object. *)
Lemma find_duplicates_step_keyed d it c db o t d' w' :
  NoDup (map obj_id (objects db)) ->
  find_duplicates_step d it (clean c db o t) = (Return d', w') ->
  exists c' db' h row,
    w' = clean c' db' o t /\ fills_hashes db db'
    /\ d' = dict_append h (fst it) d
    /\ find_object (obj_id (snd it)) db' = Some row /\ obj_hash row = Some h.
Proof.
  intros Hnd. unfold find_duplicates_step.
  rewrite (bind_return _ _ _ _ _ (query_clean _ _ _ _ _)).
  destruct (find_object (obj_id (snd it)) db) as [obj|] eqn:F; [|discriminate].
  pose proof (find_object_id _ _ _ F) as Hid.
  destruct (obj_hash obj) as [h|] eqn:Hh.
  - intros [= <- <-]. exists c, db, h, obj.
    repeat split; try assumption; apply fills_hashes_refl || apply same_but_hash_refl.
  - unfold bind at 1. unfold bind at 1. rewrite get_path_clean.
    destruct (file_path_in db (fst it)) as [name|]; [|discriminate].
    unfold bind at 1. rewrite calculate_hash_clean.
    assert (Hset : forall h,
      (execute (set_object_hash (obj_id obj) h) ;; commit ;; ret h) (clean c db o t)
      = (Return h, clean (set_object_hash (obj_id obj) h db)
                         (set_object_hash (obj_id obj) h db) o t)).
    { intros h. rewrite (bind_return _ _ _ _ _ (execute_clean _ _ _ _ _)).
      now rewrite (bind_return _ _ _ _ _ (commit_clean _ _ _ _)). }
    assert (Hdone : forall h,
      exists c' db' h' row,
        (clean (set_object_hash (obj_id obj) h db)
               (set_object_hash (obj_id obj) h db) o t) = clean c' db' o t
        /\ fills_hashes db db'
        /\ dict_append h (fst it) d = dict_append h' (fst it) d
        /\ find_object (obj_id (snd it)) db' = Some row /\ obj_hash row = Some h').
    { intros h. rewrite <- Hid in F.
      destruct (find_set_object_hash _ h _ _ F) as [row [Hrow Hh']].
      eexists _, _, h, row. split; [reflexivity|].
      split; [now apply set_object_hash_fills|]. split; [reflexivity|].
      rewrite <- Hid. now split. }
    destruct (fs_lookup name t) as [[x|x|]|]; try discriminate;
      rewrite Hset; intros [= <- <-]; apply Hdone.
Qed.

Lemma fold_find_duplicates_keyed items : forall d c db o t d' w',
  NoDup (map obj_id (objects db)) ->
  fold_m items find_duplicates_step d (clean c db o t) = (Return d', w') ->
  exists c' db',
    w' = clean c' db' o t /\ fills_hashes db db'
    /\ d' = fold_left (fun d it => dict_append (hash_in db' (snd it)) (fst it) d) items d.
Proof.
  induction items as [|it items IH]; intros d c db o t d' w' Hnd; cbn [fold_m fold_left].
  - intros [= <- <-]. exists c, db. repeat split; apply same_but_hash_refl.
  - unfold bind at 1.
    destruct (find_duplicates_step d it (clean c db o t)) as [[d1|e] w1] eqn:S;
      [|discriminate].
    destruct (find_duplicates_step_keyed _ _ _ _ _ _ _ _ Hnd S)
      as (c1 & db1 & h & row & -> & F1 & -> & Hrow & Hh).
    intros H. apply IH in H.
    + destruct H as (c2 & db2 & -> & F2 & ->). exists c2, db2.
      split; [reflexivity|]. split; [now apply fills_hashes_trans with (db2 := db1)|].
      now rewrite (hash_in_kept db1 db2 (snd it) row h F2 Hrow Hh).
    + rewrite (same_but_hash_ids _ _ (proj2 (proj2 F1))). exact Hnd.
Qed.

Lemma group_files_fold key items : forall d,
  fold_left (fun d it => dict_append (key it) (fst it) d) items (map group_files d)
  = map group_files (fold_left (fun d it => dict_append (key it) it d) items d).
Proof.
  induction items as [|it items IH]; intros d; cbn [fold_left]; [reflexivity|].
  now rewrite <- group_files_append, IH.
Qed.

(** C4, amended. The rows of the query of [find_duplicates] come ordered by
    [(size, hash)] of their objects as stored, a null hash first.  Whenever
    the call returns, it has grouped these rows by the hash that the object
    of each row has afterwards, which is the stored hash where one was
    stored.  The groups come in the order in which their first rows stand in
    the query, so they are ordered by size, and by [(size, hash)] as far as
    the hashes were stored; and the members of a group are the rows of its
    hash in the order of the query: no ordering by directory path or by name
    is applied. *)
Theorem find_duplicates_order db0 db o t d w' :
  NoDup (map obj_id (objects db)) ->
  find_duplicates (clean db0 db o t) = (Return d, w') ->
  let rows := duplicate_candidates db in
  let key := fun it : File * Object => hash_in (current (conn w')) (snd it) in
  let groups :=
    filter (fun g => (1 <? List.length (snd g))%nat) (group_rows_by key rows) in
  d = map group_files groups
  /\ StronglySorted size_hash_le rows
  /\ StronglySorted (fun g1 g2 => size_hash_le (group_first g1) (group_first g2)) groups
  /\ StronglySorted
       (fun g1 g2 => obj_size (snd (group_first g1)) <= obj_size (snd (group_first g2)))
       groups
  /\ (forall g, In g groups -> snd g = rows_with key (fst g) rows)
  /\ (forall it h, In it rows -> obj_hash (snd it) = Some h -> key it = h).
Proof.
  intros Hnd Run rows key groups.
  unfold find_duplicates in Run.
  rewrite (bind_return _ _ _ _ _ (query_clean _ _ _ _ _)) in Run.
  fold rows in Run. unfold bind at 1 in Run.
  destruct (fold_m rows find_duplicates_step [] (clean db0 db o t))
    as [[d1|e] w1] eqn:Fold; [|discriminate].
  injection Run as <- <-.
  destruct (fold_find_duplicates_keyed _ _ _ _ _ _ _ _ Hnd Fold)
    as (c' & db' & -> & Fills & ->).
  cbn [conn current clean] in key.
  assert (Hfirsts : StronglySorted
            (fun g1 g2 => size_hash_le (group_first g1) (group_first g2)) groups).
  { apply strongly_sorted_filter.
    apply strongly_sorted_map with (R := size_hash_le) (f := group_first).
    apply group_rows_sorted; [constructor|apply candidates_sorted]. }
  split; [|split; [apply candidates_sorted|split; [exact Hfirsts|split; [|split]]]].
  - unfold groups. rewrite <- group_files_filter. f_equal.
    exact (group_files_fold key rows []).
  - clear - Hfirsts. induction Hfirsts as [|g l Hs IH Hg]; constructor; [exact IH|].
    rewrite Forall_forall in *. intros g' Hg'.
    destruct (Hg g' Hg') as [L|[E _]]; lia.
  - intros g Hin. apply filter_In in Hin. now apply group_rows_members.
  - intros it h Hin Hh. unfold key.
    apply (hash_in_kept db db' (snd it) (snd it) h Fills); [|exact Hh].
    apply find_nodup; [exact Hnd|]. now apply candidates_object.
Qed.

Lemma find_duplicates_order_witness :
  let r := find_duplicates (clean sized_store sized_store [] sized_files) in
  let d := match fst r with Return d => d | Raise _ => [] end in
  let rows := duplicate_candidates sized_store in
  let key := fun it : File * Object => hash_in (current (conn (snd r))) (snd it) in
  let groups :=
    filter (fun g => (1 <? List.length (snd g))%nat) (group_rows_by key rows) in
  d = map group_files groups
  /\ StronglySorted size_hash_le rows
  /\ StronglySorted (fun g1 g2 => size_hash_le (group_first g1) (group_first g2)) groups
  /\ StronglySorted
       (fun g1 g2 => obj_size (snd (group_first g1)) <= obj_size (snd (group_first g2)))
       groups
  /\ (forall g, In g groups -> snd g = rows_with key (fst g) rows)
  /\ (forall it h, In it rows -> obj_hash (snd it) = Some h -> key it = h).
Proof.
  cbv zeta.
  apply (find_duplicates_order sized_store sized_store [] sized_files).
  - repeat constructor; simpl; intuition discriminate.
  - vm_compute. reflexivity.
Defined.

(** ** The order of the garbage collection *)

Lemma directory_dangled_missing db d :
  In d (directories db) ->
  is_true (directory_is_dangled db d) = references_missing_parent db d.
Proof.
  intros Hin. unfold references_missing_parent.
  destruct (dir_parent_id d) as [p|] eqn:Ep.
  - unfold directory_is_dangled, dir_ids. rewrite Ep, <- map_map.
    apply eq_true_iff_eq. rewrite (not_in_true Z.eqb Z.eqb_eq).
    rewrite negb_true_iff, <- not_true_iff_false, mem_Z_in, in_map_Some.
    pose proof (not_in_map_Some (map dir_id (directories db))). tauto.
  - now apply null_parent_not_dangled.
Qed.

Lemma directories_passes_as_specified fuel : forall db,
  directories_passes fuel db = delete_orphan_directories fuel db.
Proof.
  induction fuel as [|k IH]; intros db; [reflexivity|].
  cbn [directories_passes delete_orphan_directories].
  assert (E1 : filter (fun r => is_true (directory_is_dangled db r)) (directories db)
               = filter (references_missing_parent db) (directories db))
    by (apply filter_ext_in; intros d Hd; now apply directory_dangled_missing).
  assert (E2 : directories_pass db
               = set_directories db
                   (filter (fun d => negb (references_missing_parent db d))
                           (directories db))).
  { unfold directories_pass, sql_delete. cbn [fst]. f_equal.
    apply filter_ext_in. intros d Hd. now rewrite directory_dangled_missing. }
  destruct (dangled_directories db =? 0)%nat eqn:Z.
  - apply Nat.eqb_eq in Z. rewrite (directories_pass_stable db Z).
    unfold dangled_directories, sql_delete in Z. cbn [snd] in Z. rewrite E1 in Z.
    now destruct (filter (references_missing_parent db) (directories db)).
  - apply Nat.eqb_neq in Z.
    unfold dangled_directories, sql_delete in Z. cbn [snd] in Z. rewrite E1 in Z.
    destruct (filter (references_missing_parent db) (directories db));
      [now cbn in Z|]. now rewrite IH, E2.
Qed.

Lemma has_object_mem oid tbl : has_object oid tbl = mem_str oid (map obj_id tbl).
Proof.
  unfold has_object, mem_str. induction tbl as [|x tbl IH]; cbn; [reflexivity|].
  now rewrite IH, String.eqb_sym.
Qed.

Lemma files_as_specified db :
  has_null_reference db = false ->
  without_dangled_files db = delete_dangling_files db.
Proof.
  intros Hnull. rewrite without_dangled_files_exact. unfold delete_dangling_files.
  f_equal. apply filter_ext_in. intros f Hf.
  unfold file_is_kept, references_missing_object, directory_is_missing, object_ids.
  destruct (file_object_id f) as [oid|] eqn:E;
    [now rewrite !negb_involutive, has_object_mem|].
  exfalso. apply not_true_iff_false in Hnull. apply Hnull.
  unfold has_null_reference. apply existsb_exists. exists f. now rewrite E.
Qed.

Lemma objects_as_specified db :
  has_null_reference db = false ->
  without_dangled_objects db = delete_unreferenced_objects db.
Proof.
  intros Hnull. unfold without_dangled_objects, delete_unreferenced_objects, sql_delete.
  cbn [fst]. f_equal. apply filter_ext. intros ob.
  destruct (is_true (object_is_dangled db ob)) eqn:D.
  - apply object_dangled_true in D. now rewrite (proj1 D).
  - destruct (is_referenced db ob) eqn:R; [reflexivity|].
    exfalso. apply not_true_iff_false in D. apply D.
    apply object_dangled_true. now split.
Qed.

Lemma no_null_reference_filtered db p :
  has_null_reference db = false ->
  has_null_reference (set_files db (filter p (files db))) = false.
Proof.
  unfold has_null_reference. cbn [files set_files]. intros H.
  apply not_true_iff_false. intros E. apply not_true_iff_false in H. apply H.
  apply existsb_exists in E. destruct E as [f [Hf E]]. apply filter_In in Hf.
  apply existsb_exists. exists f. tauto.
Qed.

(** C5, amended. The [gc] command proceeds in the order: (1) repeatedly
    delete the directories whose [parent_id] references a directory that is
    not there, until a pass deletes zero rows, then (2) delete the files
    that reference no existing object and the files whose directory no
    longer exists, then (3) delete the objects with no referencing file;
    then it commits.  This is stated of an index in which every file row has
    an [object_id]; what the command does about rows with a null
    [object_id] is left open here. *)
Theorem collect_garbage_order db t :
  has_null_reference db = false ->
  let db1 := delete_orphan_directories (S (List.length (directories db))) db in
  run collect_garbage db t
  = (Return tt, delete_unreferenced_objects (delete_dangling_files db1))
  /\ filter (references_missing_parent db1) (directories db1) = [].
Proof.
  intros Hnull db1.
  assert (E1 : without_dangled_directories db = db1)
    by apply directories_passes_as_specified.
  assert (N1 : has_null_reference db1 = false).
  { rewrite <- E1. unfold has_null_reference, without_dangled_directories.
    now rewrite (proj1 (directories_passes_directories_only _ db)). }
  split.
  - rewrite run_collect_garbage, E1, (files_as_specified db1 N1). f_equal.
    apply objects_as_specified. now apply no_null_reference_filtered.
  - pose proof (dangled_directories_settled db) as Z. rewrite E1 in Z.
    unfold dangled_directories, sql_delete in Z. cbn [snd] in Z.
    rewrite (filter_ext_in _ (references_missing_parent db1)) in Z
      by (intros d Hd; now apply directory_dangled_missing).
    now destruct (filter (references_missing_parent db1) (directories db1)).
Qed.

Lemma collect_garbage_order_witness :
  let db1 := delete_orphan_directories (S (List.length (directories chain_store)))
               chain_store in
  run collect_garbage chain_store []
  = (Return tt, delete_unreferenced_objects (delete_dangling_files db1))
  /\ filter (references_missing_parent db1) (directories db1) = [].
Proof.
  apply (collect_garbage_order chain_store []). reflexivity.
Defined.

(** ** The removal loop of the interactive screen *)




